(** * CNKI EndNote parser and co-occurrence networks: a Rocq model

    A shallow embedding of [cnki_parser.py] (the record parser, the data
    frame and the statistics of [quick_parse]) and of [network_builder.py]
    (the three graph builders), with the properties of the written
    specification stated and proved over it; then of what [visualizer.py],
    [main.py] and [ai_modules.py] compute from the records and the graphs
    before they draw, print or call out (series, rankings, node sizes),
    with further properties of the code.

    Conventions.
    - A Python [str] is a list of Unicode code points ([N]); [len] is
      [length].  Python [int]s are [Z].
    - [str.strip], [str.isspace] and the regular expression class [\s] use
      the interpreter's white-space table, written out in [is_space].
    - The regular expression class [\d] and [int()] use the interpreter's
      table of Unicode decimal digits, which depends on the Unicode version
      the interpreter ships: the parser is parameterised by it.
    - [int()] is the mathematical conversion: the optional cap some
      interpreters put on the number of digits is not modelled.
    - A [dict], a [defaultdict] or a [Counter] is an association list in
      insertion order; a [set] is used for membership, [len] and [sorted]
      only, and is a list without repetition.
    - A file is the bytes it holds; reading it decodes UTF-8 and may fail.
    - A [networkx.Graph] is its nodes, in insertion order with their
      attributes, and its weighted edges. *)

From Stdlib Require Import Ascii String.
From Stdlib Require Import List NArith ZArith Lia Bool.
From Stdlib Require Strings.Byte.
From Stdlib Require Import Sorting.Sorted Sorting.Permutation.
Import ListNotations.
Import Corelib.Init.Datatypes.

Set Implicit Arguments.

(* ===================================================================== *)
(** * Python strings *)
(* ===================================================================== *)

Module PyStr.

Definition char := N.
Definition pystr := list char.

(** An ASCII character, and an ASCII literal, as code points. *)
Definition ch (a : ascii) : char := N_of_ascii a.
Definition lit (s : string) : pystr := map N_of_ascii (list_ascii_of_string s).
Arguments ch a%_char.
Arguments lit s%_string.

Definition char_in (cs : list char) (c : char) : bool :=
  existsb (N.eqb c) cs.

(** [str.isspace] on one character, [\s] of [re] on [str] patterns. *)
Definition is_space (c : char) : bool :=
  ((0x09 <=? c) && (c <=? 0x0D) || (0x1C <=? c) && (c <=? 0x20)
   || (0x2000 <=? c) && (c <=? 0x200A)
   || char_in [0x85; 0xA0; 0x1680; 0x2028; 0x2029; 0x202F; 0x205F; 0x3000] c)%N.

Fixpoint str_eqb (s t : pystr) : bool :=
  match s, t with
  | [], [] => true
  | c :: s', d :: t' => N.eqb c d && str_eqb s' t'
  | _, _ => false
  end.

(** [s < t] on [str]: lexicographic on code points. *)
Fixpoint str_ltb (s t : pystr) : bool :=
  match s, t with
  | _, [] => false
  | [], _ :: _ => true
  | c :: s', d :: t' => N.ltb c d || (N.eqb c d && str_ltb s' t')
  end.

(** Truthiness of a [str]: [if s:] . *)
Definition truthy (s : pystr) : bool :=
  match s with [] => false | _ :: _ => true end.

Fixpoint drop_while (f : char -> bool) (s : pystr) : pystr :=
  match s with
  | [] => []
  | c :: s' => if f c then drop_while f s' else s
  end.

Fixpoint take_while (f : char -> bool) (s : pystr) : pystr :=
  match s with
  | [] => []
  | c :: s' => if f c then c :: take_while f s' else []
  end.

Definition lstrip (s : pystr) : pystr := drop_while is_space s.
Definition rstrip (s : pystr) : pystr := rev (drop_while is_space (rev s)).

(** [s.strip()] *)
Definition strip (s : pystr) : pystr := rstrip (lstrip s).

(** [s.split(sep)] for a one-character separator, and [re.split] on a
    character class: the pieces between separators, [['']] for [''] . *)
Fixpoint split_on (sep : char -> bool) (s : pystr) : list pystr :=
  match s with
  | [] => [[]]
  | c :: s' =>
      if sep c then [] :: split_on sep s'
      else match split_on sep s' with
           | piece :: pieces => (c :: piece) :: pieces
           | [] => [[c]]
           end
  end.

(** [s.startswith(p)] *)
Fixpoint startswith (p s : pystr) : bool :=
  match p, s with
  | [], _ => true
  | c :: p', d :: s' => N.eqb c d && startswith p' s'
  | _ :: _, [] => false
  end.

Lemma str_eqb_spec (s t : pystr) : reflect (s = t) (str_eqb s t).
Proof.
  revert t; induction s as [|c s IH]; intros [|d t]; simpl;
    try (constructor; congruence).
  destruct (N.eqb_spec c d) as [->|Hcd]; simpl.
  - destruct (IH t) as [->|Hst]; constructor; congruence.
  - constructor; congruence.
Qed.

Lemma str_eqb_refl (s : pystr) : str_eqb s s = true.
Proof. destruct (str_eqb_spec s s); congruence. Qed.

Lemma str_eqb_eq (s t : pystr) : str_eqb s t = true <-> s = t.
Proof. destruct (str_eqb_spec s t); split; congruence. Qed.

Lemma str_eqb_neq (s t : pystr) : str_eqb s t = false <-> s <> t.
Proof. destruct (str_eqb_spec s t); split; congruence. Qed.

Lemma str_eqb_sym (s t : pystr) : str_eqb s t = str_eqb t s.
Proof.
  destruct (str_eqb_spec s t), (str_eqb_spec t s); congruence.
Qed.

Definition str_eq_dec (s t : pystr) : {s = t} + {s <> t} :=
  list_eq_dec N.eq_dec s t.

Lemma str_ltb_irrefl (s : pystr) : str_ltb s s = false.
Proof.
  induction s as [|c s IH]; simpl; auto.
  rewrite N.ltb_irrefl, N.eqb_refl; simpl; exact IH.
Qed.

Lemma str_ltb_asym (s t : pystr) : str_ltb s t = true -> str_ltb t s = false.
Proof.
  revert t; induction s as [|c s IH]; intros [|d t]; simpl; auto; try discriminate.
  destruct (N.ltb_spec c d), (N.ltb_spec d c), (N.eqb_spec c d), (N.eqb_spec d c);
    simpl; try lia; auto; congruence.
Qed.

Lemma str_ltb_total (s t : pystr) :
  s <> t -> str_ltb s t = true \/ str_ltb t s = true.
Proof.
  revert t; induction s as [|c s IH]; intros [|d t] Hne; simpl; auto; try congruence.
  destruct (N.ltb_spec c d), (N.ltb_spec d c), (N.eqb_spec c d), (N.eqb_spec d c);
    simpl; try lia; auto; try congruence.
  subst; apply IH; congruence.
Qed.

End PyStr.
Import PyStr.

(* ===================================================================== *)
(** * cnki_parser.py: the data model *)
(* ===================================================================== *)

(** [CnkiPaper].  [cnki_id] is not a declared field of the dataclass: the
    [%W] branch of [_parse_record] creates it as an instance attribute, so
    it is absent ([None]) on a freshly constructed paper. *)
Record CnkiPaper := mkPaper {
  title : pystr;
  authors : list pystr;
  institution : pystr;
  all_institutions : list pystr;
  journal : pystr;
  year : Z;
  volume : pystr;
  issue : pystr;
  pages : pystr;
  keywords : list pystr;
  abstract : pystr;
  doi : pystr;
  url : pystr;
  issn : pystr;
  cn_code : pystr;
  citations : Z;
  downloads : Z;
  cnki_id : option pystr
}.

(** [CnkiPaper()] : every field at its default. *)
Definition new_paper : CnkiPaper :=
  mkPaper [] [] [] [] [] 0%Z [] [] [] [] [] [] [] [] [] 0%Z 0%Z None.

Definition set_title v p :=
  mkPaper v (authors p) (institution p) (all_institutions p) (journal p)
    (year p) (volume p) (issue p) (pages p) (keywords p) (abstract p) (doi p)
    (url p) (issn p) (cn_code p) (citations p) (downloads p) (cnki_id p).
Definition set_authors v p :=
  mkPaper (title p) v (institution p) (all_institutions p) (journal p)
    (year p) (volume p) (issue p) (pages p) (keywords p) (abstract p) (doi p)
    (url p) (issn p) (cn_code p) (citations p) (downloads p) (cnki_id p).
Definition set_institution v p :=
  mkPaper (title p) (authors p) v (all_institutions p) (journal p)
    (year p) (volume p) (issue p) (pages p) (keywords p) (abstract p) (doi p)
    (url p) (issn p) (cn_code p) (citations p) (downloads p) (cnki_id p).
Definition set_all_institutions v p :=
  mkPaper (title p) (authors p) (institution p) v (journal p)
    (year p) (volume p) (issue p) (pages p) (keywords p) (abstract p) (doi p)
    (url p) (issn p) (cn_code p) (citations p) (downloads p) (cnki_id p).
Definition set_journal v p :=
  mkPaper (title p) (authors p) (institution p) (all_institutions p) v
    (year p) (volume p) (issue p) (pages p) (keywords p) (abstract p) (doi p)
    (url p) (issn p) (cn_code p) (citations p) (downloads p) (cnki_id p).
Definition set_year v p :=
  mkPaper (title p) (authors p) (institution p) (all_institutions p) (journal p)
    v (volume p) (issue p) (pages p) (keywords p) (abstract p) (doi p)
    (url p) (issn p) (cn_code p) (citations p) (downloads p) (cnki_id p).
Definition set_volume v p :=
  mkPaper (title p) (authors p) (institution p) (all_institutions p) (journal p)
    (year p) v (issue p) (pages p) (keywords p) (abstract p) (doi p)
    (url p) (issn p) (cn_code p) (citations p) (downloads p) (cnki_id p).
Definition set_issue v p :=
  mkPaper (title p) (authors p) (institution p) (all_institutions p) (journal p)
    (year p) (volume p) v (pages p) (keywords p) (abstract p) (doi p)
    (url p) (issn p) (cn_code p) (citations p) (downloads p) (cnki_id p).
Definition set_pages v p :=
  mkPaper (title p) (authors p) (institution p) (all_institutions p) (journal p)
    (year p) (volume p) (issue p) v (keywords p) (abstract p) (doi p)
    (url p) (issn p) (cn_code p) (citations p) (downloads p) (cnki_id p).
Definition set_keywords v p :=
  mkPaper (title p) (authors p) (institution p) (all_institutions p) (journal p)
    (year p) (volume p) (issue p) (pages p) v (abstract p) (doi p)
    (url p) (issn p) (cn_code p) (citations p) (downloads p) (cnki_id p).
Definition set_abstract v p :=
  mkPaper (title p) (authors p) (institution p) (all_institutions p) (journal p)
    (year p) (volume p) (issue p) (pages p) (keywords p) v (doi p)
    (url p) (issn p) (cn_code p) (citations p) (downloads p) (cnki_id p).
Definition set_doi v p :=
  mkPaper (title p) (authors p) (institution p) (all_institutions p) (journal p)
    (year p) (volume p) (issue p) (pages p) (keywords p) (abstract p) v
    (url p) (issn p) (cn_code p) (citations p) (downloads p) (cnki_id p).
Definition set_url v p :=
  mkPaper (title p) (authors p) (institution p) (all_institutions p) (journal p)
    (year p) (volume p) (issue p) (pages p) (keywords p) (abstract p) (doi p)
    v (issn p) (cn_code p) (citations p) (downloads p) (cnki_id p).
Definition set_issn v p :=
  mkPaper (title p) (authors p) (institution p) (all_institutions p) (journal p)
    (year p) (volume p) (issue p) (pages p) (keywords p) (abstract p) (doi p)
    (url p) v (cn_code p) (citations p) (downloads p) (cnki_id p).
Definition set_cn_code v p :=
  mkPaper (title p) (authors p) (institution p) (all_institutions p) (journal p)
    (year p) (volume p) (issue p) (pages p) (keywords p) (abstract p) (doi p)
    (url p) (issn p) v (citations p) (downloads p) (cnki_id p).
Definition set_citations v p :=
  mkPaper (title p) (authors p) (institution p) (all_institutions p) (journal p)
    (year p) (volume p) (issue p) (pages p) (keywords p) (abstract p) (doi p)
    (url p) (issn p) (cn_code p) v (downloads p) (cnki_id p).
Definition set_downloads v p :=
  mkPaper (title p) (authors p) (institution p) (all_institutions p) (journal p)
    (year p) (volume p) (issue p) (pages p) (keywords p) (abstract p) (doi p)
    (url p) (issn p) (cn_code p) (citations p) v (cnki_id p).
Definition set_cnki_id v p :=
  mkPaper (title p) (authors p) (institution p) (all_institutions p) (journal p)
    (year p) (volume p) (issue p) (pages p) (keywords p) (abstract p) (doi p)
    (url p) (issn p) (cn_code p) (citations p) (downloads p) (Some v).

(** The interpreter's table of Unicode decimal digits (category Nd): which
    code points [\d] matches, and the value [int()] gives each. *)
Record digit_table := mkDigits {
  is_decimal : char -> bool;
  decimal_value : char -> Z
}.

(** The ASCII digits, the part of the table the sample inputs use. *)
Definition ascii_digits : digit_table :=
  mkDigits (fun c => (48 <=? c) && (c <=? 57))%N (fun c => Z.of_N c - 48)%Z.

(** A table is standard on ASCII when it has the digits [0]..[9] with
    their values, as every Unicode version does. *)
Definition standard_on_ascii (tbl : digit_table) : Prop :=
  forall c, (48 <= c <= 57)%N ->
    is_decimal tbl c = true /\ decimal_value tbl c = (Z.of_N c - 48)%Z.

(* ===================================================================== *)
(** * cnki_parser.py: [CnkiEndNoteParser] *)
(* ===================================================================== *)

Module CnkiEndNoteParser.

Section Decoding.

Variable tbl : digit_table.

(** [int(s)] on a run of decimal digits. *)
Definition int_of_digits (ds : pystr) : Z :=
  fold_left (fun acc c => (10 * acc + decimal_value tbl c)%Z) ds 0%Z.

(** [(19|20)\d{2}] tried at the start of [s]: the matched text. *)
Definition year_at (s : pystr) : option pystr :=
  match s with
  | a :: b :: c :: d :: _ =>
      if ((N.eqb a (ch "1") && N.eqb b (ch "9"))
          || (N.eqb a (ch "2") && N.eqb b (ch "0")))
         && is_decimal tbl c && is_decimal tbl d
      then Some [a; b; c; d] else None
  | _ => None
  end.

(** [re.search(r'(19|20)\d{2}', s)] : the leftmost match. *)
Fixpoint search_year (s : pystr) : option pystr :=
  match s with
  | [] => None
  | _ :: s' =>
      match year_at s with
      | Some m => Some m
      | None => search_year s'
      end
  end.

(** [(\d+)] at the start of [s]: the longest run of digits, not empty. *)
Definition digits1 (s : pystr) : option pystr :=
  match take_while (is_decimal tbl) s with
  | [] => None
  | d => Some d
  end.

(** [\s*(\d+)] at the start of [s]: the white space is taken greedily and
    given back one character at a time when no digit follows. *)
Fixpoint spaces_digits (s : pystr) : option pystr :=
  match s with
  | [] => None
  | c :: s' =>
      if is_space c then
        match spaces_digits s' with
        | Some d => Some d
        | None => digits1 s
        end
      else digits1 s
  end.

(** [:] and the full-width colon. *)
Definition is_colon (c : char) : bool := char_in [ch ":"; 0xFF1A%N] c.

(** [[:：]?\s*(\d+)] at the start of [s]: group 1. *)
Definition colon_spaces_digits (s : pystr) : option pystr :=
  match s with
  | [] => None
  | c :: s' =>
      if is_colon c then
        match spaces_digits s' with
        | Some d => Some d
        | None => spaces_digits s
        end
      else spaces_digits s
  end.

(** [re.search(label + r'[:：]?\s*(\d+)', s)] : group 1 of the leftmost
    match. *)
Fixpoint search_count (label s : pystr) : option pystr :=
  match s with
  | [] => None
  | _ :: s' =>
      match (if startswith label s
             then colon_spaces_digits (skipn (length label) s)
             else None) with
      | Some d => Some d
      | None => search_count label s'
      end
  end.

(** The labels of the statistics line: "cited" and "downloads". *)
Definition label_cited : pystr := [0x88AB; 0x5F15]%N.
Definition label_downloads : pystr := [0x4E0B; 0x8F7D]%N.

(** [[i.strip() for i in pieces if i.strip()]] *)
Definition stripped_nonempty (pieces : list pystr) : list pystr :=
  map strip (filter (fun i => truthy (strip i)) pieces).

(** [value.split(';')], trimmed, without the empty segments. *)
Definition split_institutions (value : pystr) : list pystr :=
  stripped_nonempty (split_on (N.eqb (ch ";")) value).

(** [re.split(r'[;；,，]', value)], trimmed, without the empty segments. *)
Definition is_keyword_sep (c : char) : bool :=
  char_in [ch ";"; 0xFF1B%N; ch ","; 0xFF0C%N] c.
Definition split_keywords (value : pystr) : list pystr :=
  stripped_nonempty (split_on is_keyword_sep value).

(** The body of the [if marker == ... elif ...] chain, on the second
    character [m] of the marker (the first is [%]). *)
Definition dispatch (m : char) (value : pystr) (paper : CnkiPaper) : CnkiPaper :=
  if N.eqb m (ch "T") then set_title value paper
  else if N.eqb m (ch "A") then
    if truthy value then set_authors (authors paper ++ [value]) paper else paper
  else if N.eqb m (ch "+") then
    if truthy value then
      let institutions := split_institutions value in
      set_institution (hd [] institutions)
        (set_all_institutions institutions paper)
    else paper
  else if N.eqb m (ch "J") then set_journal value paper
  else if N.eqb m (ch "D") then
    match search_year value with
    | Some year_match => set_year (int_of_digits year_match) paper
    | None => paper
    end
  else if N.eqb m (ch "V") then set_volume value paper
  else if N.eqb m (ch "N") then set_issue value paper
  else if N.eqb m (ch "P") then set_pages value paper
  else if N.eqb m (ch "K") then
    if truthy value then set_keywords (split_keywords value) paper else paper
  else if N.eqb m (ch "X") then set_abstract value paper
  else if N.eqb m (ch "R") then set_doi value paper
  else if N.eqb m (ch "@") then set_issn value paper
  else if N.eqb m (ch "L") then set_cn_code value paper
  else if N.eqb m (ch "U") then set_url value paper
  else if N.eqb m (ch "W") then set_cnki_id value paper
  else if N.eqb m (ch "Z") then
    let paper1 :=
      match search_count label_cited value with
      | Some g => set_citations (int_of_digits g) paper
      | None => paper
      end in
    match search_count label_downloads value with
    | Some g => set_downloads (int_of_digits g) paper1
    | None => paper1
    end
  else paper.

(** The head of the loop body of [_parse_record]: a line is decoded when,
    trimmed, it starts with [%] and has at least two characters; the marker
    is its first two characters and the value the trimmed rest. *)
Definition field_of_line (line : pystr) : option (char * pystr) :=
  match strip line with
  | c0 :: m :: rest => if N.eqb c0 (ch "%") then Some (m, strip rest) else None
  | _ => None
  end.

Definition parse_line (paper : CnkiPaper) (line : pystr) : CnkiPaper :=
  match field_of_line line with
  | Some (m, value) => dispatch m value paper
  | None => paper
  end.

Definition is_newline (c : char) : bool := N.eqb c 10%N.

Definition _parse_record (record : pystr) : CnkiPaper :=
  fold_left parse_line (split_on is_newline (strip record)) new_paper.

(** [%0\s] at the start of [s]. *)
Definition starts_record (s : pystr) : bool :=
  match s with
  | a :: b :: c :: _ => N.eqb a (ch "%") && N.eqb b (ch "0") && is_space c
  | _ => false
  end.

(** The pieces of [s] when it is cut before every position, other than its
    start, where [%0\s] begins. *)
Fixpoint cut_records (s : pystr) : list pystr :=
  match s with
  | [] => [[]]
  | c :: s' =>
      match cut_records s' with
      | piece :: pieces =>
          if starts_record s' then [c] :: piece :: pieces
          else (c :: piece) :: pieces
      | [] => [[c]]
      end
  end.

(** [re.split(r'(?=%0\s)', content)] : a match at the start of the text
    gives an empty first piece. *)
Definition split_records (content : pystr) : list pystr :=
  if starts_record content then [] :: cut_records content
  else cut_records content.

(** One turn of the loop of [parse]: the paper appended, if any. *)
Definition parse_block (record : pystr) : option CnkiPaper :=
  let record := strip record in
  if negb (truthy record) || (length record <? 50)%nat then None
  else
    let paper := _parse_record record in
    if truthy (title paper) then Some paper else None.

(** The body of [parse] once the text is read. *)
Definition parse_content (content : pystr) : list CnkiPaper :=
  fold_left
    (fun papers record =>
       match parse_block record with
       | Some paper => papers ++ [paper]
       | None => papers
       end)
    (split_records content) [].

End Decoding.

End CnkiEndNoteParser.
Import CnkiEndNoteParser.

(* ===================================================================== *)
(** * Files: what [os.path.exists], [open] and [read] see *)
(* ===================================================================== *)

Module Files.

(** What a path names.  [os.path.exists] is true of both kinds of entry. *)
Inductive fs_entry :=
| RegularFile (data : list Byte.byte)
| Directory.

Definition filesystem := pystr -> option fs_entry.

Inductive py_exception :=
| FileNotFoundError
| IsADirectoryError
| UnicodeDecodeError.

Inductive result (A : Type) :=
| Return (a : A)
| Raise (e : py_exception).
Arguments Return {A} a.
Arguments Raise {A} e.

Definition in_range (lo hi b : N) : bool := ((lo <=? b) && (b <=? hi))%N.
Definition is_cont (b : N) : bool := in_range 0x80 0xBF b.
Definition cont_bits (b : N) : N := (b - 0x80)%N.

(** The strict UTF-8 decoder of [open(..., encoding='utf-8')]: shortest
    forms only, no surrogates, nothing above U+10FFFF. *)
Fixpoint utf8_decode (bs : list N) : option pystr :=
  match bs with
  | [] => Some []
  | b0 :: r0 =>
      if (b0 <=? 0x7F)%N then option_map (cons b0) (utf8_decode r0)
      else if in_range 0xC2 0xDF b0 then
        match r0 with
        | b1 :: r1 =>
            if is_cont b1
            then option_map (cons ((b0 - 0xC0) * 64 + cont_bits b1)%N)
                   (utf8_decode r1)
            else None
        | _ => None
        end
      else if in_range 0xE0 0xEF b0 then
        match r0 with
        | b1 :: b2 :: r2 =>
            if in_range (if (b0 =? 0xE0)%N then 0xA0 else 0x80)
                 (if (b0 =? 0xED)%N then 0x9F else 0xBF) b1
               && is_cont b2
            then option_map
                   (cons ((b0 - 0xE0) * 4096 + cont_bits b1 * 64 + cont_bits b2)%N)
                   (utf8_decode r2)
            else None
        | _ => None
        end
      else if in_range 0xF0 0xF4 b0 then
        match r0 with
        | b1 :: b2 :: b3 :: r3 =>
            if in_range (if (b0 =? 0xF0)%N then 0x90 else 0x80)
                 (if (b0 =? 0xF4)%N then 0x8F else 0xBF) b1
               && is_cont b2 && is_cont b3
            then option_map
                   (cons ((b0 - 0xF0) * 262144 + cont_bits b1 * 4096
                          + cont_bits b2 * 64 + cont_bits b3)%N)
                   (utf8_decode r3)
            else None
        | _ => None
        end
      else None
  end.

(** Text mode with the default [newline=None]: [\r\n] and a lone [\r] are
    read as [\n]. *)
Fixpoint universal_newlines (s : pystr) : pystr :=
  match s with
  | [] => []
  | c :: s' =>
      if (c =? 13)%N then
        10%N :: match s' with
                | d :: s'' =>
                    if (d =? 10)%N then universal_newlines s''
                    else universal_newlines s'
                | [] => []
                end
      else c :: universal_newlines s'
  end.

(** [f.read()] of a file opened with [open(path, 'r', encoding='utf-8')]. *)
Definition read_text (data : list Byte.byte) : option pystr :=
  option_map universal_newlines (utf8_decode (map Byte.to_N data)).

End Files.
Import Files.

Module CnkiFile.

(** [CnkiEndNoteParser.parse]: the missing-file check, then [open] and
    [read], then the loop over the record blocks.  The message printed
    before returning is not modelled. *)
Definition parse (tbl : digit_table) (fs : filesystem) (file_path : pystr)
  : result (list CnkiPaper) :=
  match fs file_path with
  | None => Raise FileNotFoundError
  | Some Directory => Raise IsADirectoryError
  | Some (RegularFile data) =>
      match read_text data with
      | None => Raise UnicodeDecodeError
      | Some content => Return (parse_content tbl content)
      end
  end.

End CnkiFile.
Import CnkiFile.

(* ===================================================================== *)
(** * cnki_parser.py: the statistics of [quick_parse] *)
(* ===================================================================== *)

Module Stats.

(** The dictionary [stats] of [quick_parse]. *)
Record t := mk {
  total : Z;
  years : list Z;
  authors : Z;
  journals : Z;
  institutions : Z
}.

End Stats.

(** [set(xs)]: one copy of each element.  The model lists them by first
    occurrence; the code only takes [len] or [sorted] of a set, and
    neither depends on the order. *)
Definition str_set (xs : list pystr) : list pystr := nodup str_eq_dec xs.
Definition int_set (xs : list Z) : list Z := nodup Z.eq_dec xs.

(** [sorted(xs)] on integers. *)
Fixpoint insert_sorted (x : Z) (xs : list Z) : list Z :=
  match xs with
  | [] => [x]
  | y :: ys => if (x <=? y)%Z then x :: xs else y :: insert_sorted x ys
  end.
Definition sorted (xs : list Z) : list Z := fold_right insert_sorted [] xs.

Definition py_len {A} (xs : list A) : Z := Z.of_nat (length xs).

(** The block "basic statistics" of [quick_parse]. *)
Definition corpus_stats (papers : list CnkiPaper) : Stats.t :=
  Stats.mk
    (py_len papers)
    (sorted (int_set (map year (filter (fun p => (2000 <? year p)%Z) papers))))
    (py_len (str_set (flat_map authors papers)))
    (py_len (str_set (map journal (filter (fun p => truthy (journal p)) papers))))
    (py_len (str_set (map institution
                        (filter (fun p => truthy (institution p)) papers)))).

(** [quick_parse]: the papers and the statistics (the data frame, a
    rendering of the same papers, is left out). *)
Definition quick_parse (tbl : digit_table) (fs : filesystem) (file_path : pystr)
  : result (list CnkiPaper * Stats.t) :=
  match parse tbl fs file_path with
  | Raise e => Raise e
  | Return papers => Return (papers, corpus_stats papers)
  end.

(* ===================================================================== *)
(** * The part of [networkx.Graph] the builders use *)
(* ===================================================================== *)

Module NX.

(** The attribute dictionary of a node: a key that was never assigned is
    absent. *)
Record attrs := mkAttrs {
  paper_count : option Z;
  citations : option Z;
  freq : option Z
}.

Definition no_attrs : attrs := mkAttrs None None None.

(** An undirected graph: the nodes in insertion order with their
    attributes, and the edges with their [weight].  An edge is stored once
    and found from either end. *)
Record graph := mkGraph {
  nodes : list (pystr * attrs);
  edges : list (pystr * pystr * Z)
}.

(** [nx.Graph()] *)
Definition empty : graph := mkGraph [] [].

Definition joins (u v : pystr) (e : pystr * pystr * Z) : bool :=
  let '(a, b, _) := e in
  (str_eqb a u && str_eqb b v) || (str_eqb a v && str_eqb b u).

Definition has_node (G : graph) (n : pystr) : bool :=
  existsb (fun na => str_eqb (fst na) n) (nodes G).

(** [G.has_edge(u, v)] *)
Definition has_edge (G : graph) (u v : pystr) : bool :=
  existsb (joins u v) (edges G).

(** [G[u][v]['weight']], when the edge exists. *)
Definition weight (G : graph) (u v : pystr) : option Z :=
  option_map snd (find (joins u v) (edges G)).

Definition add_node (G : graph) (n : pystr) : graph :=
  if has_node G n then G else mkGraph (nodes G ++ [(n, no_attrs)]) (edges G).

Definition set_weight (u v : pystr) (f : Z -> Z) (es : list (pystr * pystr * Z)) :=
  map (fun e => if joins u v e then (fst e, f (snd e)) else e) es.

(** [G.add_edge(u, v, weight=w)]: both ends become nodes; an existing edge
    has its weight replaced. *)
Definition add_edge (G : graph) (u v : pystr) (w : Z) : graph :=
  let G1 := add_node (add_node G u) v in
  if has_edge G1 u v
  then mkGraph (nodes G1) (set_weight u v (fun _ => w) (edges G1))
  else mkGraph (nodes G1) (edges G1 ++ [(u, v, w)]).

(** [G[u][v]['weight'] += 1] *)
Definition incr_weight (G : graph) (u v : pystr) : graph :=
  mkGraph (nodes G) (set_weight u v (fun w => (w + 1)%Z) (edges G)).

(** [G.nodes[n][...] = ...] for a node of the graph. *)
Definition update_attrs (G : graph) (n : pystr) (f : attrs -> attrs) : graph :=
  mkGraph (map (fun na => if str_eqb (fst na) n then (fst na, f (snd na)) else na)
             (nodes G))
          (edges G).

Definition node_names (G : graph) : list pystr := map fst (nodes G).

Definition node_attrs (G : graph) (n : pystr) : option attrs :=
  option_map snd (find (fun na => str_eqb (fst na) n) (nodes G)).

End NX.

(* ===================================================================== *)
(** * Dictionaries in insertion order *)
(* ===================================================================== *)

Section Dict.

Variables (K V : Type) (eqb : K -> K -> bool).

Definition dict := list (K * V).

(** [d[k]] on a [defaultdict] or a [Counter] whose missing value is [dflt]. *)
Fixpoint dict_get (dflt : V) (d : dict) (k : K) : V :=
  match d with
  | [] => dflt
  | (k', v) :: d' => if eqb k' k then v else dict_get dflt d' k
  end.

(** [d[k] = f(d[k])], a new key going last. *)
Fixpoint dict_update (dflt : V) (f : V -> V) (d : dict) (k : K) : dict :=
  match d with
  | [] => [(k, f dflt)]
  | (k', v) :: d' =>
      if eqb k' k then (k', f v) :: d'
      else (k', v) :: dict_update dflt f d' k
  end.

Definition dict_has (d : dict) (k : K) : bool :=
  existsb (fun kv => eqb (fst kv) k) d.

End Dict.

(** The two nested loops
    [for i, x in enumerate(xs): for y in xs[i+1:]: body]. *)
Fixpoint for_each_pair {A S} (body : S -> A -> A -> S) (xs : list A) (s : S) : S :=
  match xs with
  | [] => s
  | x :: rest => for_each_pair body rest (fold_left (fun s y => body s x y) rest s)
  end.

(** [xs[:n]] *)
Definition slice_to {A} (n : Z) (xs : list A) : list A :=
  if (0 <=? n)%Z then firstn (Z.to_nat n) xs
  else firstn (length xs - Z.to_nat (- n)) xs.

(** [sorted(xs, key=key, reverse=True)]: descending, and stable. *)
Fixpoint insert_desc {A} (key : A -> Z) (x : A) (ys : list A) : list A :=
  match ys with
  | [] => [x]
  | y :: ys' =>
      if (key y <=? key x)%Z then x :: ys else y :: insert_desc key x ys'
  end.
Definition sorted_desc {A} (key : A -> Z) (xs : list A) : list A :=
  fold_right (insert_desc key) [] xs.

Definition sum_Z (xs : list Z) : Z := fold_left Z.add xs 0%Z.

Definition pair_eqb (p q : pystr * pystr) : bool :=
  str_eqb (fst p) (fst q) && str_eqb (snd p) (snd q).

(* ===================================================================== *)
(** * network_builder.py: [NetworkBuilder] *)
(* ===================================================================== *)

Module NetworkBuilder.

(** The body shared by the edge loops of [build_coauthorship] and
    [build_institution]. *)
Definition bump_edge (G : NX.graph) (a1 a2 : pystr) : NX.graph :=
  if NX.has_edge G a1 a2 then NX.incr_weight G a1 a2
  else NX.add_edge G a1 a2 1%Z.

(** First loop of [build_coauthorship]: [author_papers]. *)
Definition group_by_author (papers : list CnkiPaper) : dict pystr (list CnkiPaper) :=
  fold_left
    (fun author_papers paper =>
       fold_left
         (fun author_papers author =>
            if truthy author
            then dict_update str_eqb [] (fun ps => ps ++ [paper]) author_papers author
            else author_papers)
         (authors paper) author_papers)
    papers [].

Definition top_authors (top_n : Z) (author_papers : dict pystr (list CnkiPaper)) :=
  slice_to top_n (sorted_desc (fun x => py_len (snd x)) author_papers).

Definition top_names (top_n : Z) (author_papers : dict pystr (list CnkiPaper)) :=
  map fst (top_authors top_n author_papers).

Definition name_in (names : list pystr) (a : pystr) : bool :=
  existsb (str_eqb a) names.

(** Second loop of [build_coauthorship]: the edges. *)
Definition coauthorship_edges (names : list pystr) (papers : list CnkiPaper)
  : NX.graph :=
  fold_left
    (fun G paper =>
       for_each_pair bump_edge (filter (name_in names) (authors paper)) G)
    papers NX.empty.

(** Third loop of [build_coauthorship]: the node attributes. *)
Definition coauthorship_attrs (author_papers : dict pystr (list CnkiPaper))
    (G : NX.graph) : NX.graph :=
  fold_left
    (fun G node =>
       let ps := dict_get str_eqb [] author_papers node in
       NX.update_attrs G node
         (fun a => NX.mkAttrs (Some (py_len ps))
                     (Some (sum_Z (map citations ps))) (NX.freq a)))
    (NX.node_names G) G.

Definition build_coauthorship (top_n : Z) (papers : list CnkiPaper) : NX.graph :=
  let author_papers := group_by_author papers in
  let names := top_names top_n author_papers in
  coauthorship_attrs author_papers (coauthorship_edges names papers).

(** First loop of [build_institution]. *)
Definition institution_edges (papers : list CnkiPaper) : NX.graph :=
  fold_left
    (fun G paper =>
       let institutions := all_institutions paper in
       if (length institutions <? 2)%nat then G
       else for_each_pair bump_edge institutions G)
    papers NX.empty.

Definition institution_attrs (papers : list CnkiPaper) (G : NX.graph) : NX.graph :=
  fold_left
    (fun G node =>
       NX.update_attrs G node
         (fun a => NX.mkAttrs
                     (Some (py_len (filter (fun p => name_in (all_institutions p) node)
                                      papers)))
                     (NX.citations a) (NX.freq a)))
    (NX.node_names G) G.

Definition build_institution (papers : list CnkiPaper) : NX.graph :=
  institution_attrs papers (institution_edges papers).

(** First loop of [build_keywords]: [keyword_freq]. *)
Definition keyword_freq (papers : list CnkiPaper) : dict pystr Z :=
  fold_left
    (fun freq paper =>
       fold_left
         (fun freq kw =>
            if truthy kw then dict_update str_eqb 0%Z (Z.add 1) freq kw else freq)
         (keywords paper) freq)
    papers [].

Definition valid_keywords (min_freq : Z) (freq : dict pystr Z) : list pystr :=
  map fst (filter (fun kf => (min_freq <=? snd kf)%Z) freq).

(** [tuple(sorted([kw1, kw2]))] *)
Definition sorted_pair (kw1 kw2 : pystr) : pystr * pystr :=
  if str_ltb kw2 kw1 then (kw2, kw1) else (kw1, kw2).

(** Second loop of [build_keywords]: [cooccurrence]. *)
Definition cooccurrence (valid : list pystr) (papers : list CnkiPaper)
  : dict (pystr * pystr) Z :=
  fold_left
    (fun cooc paper =>
       for_each_pair
         (fun cooc kw1 kw2 =>
            if negb (str_eqb kw1 kw2)
            then dict_update pair_eqb 0%Z (Z.add 1) cooc (sorted_pair kw1 kw2)
            else cooc)
         (filter (name_in valid) (keywords paper)) cooc)
    papers [].

(** Third loop of [build_keywords]: the edges of weight at least 2. *)
Definition keyword_graph (freq : dict pystr Z) (cooc : dict (pystr * pystr) Z)
  : NX.graph :=
  fold_left
    (fun G item =>
       let '((kw1, kw2), w) := item in
       if (2 <=? w)%Z then
         let G1 := NX.add_edge G kw1 kw2 w in
         let G2 := NX.update_attrs G1 kw1
                     (fun a => NX.mkAttrs (NX.paper_count a) (NX.citations a)
                                 (Some (dict_get str_eqb 0%Z freq kw1))) in
         NX.update_attrs G2 kw2
           (fun a => NX.mkAttrs (NX.paper_count a) (NX.citations a)
                       (Some (dict_get str_eqb 0%Z freq kw2)))
       else G)
    cooc NX.empty.

Definition build_keywords (min_freq : Z) (papers : list CnkiPaper) : NX.graph :=
  let freq := keyword_freq papers in
  keyword_graph freq (cooccurrence (valid_keywords min_freq freq) papers).

End NetworkBuilder.
Import NetworkBuilder.

(* ===================================================================== *)
(** * The record decoder as the specification words it *)
(* ===================================================================== *)

Module RecordSpec.

Section Fields.

Variable tbl : digit_table.

(** The field lines of a block, in order: marker character and value. *)
Definition field_lines (record : pystr) : list (char * pystr) :=
  flat_map (fun line => match field_of_line line with
                        | Some f => [f]
                        | None => []
                        end)
    (split_on is_newline (strip record)).

(** What the lines of marker [m] contribute, when [g] reads a value. *)
Definition on {B} (m : char) (g : pystr -> option B) (f : char * pystr) : option B :=
  if N.eqb (fst f) m then g (snd f) else None.

Definition picks {F B} (upd : F -> option B) (fields : list F) : list B :=
  flat_map (fun f => match upd f with Some b => [b] | None => [] end) fields.

(** A field that is overwritten: the last contribution, or the default. *)
Definition last_of {F B} (upd : F -> option B) (dflt : B) (fields : list F) : B :=
  last (picks upd fields) dflt.

Definition nonempty (v : pystr) : option pystr :=
  if truthy v then Some v else None.

Definition year_of (v : pystr) : option Z :=
  option_map (int_of_digits tbl) (search_year tbl v).

Definition count_of (label v : pystr) : option Z :=
  option_map (int_of_digits tbl) (search_count tbl label v).

(** The decoder field by field, after the marker table of section 4.1
    step 4 of the specification, to be compared with the loop of
    [_parse_record]: every field is the last value its marker gives, or its
    default, except the author list, which collects the non-empty author
    values in order.  What a line gives is what the source assigns: an
    institution-list or keyword line with an empty value, a date line
    without a year and a statistics line without a count give nothing. *)
Definition decode_fields (fields : list (char * pystr)) : CnkiPaper :=
  mkPaper
    (last_of (on (ch "T") Some) [] fields)
    (picks (on (ch "A") nonempty) fields)
    (last_of (on (ch "+") (fun v => option_map (fun w => hd [] (split_institutions w))
                                      (nonempty v))) [] fields)
    (last_of (on (ch "+") (fun v => option_map split_institutions (nonempty v)))
       [] fields)
    (last_of (on (ch "J") Some) [] fields)
    (last_of (on (ch "D") year_of) 0%Z fields)
    (last_of (on (ch "V") Some) [] fields)
    (last_of (on (ch "N") Some) [] fields)
    (last_of (on (ch "P") Some) [] fields)
    (last_of (on (ch "K") (fun v => option_map split_keywords (nonempty v)))
       [] fields)
    (last_of (on (ch "X") Some) [] fields)
    (last_of (on (ch "R") Some) [] fields)
    (last_of (on (ch "U") Some) [] fields)
    (last_of (on (ch "@") Some) [] fields)
    (last_of (on (ch "L") Some) [] fields)
    (last_of (on (ch "Z") (count_of label_cited)) 0%Z fields)
    (last_of (on (ch "Z") (count_of label_downloads)) 0%Z fields)
    (last_of (on (ch "W") (fun v => Some (Some v))) None fields).

(** The candidate blocks of a text, trimmed. *)
Definition trimmed_blocks (content : pystr) : list pystr :=
  map strip (split_records content).



(** A trimmed block is well formed when it has at least 50 characters and
    its title field is not empty. *)
Definition well_formed (block : pystr) : bool :=
  (50 <=? length block)%nat
  && truthy (title (decode_fields (field_lines block))).

(** The values of the lines of marker [m], in order. *)
Definition values_of (m : char) (fields : list (char * pystr)) : list pystr :=
  picks (on m Some) fields.


End Fields.

End RecordSpec.
Import RecordSpec.

(* ===================================================================== *)
(** * Facts about lists and strings *)
(* ===================================================================== *)

Lemma last_cons {A} (l : list A) (x d : A) : last (x :: l) d = last l x.
Proof.
  revert x d; induction l as [|y l IH]; intros x d; [reflexivity|].
  change (last (x :: y :: l) d) with (last (y :: l) d).
  now rewrite (IH y d), (IH y x).
Qed.

Lemma last_app_default {A} (l1 l2 : list A) (d : A) :
  last (l1 ++ l2) d = last l2 (last l1 d).
Proof.
  revert d; induction l1 as [|x l1 IH]; intros d; [reflexivity|].
  rewrite <- app_comm_cons, !last_cons. apply IH.
Qed.

(** A field that each step either overwrites or leaves alone ends as the
    last value written. *)
Lemma fold_last_wins {A F B} (step : A -> F -> A) (proj : A -> B)
    (upd : F -> option B) :
  (forall a f, proj (step a f) = match upd f with Some b => b | None => proj a end) ->
  forall fs a, proj (fold_left step fs a) = last_of upd (proj a) fs.
Proof.
  unfold last_of, picks.
  intros Hstep fs; induction fs as [|f fs IH]; intros a; simpl; auto.
  rewrite IH, Hstep, last_app_default.
  destruct (upd f); reflexivity.
Qed.

(** A field that each step extends ends as the concatenation. *)
Lemma fold_appends {A F B} (step : A -> F -> A) (proj : A -> list B)
    (upd : F -> option B) :
  (forall a f, proj (step a f)
               = proj a ++ match upd f with Some b => [b] | None => [] end) ->
  forall fs a, proj (fold_left step fs a) = proj a ++ picks upd fs.
Proof.
  unfold picks.
  intros Hstep fs; induction fs as [|f fs IH]; intros a; simpl.
  - now rewrite app_nil_r.
  - rewrite IH, Hstep, <- app_assoc. reflexivity.
Qed.

(* ===================================================================== *)
(** * The record decoder: the loop against the specification *)
(* ===================================================================== *)

Lemma paper_ext (p q : CnkiPaper) :
  title p = title q -> authors p = authors q ->
  institution p = institution q -> all_institutions p = all_institutions q ->
  journal p = journal q -> year p = year q -> volume p = volume q ->
  issue p = issue q -> pages p = pages q -> keywords p = keywords q ->
  abstract p = abstract q -> doi p = doi q -> url p = url q ->
  issn p = issn q -> cn_code p = cn_code q -> citations p = citations q ->
  downloads p = downloads q -> cnki_id p = cnki_id q -> p = q.
Proof. destruct p, q; simpl; intros; subst; reflexivity. Qed.

Section DecodingFacts.

Variable tbl : digit_table.

(** One decoded line, as a step on the paper. *)
Definition apply_field (paper : CnkiPaper) (f : char * pystr) : CnkiPaper :=
  dispatch tbl (fst f) (snd f) paper.

Definition or_keep {B} (o : option B) (old : B) : B :=
  match o with Some b => b | None => old end.

Ltac by_marker m k :=
  destruct (N.eqb_spec m k) as [->|?];
  [ cbn; repeat match goal with
                | |- context [truthy ?v] => destruct (truthy v)
                | |- context [search_year ?t ?v] => destruct (search_year t v)
                | |- context [search_count ?t ?l ?v] => destruct (search_count t l v)
                end; rewrite ?app_nil_r; reflexivity | ].

(** What one line does to each field. *)
Lemma apply_field_fields (p : CnkiPaper) (f : char * pystr) :
  apply_field p f =
  mkPaper
    (or_keep (on (ch "T") Some f) (title p))
    (authors p ++ match on (ch "A") nonempty f with Some a => [a] | None => [] end)
    (or_keep (on (ch "+") (fun v => option_map (fun w => hd [] (split_institutions w))
                                      (nonempty v)) f) (institution p))
    (or_keep (on (ch "+") (fun v => option_map split_institutions (nonempty v)) f)
       (all_institutions p))
    (or_keep (on (ch "J") Some f) (journal p))
    (or_keep (on (ch "D") (year_of tbl) f) (year p))
    (or_keep (on (ch "V") Some f) (volume p))
    (or_keep (on (ch "N") Some f) (issue p))
    (or_keep (on (ch "P") Some f) (pages p))
    (or_keep (on (ch "K") (fun v => option_map split_keywords (nonempty v)) f)
       (keywords p))
    (or_keep (on (ch "X") Some f) (abstract p))
    (or_keep (on (ch "R") Some f) (doi p))
    (or_keep (on (ch "U") Some f) (url p))
    (or_keep (on (ch "@") Some f) (issn p))
    (or_keep (on (ch "L") Some f) (cn_code p))
    (or_keep (on (ch "Z") (count_of tbl label_cited) f) (citations p))
    (or_keep (on (ch "Z") (count_of tbl label_downloads) f) (downloads p))
    (or_keep (on (ch "W") (fun v => Some (Some v)) f) (cnki_id p)).
Proof.
  destruct f as [m v], p.
  unfold apply_field, dispatch, on, or_keep, nonempty, year_of, count_of.
  cbn [fst snd].
  by_marker m (ch "T"). by_marker m (ch "A"). by_marker m (ch "+").
  by_marker m (ch "J"). by_marker m (ch "D"). by_marker m (ch "V").
  by_marker m (ch "N"). by_marker m (ch "P"). by_marker m (ch "K").
  by_marker m (ch "X"). by_marker m (ch "R"). by_marker m (ch "@").
  by_marker m (ch "L"). by_marker m (ch "U"). by_marker m (ch "W").
  by_marker m (ch "Z").
  cbn. now rewrite app_nil_r.
Qed.

End DecodingFacts.

Section RecordFacts.

Variable tbl : digit_table.

Lemma fold_parse_line (lines : list pystr) (p : CnkiPaper) :
  fold_left (parse_line tbl) lines p
  = fold_left (apply_field tbl)
      (flat_map (fun line => match field_of_line line with
                             | Some f => [f]
                             | None => []
                             end) lines) p.
Proof.
  revert p; induction lines as [|line lines IH]; intros p; simpl; auto.
  rewrite IH. unfold parse_line, apply_field.
  destruct (field_of_line line) as [[m v]|]; reflexivity.
Qed.

Ltac field_case :=
  intros a f; rewrite apply_field_fields; reflexivity.

Lemma fold_apply_field (fields : list (char * pystr)) :
  fold_left (apply_field tbl) fields new_paper = decode_fields tbl fields.
Proof.
  apply paper_ext; unfold decode_fields; cbn [title authors institution
    all_institutions journal year volume issue pages keywords abstract doi url
    issn cn_code citations downloads cnki_id].
  2: { rewrite (fold_appends (apply_field tbl) authors (on (ch "A") nonempty)).
       - reflexivity.
       - field_case. }
  all: match goal with
       | |- _ = last_of ?upd _ _ =>
           rewrite (fold_last_wins (apply_field tbl) _ upd);
           [ reflexivity | field_case ]
       end.
Qed.

(** The loop of [_parse_record] computes the record the specification
    describes. *)
Lemma parse_record_decode (record : pystr) :
  _parse_record tbl record = decode_fields tbl (field_lines record).
Proof.
  unfold _parse_record, field_lines.
  now rewrite fold_parse_line, fold_apply_field.
Qed.

Lemma fold_append_some {A B} (f : A -> option B) (xs : list A) (acc : list B) :
  fold_left (fun ys x => match f x with Some y => ys ++ [y] | None => ys end) xs acc
  = acc ++ picks f xs.
Proof.
  unfold picks.
  revert acc; induction xs as [|x xs IH]; intros acc; simpl.
  - now rewrite app_nil_r.
  - rewrite IH. destruct (f x); simpl; [rewrite <- app_assoc|]; reflexivity.
Qed.

Lemma picks_filter_map {A B} (f : A -> option B) (keep : A -> bool) (g : A -> B)
    (xs : list A) :
  (forall x, f x = if keep x then Some (g x) else None) ->
  picks f xs = map g (filter keep xs).
Proof.
  intros Hf; unfold picks; induction xs as [|x xs IH]; simpl; auto.
  rewrite Hf, IH. destruct (keep x); reflexivity.
Qed.

Lemma parse_block_well_formed (piece : pystr) :
  parse_block tbl piece
  = if well_formed tbl (strip piece)
    then Some (decode_fields tbl (field_lines (strip piece)))
    else None.
Proof.
  unfold parse_block, well_formed.
  rewrite parse_record_decode.
  destruct (strip piece) as [|c s] eqn:E; [reflexivity|].
  cbn [truthy negb orb].
  destruct (Nat.ltb_spec (length (c :: s)) 50), (Nat.leb_spec 50 (length (c :: s)));
    try lia; reflexivity.
Qed.

(** The loop of [parse] keeps the well-formed blocks, decoded, in order. *)
Lemma parse_content_blocks (content : pystr) :
  parse_content tbl content
  = map (fun b => decode_fields tbl (field_lines b))
      (filter (well_formed tbl) (trimmed_blocks content)).
Proof.
  unfold parse_content, trimmed_blocks.
  rewrite fold_append_some; simpl.
  rewrite (picks_filter_map (parse_block tbl)
             (fun r => well_formed tbl (strip r))
             (fun r => decode_fields tbl (field_lines (strip r))))
    by apply parse_block_well_formed.
  induction (split_records content) as [|r rs IH]; simpl; auto.
  destruct (well_formed tbl (strip r)); simpl; now rewrite IH.
Qed.

End RecordFacts.

(* ===================================================================== *)
(** * Properties of the parser *)
(* ===================================================================== *)







(* --------------------------------------------------------------------- *)
(** ** The sample export of the source *)

Definition nl : pystr := [10%N].




Lemma picks_on {B} (m : char) (g : pystr -> option B) (fields : list (char * pystr)) :
  picks (on m g) fields = picks g (values_of m fields).
Proof.
  unfold values_of, picks, on.
  induction fields as [|[m' v] fields IH]; simpl; auto.
  destruct (N.eqb m' m); simpl; auto.
  rewrite IH. destruct (g v); reflexivity.
Qed.

Lemma picks_nonempty {B} (g : pystr -> B) (vs : list pystr) :
  picks (fun v => option_map g (nonempty v)) vs = map g (filter truthy vs).
Proof.
  apply picks_filter_map. intros v; unfold nonempty.
  destruct (truthy v); reflexivity.
Qed.

Lemma last_map_default {A B} (g : A -> B) (l : list A) (d : A) :
  last (map g l) (g d) = g (last l d).
Proof.
  revert d; induction l as [|x l IH]; intros d; [reflexivity|].
  change (map g (x :: l)) with (g x :: map g l).
  now rewrite !last_cons.
Qed.

(** The two institution fields of a decoded record. *)
Lemma decode_institutions (tbl : digit_table) (record : pystr) :
  let value := last (filter truthy (values_of (ch "+") (field_lines record))) [] in
  all_institutions (_parse_record tbl record) = split_institutions value
  /\ institution (_parse_record tbl record) = hd [] (split_institutions value).
Proof.
  intros value. rewrite parse_record_decode.
  unfold decode_fields, last_of; cbn [all_institutions institution].
  rewrite !picks_on, !picks_nonempty.
  split.
  - exact (last_map_default split_institutions _ []).
  - exact (last_map_default (fun w => hd [] (split_institutions w)) _ []).
Qed.

(** The claim C6 as it is written: the institution fields come from the
    last institution-list line of the block. *)
Definition institutions_from_last_line (tbl : digit_table) (record : pystr) : Prop :=
  1 < length (values_of (ch "+") (field_lines record)) ->
  let value := last (values_of (ch "+") (field_lines record)) [] in
  all_institutions (_parse_record tbl record) = split_institutions value
  /\ institution (_parse_record tbl record) = hd [] (split_institutions value).

(** The two lines that open the sample blocks below: a record start and
    a title, 62 characters with their line ends. *)
Definition block_head : pystr :=
  lit "%0 Journal Article" ++ [10%N]
  ++ lit "%T A title that is long enough for a block" ++ [10%N].

(** A block with the two institution lines [%+ A;B] and [%+]. *)
Definition two_institution_lines : pystr :=
  block_head ++ lit "%+ A;B" ++ [10%N] ++ lit "%+".

(** C6, counterexample.  In the block with the lines [%+ A;B] and [%+]
    the last institution-list line has an empty value, which splits into no
    segment; the decoded record still lists A and B, with A as primary
    institution: the [if value:] guard skips the line. *)
Lemma institutions_from_last_line_fails :
  ~ institutions_from_last_line ascii_digits two_institution_lines.
Proof.
  unfold institutions_from_last_line. intros H.
  assert (Hlen : 1 < length (values_of (ch "+") (field_lines two_institution_lines)))
    by (vm_compute; lia).
  destruct (H Hlen) as [Hall _]. vm_compute in Hall. discriminate Hall.
Qed.

(** C6, as amended.  For every block with more than one institution-list
    line, the decoded [all_institutions] and primary institution are those
    of the last such line whose value is not empty: that value split on [;]
    into trimmed non-empty segments, and the first segment (the empty string
    when there is none).  When every such line has an empty value both stay
    at their defaults, the empty list and the empty string. *)
Theorem institutions_from_last_nonempty_line (tbl : digit_table) (record : pystr) :
  1 < length (values_of (ch "+") (field_lines record)) ->
  let value := last (filter truthy (values_of (ch "+") (field_lines record))) [] in
  all_institutions (_parse_record tbl record) = split_institutions value
  /\ institution (_parse_record tbl record) = hd [] (split_institutions value)
  /\ (value = [] -> all_institutions (_parse_record tbl record) = []
                    /\ institution (_parse_record tbl record) = []).
Proof.
  intros _ value.
  destruct (decode_institutions tbl record) as [Hall Hinst]. fold value in Hall, Hinst.
  split; [exact Hall|]. split; [exact Hinst|].
  intros E. rewrite Hall, Hinst, E. split; reflexivity.
Qed.

(** [parse] decodes that block: it is the one record returned. *)
Lemma two_institution_lines_parsed :
  parse_content ascii_digits two_institution_lines
  = [_parse_record ascii_digits two_institution_lines]
  /\ all_institutions (_parse_record ascii_digits two_institution_lines)
     = [lit "A"; lit "B"].
Proof. split; vm_compute; reflexivity. Qed.

(** A block with the lines [%+ A;B], [%+ C; D;] and [%+]: the last line
    with a value gives C and D. *)
Lemma institutions_from_last_nonempty_line_witness :
  let record := block_head ++ lit "%+ A;B" ++ [10%N] ++ lit "%+ C; D;" ++ [10%N]
                ++ lit "%+" in
  1 < length (values_of (ch "+") (field_lines record))
  /\ all_institutions (_parse_record ascii_digits record) = [lit "C"; lit "D"]
  /\ institution (_parse_record ascii_digits record) = lit "C".
Proof.
  intros record.
  assert (Hlen : 1 < length (values_of (ch "+") (field_lines record)))
    by (vm_compute; lia).
  destruct (institutions_from_last_nonempty_line ascii_digits record Hlen)
    as [Hall [Hinst _]].
  split; [exact Hlen|].
  split; [rewrite Hall | rewrite Hinst]; reflexivity.
Defined.

(* --------------------------------------------------------------------- *)
(** ** The year of a date line *)

Section YearFacts.

Variable tbl : digit_table.

(** The texts [(19|20)\d{2}] matches. *)
Definition matches_year (m : pystr) : Prop :=
  exists c d,
    (m = [ch "1"; ch "9"; c; d] \/ m = [ch "2"; ch "0"; c; d])
    /\ is_decimal tbl c = true /\ is_decimal tbl d = true.

(** [m] is the first substring of [v] that matches: it occurs in [v], and
    no match starts further left. *)
Definition first_year_match (v m : pystr) : Prop :=
  exists pre post,
    v = pre ++ m ++ post /\ matches_year m
    /\ forall pre' m' post',
         v = pre' ++ m' ++ post' -> matches_year m' -> length pre <= length pre'.

Definition no_year_match (v : pystr) : Prop :=
  forall pre m post, v = pre ++ m ++ post -> ~ matches_year m.

Lemma year_at_iff (s m : pystr) :
  year_at tbl s = Some m <-> matches_year m /\ exists post, s = m ++ post.
Proof.
  unfold year_at, matches_year. split.
  - destruct s as [|a [|b [|c [|d post]]]]; try discriminate.
    destruct (_ && _ && _) eqn:E; [|discriminate].
    intros [= <-].
    apply andb_true_iff in E; destruct E as [E Hd].
    apply andb_true_iff in E; destruct E as [E Hc].
    split; [|exists post; reflexivity].
    exists c, d. split; [|auto].
    apply orb_true_iff in E. destruct E as [E|E];
      apply andb_true_iff in E; destruct E as [Ea Eb];
      apply N.eqb_eq in Ea, Eb; subst; auto.
  - intros [[c [d [Hm [Hc Hd]]]] [post ->]].
    destruct Hm as [-> | ->]; cbn; rewrite Hc, Hd; reflexivity.
Qed.

Lemma search_year_first (s m : pystr) :
  search_year tbl s = Some m -> first_year_match s m.
Proof.
  revert m; induction s as [|c s IH]; intros m; [discriminate|].
  cbn [search_year]. destruct (year_at tbl (c :: s)) as [m0|] eqn:E.
  - intros [= <-]. apply year_at_iff in E. destruct E as [Hm [post Hs]].
    exists [], post. repeat split; auto. intros; simpl; lia.
  - intros Hs. destruct (IH m Hs) as [pre [post [-> [Hm Hmin]]]].
    exists (c :: pre), post. repeat split; auto.
    intros [|c' pre'] m' post' Heq Hm'.
    + simpl in Heq.
      assert (year_at tbl (c :: pre ++ m ++ post) = Some m')
        by (apply year_at_iff; split; eauto).
      congruence.
    + injection Heq as -> Heq. simpl. apply le_n_S. eapply Hmin; eauto.
Qed.

Lemma search_year_none (s : pystr) :
  search_year tbl s = None -> no_year_match s.
Proof.
  induction s as [|c s IH]; intros Hs pre m post Heq Hm.
  - destruct Hm as [a [b [[-> | ->] _]]]; destruct pre; discriminate.
  - cbn [search_year] in Hs.
    destruct (year_at tbl (c :: s)) eqn:E; [discriminate|].
    destruct pre as [|c' pre].
    + simpl in Heq.
      assert (year_at tbl (c :: s) = Some m)
        by (apply year_at_iff; split; eauto).
      congruence.
    + injection Heq as -> Heq. exact (IH Hs pre m post Heq Hm).
Qed.

Lemma matches_year_length (m : pystr) : matches_year m -> length m = 4.
Proof. intros [c [d [[-> | ->] _]]]; reflexivity. Qed.

Lemma app_same_length {A} (l1 l2 r1 r2 : list A) :
  l1 ++ r1 = l2 ++ r2 -> length l1 = length l2 -> l1 = l2 /\ r1 = r2.
Proof.
  revert l2; induction l1 as [|x l1 IH]; intros [|y l2]; simpl;
    try discriminate; auto.
  intros [= -> Heq] [= Hlen]. destruct (IH l2 Heq Hlen); subst; auto.
Qed.

(** [re.search] finds the first match, and only fails when nothing
    matches. *)
Lemma search_year_spec (v : pystr) :
  match search_year tbl v with
  | Some m => first_year_match v m
  | None => no_year_match v
  end.
Proof.
  destruct (search_year tbl v) eqn:E;
    [apply search_year_first | apply search_year_none]; exact E.
Qed.

Lemma first_year_match_unique (v m1 m2 : pystr) :
  first_year_match v m1 -> first_year_match v m2 -> m1 = m2.
Proof.
  intros [pre1 [post1 [E1 [M1 Min1]]]] [pre2 [post2 [E2 [M2 Min2]]]].
  assert (length pre1 = length pre2).
  { apply Nat.le_antisymm; [eapply Min1 | eapply Min2]; eauto. }
  rewrite E1 in E2.
  destruct (app_same_length _ _ _ _ E2 H) as [_ Hrest].
  apply app_same_length in Hrest; [tauto|].
  now rewrite !matches_year_length.
Qed.

End YearFacts.

Lemma decode_year (tbl : digit_table) (record : pystr) :
  year (_parse_record tbl record)
  = last (picks (year_of tbl) (values_of (ch "D") (field_lines record))) 0%Z.
Proof.
  rewrite parse_record_decode. unfold decode_fields, last_of; cbn [year].
  now rewrite picks_on.
Qed.

Lemma ascii_digits_standard : standard_on_ascii ascii_digits.
Proof.
  intros c Hc; cbn. split; [|reflexivity].
  apply andb_true_iff; split; apply N.leb_le; lia.
Qed.

(** The claim C7 as it is written: each date line of the block decides
    the year of the record, 0 when it has no year in it. *)
Definition year_from_each_date_line (tbl : digit_table) (record : pystr) : Prop :=
  forall v, In v (values_of (ch "D") (field_lines record)) ->
    year (_parse_record tbl record)
    = match year_of tbl v with Some y => y | None => 0%Z end.

(** A block with the two date lines [%D 2024] and [%D n/a]. *)
Definition two_date_lines : pystr :=
  block_head ++ lit "%D 2024" ++ [10%N] ++ lit "%D n/a".

(** C7, counterexample.  In the block with the lines [%D 2024] and
    [%D n/a] the second date line has no year in it, and the decoded year is
    2024, not 0: a date line without a match leaves the year as it was. *)
Lemma year_from_each_date_line_fails :
  ~ year_from_each_date_line ascii_digits two_date_lines.
Proof.
  intros H. specialize (H (lit "n/a")).
  assert (Hin : In (lit "n/a") (values_of (ch "D") (field_lines two_date_lines)))
    by (vm_compute; auto).
  apply H in Hin. vm_compute in Hin. discriminate Hin.
Qed.

(** [parse] decodes that block: it is the one record returned. *)
Lemma two_date_lines_parsed :
  parse_content ascii_digits two_date_lines
  = [_parse_record ascii_digits two_date_lines]
  /\ year (_parse_record ascii_digits two_date_lines) = 2024%Z.
Proof. split; vm_compute; reflexivity. Qed.

(** The date value of the specification's example: 2024, the characters
    U+5E74 and U+7B2C, 5, and U+671F. *)
Definition issue_5_of_2024 : pystr :=
  lit "2024" ++ [0x5E74; 0x7B2C]%N ++ lit "5" ++ [0x671F]%N.

(** C7, as amended.  With a digit table that has the ASCII digits: the
    year of a decoded record is the integer value of the first substring
    matching the 4-digit pattern that begins with 19 or 20, taken from the
    last date line that has such a substring, and 0 when no date line has
    one; a date line without a match changes nothing.  So a block with a
    single date line gets the year of that line, or 0; and the value of
    the example gives 2024. *)
Theorem year_from_last_dated_line (tbl : digit_table) :
  standard_on_ascii tbl ->
  (forall record,
     year (_parse_record tbl record)
     = last (picks (year_of tbl) (values_of (ch "D") (field_lines record))) 0%Z)
  /\ (forall v,
        match search_year tbl v with
        | Some m => first_year_match tbl v m
                    /\ year_of tbl v = Some (int_of_digits tbl m)
        | None => no_year_match tbl v /\ year_of tbl v = None
        end)
  /\ (forall record v,
        values_of (ch "D") (field_lines record) = [v] ->
        year (_parse_record tbl record)
        = match year_of tbl v with Some y => y | None => 0%Z end)
  /\ year_of tbl issue_5_of_2024 = Some 2024%Z.
Proof.
  intros Hstd. split; [apply decode_year|]. split; [|split].
  - intros v. generalize (search_year_spec tbl v). unfold year_of.
    destruct (search_year tbl v); auto.
  - intros record v Hv. rewrite decode_year, Hv. cbn.
    destruct (year_of tbl v); reflexivity.
  - unfold year_of, issue_5_of_2024. cbn.
    destruct (Hstd 50%N ltac:(lia)) as [H2 V2].
    destruct (Hstd 52%N ltac:(lia)) as [H4 V4].
    destruct (Hstd 48%N ltac:(lia)) as [H0 V0].
    rewrite H2, H4. cbn. rewrite V2, V0, V4. reflexivity.
Qed.

Lemma year_from_last_dated_line_witness :
  standard_on_ascii ascii_digits
  /\ year (_parse_record ascii_digits two_date_lines) = 2024%Z
  /\ year_of ascii_digits issue_5_of_2024 = Some 2024%Z.
Proof.
  split; [exact ascii_digits_standard|].
  destruct (year_from_last_dated_line ascii_digits_standard) as [Hy [_ [_ Hex]]].
  split; [rewrite Hy; reflexivity | exact Hex].
Defined.

(* --------------------------------------------------------------------- *)
(** ** Failure and defaults *)











(* ===================================================================== *)
(** * Properties of the statistics *)
(* ===================================================================== *)

Lemma insert_sorted_In (x y : Z) (xs : list Z) :
  In y (insert_sorted x xs) <-> y = x \/ In y xs.
Proof.
  induction xs as [|z xs IH]; simpl.
  - intuition.
  - destruct (x <=? z)%Z; simpl; rewrite ?IH; intuition.
Qed.

Lemma sorted_In (y : Z) (xs : list Z) : In y (sorted xs) <-> In y xs.
Proof.
  induction xs as [|x xs IH]; simpl; [tauto|].
  rewrite insert_sorted_In, IH. intuition.
Qed.

Lemma insert_sorted_strict (x : Z) (xs : list Z) :
  StronglySorted Z.lt xs -> ~ In x xs -> StronglySorted Z.lt (insert_sorted x xs).
Proof.
  induction 1 as [|z xs Hs IH Hz]; intros Hx; simpl.
  - constructor; constructor.
  - rewrite Forall_forall in Hz.
    destruct (Z.leb_spec x z) as [Hle|Hgt].
    + assert (x < z)%Z by (simpl in Hx; lia).
      constructor; [constructor; auto; now apply Forall_forall|].
      constructor; [assumption|].
      apply Forall_forall; intros w Hw. specialize (Hz w Hw). lia.
    + constructor.
      * apply IH. simpl in Hx; tauto.
      * apply Forall_forall; intros w Hw.
        apply insert_sorted_In in Hw. destruct Hw as [->|Hw]; auto.
Qed.

Lemma sorted_strict (xs : list Z) :
  NoDup xs -> StronglySorted Z.lt (sorted xs).
Proof.
  induction 1 as [|x xs Hx Hnd IH]; simpl; [constructor|].
  apply insert_sorted_strict; auto. now rewrite sorted_In.
Qed.




(* ===================================================================== *)
(** * Facts about dictionaries and the pair loops *)
(* ===================================================================== *)

Section DictFacts.

Variables (K V : Type) (eqb : K -> K -> bool).
Hypothesis eqb_spec : forall x y, reflect (x = y) (eqb x y).
Variable dflt : V.

Definition keys (d : dict K V) : list K := map fst d.

Lemma dict_get_update (f : V -> V) (d : dict K V) (k k' : K) :
  dict_get eqb dflt (dict_update eqb dflt f d k) k'
  = if eqb k k' then f (dict_get eqb dflt d k') else dict_get eqb dflt d k'.
Proof.
  induction d as [|[k0 v0] d IH]; simpl.
  - destruct (eqb k k'); reflexivity.
  - destruct (eqb_spec k0 k) as [->|Hne]; simpl.
    + destruct (eqb k k'); reflexivity.
    + destruct (eqb_spec k0 k') as [->|Hne'].
      * destruct (eqb_spec k k'); [congruence|reflexivity].
      * apply IH.
Qed.

Lemma keys_update (f : V -> V) (d : dict K V) (k : K) :
  keys (dict_update eqb dflt f d k)
  = if dict_has eqb d k then keys d else keys d ++ [k].
Proof.
  unfold keys, dict_has. induction d as [|[k0 v0] d IH]; simpl; auto.
  destruct (eqb k0 k); simpl; auto.
  rewrite IH. destruct (existsb _ d); reflexivity.
Qed.

Lemma dict_has_In (d : dict K V) (k : K) :
  dict_has eqb d k = true <-> In k (keys d).
Proof.
  unfold dict_has, keys. rewrite existsb_exists, in_map_iff. split.
  - intros [kv [Hin Heq]]. exists kv. split; auto.
    now destruct (eqb_spec (fst kv) k).
  - intros [kv [Heq Hin]]. exists kv. split; auto.
    rewrite Heq. now destruct (eqb_spec k k).
Qed.

Lemma keys_update_NoDup (f : V -> V) (d : dict K V) (k : K) :
  NoDup (keys d) -> NoDup (keys (dict_update eqb dflt f d k)).
Proof.
  intros Hnd. rewrite keys_update.
  destruct (dict_has eqb d k) eqn:E; auto.
  apply NoDup_app; [assumption|constructor; [easy|constructor]|].
  intros x Hx [<-|[]]. apply dict_has_In in Hx. congruence.
Qed.

Lemma keys_update_Forall (P : K -> Prop) (f : V -> V) (d : dict K V) (k : K) :
  P k -> Forall P (keys d) -> Forall P (keys (dict_update eqb dflt f d k)).
Proof.
  intros Hk Hd. rewrite keys_update.
  destruct (dict_has eqb d k); auto.
  apply Forall_app; split; auto.
Qed.

(** A loop that updates one entry per item: what a given key ends with. *)
Lemma dict_get_fold {X} (upd : X -> V -> V) (key : X -> K) (g : X -> bool)
    (xs : list X) (d0 : dict K V) (k : K) :
  dict_get eqb dflt
    (fold_left (fun d x => if g x then dict_update eqb dflt (upd x) d (key x) else d)
       xs d0) k
  = fold_left (fun v x => if g x && eqb (key x) k then upd x v else v) xs
      (dict_get eqb dflt d0 k).
Proof.
  revert d0; induction xs as [|x xs IH]; intros d0; simpl; auto.
  rewrite IH. f_equal.
  destruct (g x); simpl; auto.
  apply dict_get_update.
Qed.

Lemma keys_fold_NoDup {X} (upd : X -> V -> V) (key : X -> K) (g : X -> bool)
    (xs : list X) (d0 : dict K V) :
  NoDup (keys d0) ->
  NoDup (keys (fold_left
                 (fun d x => if g x then dict_update eqb dflt (upd x) d (key x) else d)
                 xs d0)).
Proof.
  revert d0; induction xs as [|x xs IH]; intros d0 Hnd; simpl; auto.
  apply IH. destruct (g x); auto. now apply keys_update_NoDup.
Qed.

Lemma keys_fold_Forall {X} (P : K -> Prop) (upd : X -> V -> V) (key : X -> K)
    (g : X -> bool) (xs : list X) (d0 : dict K V) :
  (forall x, g x = true -> P (key x)) ->
  Forall P (keys d0) ->
  Forall P (keys (fold_left
                    (fun d x => if g x then dict_update eqb dflt (upd x) d (key x) else d)
                    xs d0)).
Proof.
  intros HP. revert d0; induction xs as [|x xs IH]; intros d0 Hd; simpl; auto.
  apply IH. destruct (g x) eqn:E; auto. apply keys_update_Forall; auto.
Qed.

(** With distinct keys, an entry of the dictionary is what [dict_get]
    returns. *)
Lemma dict_get_In (d : dict K V) (k : K) (v : V) :
  NoDup (keys d) -> In (k, v) d -> dict_get eqb dflt d k = v.
Proof.
  unfold keys. induction d as [|[k0 v0] d IH]; simpl; [tauto|].
  intros Hnd [Heq|Hin].
  - injection Heq as -> ->. now destruct (eqb_spec k k).
  - inversion Hnd as [|? ? Hk0 Hnd']; subst.
    destruct (eqb_spec k0 k) as [->|Hne]; auto.
    exfalso. apply Hk0. apply in_map_iff. now exists (k, v).
Qed.

Lemma keys_fold_In {X} (upd : X -> V -> V) (key : X -> K) (g : X -> bool)
    (xs : list X) (d0 : dict K V) (k : K) :
  In k (keys (fold_left
                (fun d x => if g x then dict_update eqb dflt (upd x) d (key x) else d)
                xs d0))
  <-> In k (keys d0) \/ exists x, In x xs /\ g x = true /\ key x = k.
Proof.
  revert d0; induction xs as [|x xs IH]; intros d0; simpl.
  - split; [auto|]. intros [H|[x [[] _]]]; auto.
  - rewrite IH. destruct (g x) eqn:E.
    + rewrite keys_update. destruct (dict_has eqb d0 (key x)) eqn:Eh.
      * apply dict_has_In in Eh. split.
        -- intros [H|[y [Hy Hg]]]; eauto.
        -- intros [H|[y [[<-|Hy] [Hg <-]]]]; eauto.
      * rewrite in_app_iff. simpl. split.
        -- intros [[H|[<-|[]]]|[y [Hy Hg]]]; eauto 6.
        -- intros [H|[y [[<-|Hy] [Hg <-]]]]; eauto 6.
    + split.
      * intros [H|[y [Hy Hg]]]; eauto.
      * intros [H|[y [[<-|Hy] [Hg Hk]]]]; eauto. congruence.
Qed.

Lemma dict_get_notin (d : dict K V) (k : K) :
  ~ In k (keys d) -> dict_get eqb dflt d k = dflt.
Proof.
  unfold keys. induction d as [|[k0 v0] d IH]; simpl; auto.
  intros Hn. destruct (eqb_spec k0 k) as [->|Hne]; [tauto|]. apply IH. tauto.
Qed.

Lemma In_keys_get (d : dict K V) (k : K) :
  In k (keys d) -> In (k, dict_get eqb dflt d k) d.
Proof.
  unfold keys. induction d as [|[k0 v0] d IH]; simpl; [tauto|].
  destruct (eqb_spec k0 k) as [->|Hne]; auto.
  intros [H|H]; [congruence|auto].
Qed.

End DictFacts.

(** The pairs the two nested loops visit, in order. *)
Fixpoint pairs {A} (xs : list A) : list (A * A) :=
  match xs with
  | [] => []
  | x :: rest => map (pair x) rest ++ pairs rest
  end.

Lemma for_each_pair_pairs {A S} (body : S -> A -> A -> S) (xs : list A) (s : S) :
  for_each_pair body xs s
  = fold_left (fun s xy => body s (fst xy) (snd xy)) (pairs xs) s.
Proof.
  revert s; induction xs as [|x rest IH]; intros s; simpl; auto.
  rewrite fold_left_app, IH. f_equal.
  clear. revert s. induction rest as [|y rest IH]; intros s; simpl; auto.
Qed.

Lemma fold_left_same {A S} (f g : S -> A -> S) (xs : list A) (s : S) :
  (forall s x, f s x = g s x) -> fold_left f xs s = fold_left g xs s.
Proof.
  intros H. revert s; induction xs as [|x xs IH]; intros s; simpl; auto.
  now rewrite H, IH.
Qed.

Lemma fold_left_flat_map {A B S} (step : S -> B -> S) (f : A -> list B)
    (xs : list A) (s : S) :
  fold_left (fun s x => fold_left step (f x) s) xs s
  = fold_left step (flat_map f xs) s.
Proof.
  revert s; induction xs as [|x xs IH]; intros s; simpl; auto.
  now rewrite fold_left_app, IH.
Qed.

Lemma pairs_filter {A} (f : A -> bool) (xs : list A) :
  pairs (filter f xs) = filter (fun xy => f (fst xy) && f (snd xy)) (pairs xs).
Proof.
  induction xs as [|x rest IH]; simpl; auto.
  rewrite filter_app, <- IH.
  destruct (f x) eqn:E; simpl.
  - f_equal. clear IH. induction rest as [|y rest IH]; simpl; auto.
    rewrite E. simpl. destruct (f y); simpl; now rewrite IH.
  - replace (filter _ (map (pair x) rest)) with (@nil (A * A)); auto.
    clear IH. induction rest as [|y rest IH]; simpl; auto.
    now rewrite E.
Qed.

(* ===================================================================== *)
(** * Graph facts *)
(* ===================================================================== *)

Module NXFacts.
Import NX.

Lemma node_names_update_attrs G n f :
  node_names (update_attrs G n f) = node_names G.
Proof.
  unfold node_names, update_attrs; cbn [nodes].
  rewrite map_map. apply map_ext. intros [m a]; cbn.
  destruct (str_eqb m n); reflexivity.
Qed.

Lemma edges_update_attrs G n f : edges (update_attrs G n f) = edges G.
Proof. reflexivity. Qed.

Lemma node_attrs_update_attrs G n f m :
  node_attrs (update_attrs G n f) m
  = if str_eqb m n then option_map f (node_attrs G m) else node_attrs G m.
Proof.
  unfold node_attrs, update_attrs; cbn [nodes].
  induction (nodes G) as [|[k a] ns IH]; cbn.
  - destruct (str_eqb m n); reflexivity.
  - destruct (str_eqb_spec k n) as [->|Hkn]; cbn.
    + destruct (str_eqb_spec n m) as [->|Hnm]; cbn.
      * now rewrite str_eqb_refl.
      * exact IH.
    + destruct (str_eqb_spec k m) as [->|Hkm]; cbn; [|exact IH].
      destruct (str_eqb_spec m n); [congruence|reflexivity].
Qed.

Lemma node_attrs_In G n :
  In n (node_names G) -> exists a, node_attrs G n = Some a.
Proof.
  unfold node_names, node_attrs.
  induction (nodes G) as [|[k a] ns IH]; cbn; [tauto|].
  intros [->|Hin].
  - rewrite str_eqb_refl. cbn. eauto.
  - destruct (str_eqb k n); cbn; eauto.
Qed.

(** A loop that sets attributes node by node: the names stay, and each
    node visited gets the attributes [f] gives it. *)
Lemma fold_update_attrs (f : pystr -> attrs -> attrs) (ns : list pystr) (G : graph) :
  (forall n a, f n (f n a) = f n a) ->
  let G' := fold_left (fun G n => update_attrs G n (f n)) ns G in
  node_names G' = node_names G
  /\ edges G' = edges G
  /\ forall m, node_attrs G' m
               = if existsb (str_eqb m) ns then option_map (f m) (node_attrs G m)
                 else node_attrs G m.
Proof.
  intros Hf. revert G; induction ns as [|n ns IH]; intros G; cbn.
  - auto.
  - destruct (IH (update_attrs G n (f n))) as [Hn [He Ha]].
    split; [now rewrite Hn, node_names_update_attrs|].
    split; [now rewrite He|].
    intros m. rewrite Ha, node_attrs_update_attrs.
    destruct (str_eqb_spec m n) as [->|Hmn]; cbn.
    + destruct (existsb (str_eqb n) ns), (node_attrs G n); cbn; auto.
      now rewrite Hf.
    + reflexivity.
Qed.

End NXFacts.

(* ===================================================================== *)
(** * Properties of the co-authorship graph *)
(* ===================================================================== *)

(** The per-author group of the first pass, as the specification has it:
    the records of author [a], one entry for each time a record names
    [a]. *)
Definition author_group (a : pystr) (papers : list CnkiPaper) : list CnkiPaper :=
  flat_map (fun p => flat_map
                       (fun x => if truthy x && str_eqb x a then [p] else [])
                       (authors p))
    papers.

Lemma fold_left_pair_map {A B S} (step : S -> A * B -> S) (a : A) (bs : list B) (s : S) :
  fold_left (fun s b => step s (a, b)) bs s = fold_left step (map (pair a) bs) s.
Proof. revert s; induction bs as [|b bs IH]; intros s; simpl; auto. Qed.

Lemma fold_left_collect {X B} (c : X -> bool) (h : X -> B) (xs : list X) (v0 : list B) :
  fold_left (fun v x => if c x then v ++ [h x] else v) xs v0
  = v0 ++ flat_map (fun x => if c x then [h x] else []) xs.
Proof.
  revert v0; induction xs as [|x xs IH]; intros v0; simpl.
  - now rewrite app_nil_r.
  - rewrite IH. destruct (c x); simpl; [rewrite <- app_assoc|]; reflexivity.
Qed.

(** The dictionary of the first pass holds, for each name, its group. *)
Lemma group_by_author_get (papers : list CnkiPaper) (a : pystr) :
  dict_get str_eqb [] (group_by_author papers) a = author_group a papers.
Proof.
  unfold group_by_author, author_group.
  set (step := fun (d : dict pystr (list CnkiPaper)) (x : CnkiPaper * pystr) =>
                 if truthy (snd x)
                 then dict_update str_eqb [] (fun ps => ps ++ [fst x]) d (snd x)
                 else d).
  rewrite (fold_left_same
             (fun d p => fold_left (fun d au => step d (p, au)) (authors p) d)
             (fun d p => fold_left step (map (pair p) (authors p)) d))
    by (intros; apply fold_left_pair_map).
  rewrite (fold_left_flat_map step (fun p => map (pair p) (authors p))).
  unfold step.
  rewrite (@dict_get_fold _ _ str_eqb str_eqb_spec [] _
             (fun x ps => ps ++ [fst x]) snd (fun x => truthy (snd x))).
  rewrite fold_left_collect. cbn [dict_get app].
  induction papers as [|p papers IH]; cbn [flat_map]; auto.
  rewrite flat_map_app, IH. f_equal.
  induction (authors p) as [|x xs IHx]; cbn; auto.
  rewrite IHx. reflexivity.
Qed.

Lemma name_in_In (names : list pystr) (a : pystr) :
  name_in names a = true <-> In a names.
Proof.
  unfold name_in. rewrite existsb_exists. split.
  - intros [x [Hin Heq]]. apply str_eqb_eq in Heq. now subst.
  - intros Hin. exists a. split; auto. apply str_eqb_refl.
Qed.

Lemma for_each_pair_inv {A S} (P : S -> Prop) (Q : A -> Prop)
    (body : S -> A -> A -> S) (xs : list A) (s : S) :
  (forall s x y, P s -> Q x -> Q y -> P (body s x y)) ->
  Forall Q xs -> P s -> P (for_each_pair body xs s).
Proof.
  intros Hbody. revert s; induction xs as [|x rest IH]; intros s HQ Hs; simpl; auto.
  inversion HQ as [|? ? Hx Hrest]; subst.
  apply IH; auto.
  clear IH HQ. revert s Hs. induction rest as [|y rest IH]; intros s Hs; simpl; auto.
  inversion Hrest; subst. apply IH; auto.
Qed.

Lemma fold_left_inv {A S} (P : S -> Prop) (step : S -> A -> S) (xs : list A) (s : S) :
  (forall s x, In x xs -> P s -> P (step s x)) -> P s -> P (fold_left step xs s).
Proof.
  revert s; induction xs as [|x xs IH]; intros s Hstep Hs; simpl; auto.
  apply IH; [intros; apply Hstep; simpl; auto|apply Hstep; simpl; auto].
Qed.

Module EdgeFacts.
Import NX.

(** [n] is an end of the edge [e]. *)
Definition endpoint (n : pystr) (e : pystr * pystr * Z) : Prop :=
  fst (fst e) = n \/ snd (fst e) = n.

(** Nodes exist only through edges: the nodes are the ends of the edges. *)
Definition nodes_are_endpoints (G : graph) : Prop :=
  forall n, In n (node_names G) <-> exists e, In e (edges G) /\ endpoint n e.

Lemma has_node_In G n : has_node G n = true <-> In n (node_names G).
Proof.
  unfold has_node, node_names. rewrite existsb_exists, in_map_iff. split.
  - intros [na [Hin Heq]]. apply str_eqb_eq in Heq. eauto.
  - intros [na [Heq Hin]]. exists na. split; auto. apply str_eqb_eq; auto.
Qed.

Lemma node_names_add_node G n m :
  In m (node_names (add_node G n)) <-> m = n \/ In m (node_names G).
Proof.
  unfold add_node. destruct (has_node G n) eqn:E.
  - apply has_node_In in E. split; [auto|]. intros [->|]; auto.
  - unfold node_names; cbn [nodes]. rewrite map_app, in_app_iff. cbn.
    intuition.
Qed.

Lemma edges_add_node G n : edges (add_node G n) = edges G.
Proof. unfold add_node. destruct (has_node G n); reflexivity. Qed.

Lemma has_edge_add_node G n u v : has_edge (add_node G n) u v = has_edge G u v.
Proof. unfold has_edge. now rewrite edges_add_node. Qed.

Lemma joins_iff u v e :
  joins u v e = true
  <-> (fst (fst e) = u /\ snd (fst e) = v) \/ (fst (fst e) = v /\ snd (fst e) = u).
Proof.
  destruct e as [[a b] w]; cbn.
  rewrite orb_true_iff, !andb_true_iff, !str_eqb_eq. reflexivity.
Qed.

Lemma has_edge_iff G u v :
  has_edge G u v = true <-> exists e, In e (edges G) /\ joins u v e = true.
Proof. unfold has_edge. apply existsb_exists. Qed.

Lemma set_weight_ends u v f es :
  map fst (set_weight u v f es) = map fst es.
Proof.
  unfold set_weight. rewrite map_map. apply map_ext.
  intros e. destruct (joins u v e); reflexivity.
Qed.

Lemma endpoint_via_ends n (es es' : list (pystr * pystr * Z)) :
  map fst es = map fst es' ->
  (exists e, In e es /\ endpoint n e) -> exists e, In e es' /\ endpoint n e.
Proof.
  intros Hmap [e [Hin Hend]].
  assert (Hf : In (fst e) (map fst es')) by (rewrite <- Hmap; now apply in_map).
  apply in_map_iff in Hf. destruct Hf as [e' [Heq Hin']].
  exists e'. split; auto. unfold endpoint in *. now rewrite Heq.
Qed.

Lemma bump_edge_endpoints G u v :
  nodes_are_endpoints G -> nodes_are_endpoints (bump_edge G u v).
Proof.
  intros HG n. unfold bump_edge.
  destruct (has_edge G u v) eqn:E.
  - unfold incr_weight, node_names; cbn [nodes edges].
    rewrite (HG n). split; apply endpoint_via_ends;
      now rewrite set_weight_ends.
  - unfold add_edge. rewrite !has_edge_add_node, E.
    unfold node_names; cbn [nodes edges]. fold (node_names (add_node (add_node G u) v)).
    rewrite !edges_add_node, !node_names_add_node, (HG n). split.
    + intros [->|[->|[e [Hin Hend]]]].
      * exists (u, v, 1%Z).
        split; [apply in_or_app; right; left; auto|right; reflexivity].
      * exists (u, v, 1%Z).
        split; [apply in_or_app; right; left; auto|left; reflexivity].
      * exists e. split; auto. apply in_or_app; auto.
    + intros [e [Hin Hend]]. apply in_app_or in Hin. destruct Hin as [Hin|[<-|[]]].
      * right; right; eauto.
      * destruct Hend as [<-|<-]; cbn; auto.
Qed.

Lemma bump_edge_names G u v n :
  In n (node_names (bump_edge G u v)) -> n = u \/ n = v \/ In n (node_names G).
Proof.
  unfold bump_edge. destruct (has_edge G u v) eqn:E.
  - unfold incr_weight, node_names; cbn [nodes]. auto.
  - unfold add_edge. rewrite !has_edge_add_node, E.
    unfold node_names; cbn [nodes]. fold (node_names (add_node (add_node G u) v)).
    fold (node_names G). rewrite !node_names_add_node. tauto.
Qed.

Lemma empty_endpoints : nodes_are_endpoints empty.
Proof. intros n; cbn. split; [tauto|]. intros [e [[] _]]. Qed.

End EdgeFacts.

Section CoauthorshipFacts.
Import NX EdgeFacts NXFacts.

Lemma coauthorship_edges_inv (names : list pystr) (papers : list CnkiPaper) :
  nodes_are_endpoints (coauthorship_edges names papers)
  /\ forall n, In n (node_names (coauthorship_edges names papers)) -> In n names.
Proof.
  unfold coauthorship_edges.
  apply (fold_left_inv
           (fun G => nodes_are_endpoints G
                     /\ forall n, In n (node_names G) -> In n names)).
  - intros G paper _ HG.
    apply (@for_each_pair_inv _ _
             (fun G => nodes_are_endpoints G
                       /\ forall n, In n (node_names G) -> In n names)
             (fun a => In a names)); auto.
    + intros G' x y [He Hn] Hx Hy. split.
      * now apply bump_edge_endpoints.
      * intros n Hin. apply bump_edge_names in Hin.
        destruct Hin as [->|[->|Hin]]; auto.
    + apply Forall_forall. intros a Ha. apply filter_In in Ha.
      now apply name_in_In.
  - split; [apply empty_endpoints|]. cbn. tauto.
Qed.

Lemma insert_desc_In {A} (key : A -> Z) (x y : A) (ys : list A) :
  In y (insert_desc key x ys) <-> y = x \/ In y ys.
Proof.
  induction ys as [|z ys IH]; simpl.
  - intuition.
  - destruct (key z <=? key x)%Z; simpl; rewrite ?IH; intuition.
Qed.

Lemma sorted_desc_In {A} (key : A -> Z) (y : A) (xs : list A) :
  In y (sorted_desc key xs) <-> In y xs.
Proof.
  induction xs as [|x xs IH]; simpl; [tauto|].
  rewrite insert_desc_In, IH. intuition.
Qed.

Lemma In_firstn {A} (n : nat) (x : A) (xs : list A) :
  In x (firstn n xs) -> In x xs.
Proof.
  revert xs; induction n as [|n IH]; intros [|y xs]; simpl; try tauto.
  intros [->|Hin]; auto.
Qed.


Definition group_step (d : dict pystr (list CnkiPaper)) (x : CnkiPaper * pystr) :=
  if truthy (snd x)
  then dict_update str_eqb [] (fun ps => ps ++ [fst x]) d (snd x)
  else d.

Lemma group_by_author_flat (papers : list CnkiPaper) :
  group_by_author papers
  = fold_left group_step (flat_map (fun p => map (pair p) (authors p)) papers) [].
Proof.
  unfold group_by_author.
  rewrite <- (fold_left_flat_map group_step (fun p => map (pair p) (authors p))).
  apply fold_left_same. intros d p.
  apply (fold_left_pair_map group_step).
Qed.



End CoauthorshipFacts.

(** The attributes the third loop of [build_coauthorship] gives a node. *)
Definition author_attrs (author_papers : dict pystr (list CnkiPaper))
    (node : pystr) (a : NX.attrs) : NX.attrs :=
  NX.mkAttrs (Some (py_len (dict_get str_eqb [] author_papers node)))
    (Some (sum_Z (map citations (dict_get str_eqb [] author_papers node))))
    (NX.freq a).

Lemma coauthorship_attrs_fold author_papers G :
  coauthorship_attrs author_papers G
  = fold_left (fun G n => NX.update_attrs G n (author_attrs author_papers n))
      (NX.node_names G) G.
Proof. reflexivity. Qed.


Definition paper_by (names : list pystr) (cites : Z) : CnkiPaper :=
  set_citations cites (set_authors names (set_title (lit "t") new_paper)).

(** Two papers by X and Y and one by X alone, with 3, 4 and 5 citations. *)
Definition three_papers : list CnkiPaper :=
  [paper_by [lit "X"; lit "Y"] 3; paper_by [lit "X"; lit "Y"] 4;
   paper_by [lit "X"] 5].


(* ===================================================================== *)
(** * Properties of the keyword graph *)
(* ===================================================================== *)

(** The pair of positions [(x, y)] holds the two distinct keywords [a] and
    [b], in either order. *)
Definition co_occur (a b : pystr) (xy : pystr * pystr) : bool :=
  negb (str_eqb (fst xy) (snd xy))
  && ((str_eqb (fst xy) a && str_eqb (snd xy) b)
      || (str_eqb (fst xy) b && str_eqb (snd xy) a)).

(** The accumulated co-occurrence count of [a] and [b] over the corpus:
    the pairs of positions of a record's keyword list that hold them. *)
Definition cooc_count (a b : pystr) (papers : list CnkiPaper) : Z :=
  py_len (flat_map (fun p => filter (co_occur a b) (pairs (keywords p))) papers).

(** The global frequency of a keyword: its occurrences over the corpus. *)
Definition keyword_count (a : pystr) (papers : list CnkiPaper) : Z :=
  py_len (flat_map (fun p => filter (str_eqb a) (keywords p)) papers).

Section KeywordFacts.
Import NX EdgeFacts NXFacts.

Lemma pair_eqb_spec (p q : pystr * pystr) : reflect (p = q) (pair_eqb p q).
Proof.
  destruct p as [p1 p2], q as [q1 q2]; unfold pair_eqb; cbn.
  destruct (str_eqb_spec p1 q1), (str_eqb_spec p2 q2); constructor; congruence.
Qed.

Definition normalized (k : pystr * pystr) : Prop := str_ltb (fst k) (snd k) = true.

Lemma sorted_pair_normalized (x y : pystr) : x <> y -> normalized (sorted_pair x y).
Proof.
  intros Hne. unfold sorted_pair, normalized.
  destruct (str_ltb y x) eqn:E; cbn; auto.
  destruct (str_ltb_total Hne); congruence.
Qed.

Lemma sorted_pair_sym (a b : pystr) : a <> b -> sorted_pair a b = sorted_pair b a.
Proof.
  intros Hne. unfold sorted_pair.
  destruct (str_ltb b a) eqn:E1, (str_ltb a b) eqn:E2; auto.
  - apply str_ltb_asym in E1. congruence.
  - destruct (str_ltb_total Hne); congruence.
Qed.

Lemma sorted_pair_eq (x y a b : pystr) :
  x <> y ->
  (sorted_pair x y = sorted_pair a b <-> (x = a /\ y = b) \/ (x = b /\ y = a)).
Proof.
  intros Hxy. split.
  - unfold sorted_pair.
    destruct (str_ltb y x), (str_ltb b a); intros [= -> ->]; auto.
  - intros [[-> ->]|[-> ->]]; auto. apply sorted_pair_sym. congruence.
Qed.

Lemma co_occur_key (a b : pystr) (xy : pystr * pystr) :
  a <> b ->
  negb (str_eqb (fst xy) (snd xy))
  && pair_eqb (sorted_pair (fst xy) (snd xy)) (sorted_pair a b)
  = co_occur a b xy.
Proof.
  intros Hab. destruct xy as [x y]; unfold co_occur; cbn [fst snd].
  destruct (str_eqb_spec x y) as [->|Hxy]; cbn [negb andb]; auto.
  destruct (pair_eqb_spec (sorted_pair x y) (sorted_pair a b)) as [E|E];
    rewrite (sorted_pair_eq a b Hxy) in E.
  - symmetry. destruct E as [[-> ->]|[-> ->]]; rewrite !str_eqb_refl; cbn;
      auto using orb_true_r.
  - symmetry. apply orb_false_iff; split; apply andb_false_iff;
      destruct (str_eqb_spec x a), (str_eqb_spec y b),
               (str_eqb_spec x b), (str_eqb_spec y a); auto; tauto.
Qed.

Lemma fold_left_count {X} (c : X -> bool) (xs : list X) (v0 : Z) :
  fold_left (fun v x => if c x then (1 + v)%Z else v) xs v0
  = (v0 + py_len (filter c xs))%Z.
Proof.
  unfold py_len. revert v0; induction xs as [|x xs IH]; intros v0;
    cbn [fold_left filter].
  - cbn [length]. lia.
  - rewrite IH. destruct (c x); cbn [length]; lia.
Qed.

Definition cooc_step (cooc : dict (pystr * pystr) Z) (xy : pystr * pystr) :=
  if negb (str_eqb (fst xy) (snd xy))
  then dict_update pair_eqb 0%Z (Z.add 1) cooc (sorted_pair (fst xy) (snd xy))
  else cooc.

Lemma cooccurrence_flat (valid : list pystr) (papers : list CnkiPaper) :
  cooccurrence valid papers
  = fold_left cooc_step
      (flat_map (fun p => pairs (filter (name_in valid) (keywords p))) papers) [].
Proof.
  unfold cooccurrence.
  rewrite <- (fold_left_flat_map cooc_step
                (fun p => pairs (filter (name_in valid) (keywords p)))).
  apply fold_left_same. intros d p. now rewrite for_each_pair_pairs.
Qed.

Lemma filter_length_flat_map {A B} (f : A -> list B) (c : B -> bool) (xs : list A) :
  filter c (flat_map f xs) = flat_map (fun x => filter c (f x)) xs.
Proof.
  induction xs as [|x xs IH]; simpl; auto. now rewrite filter_app, IH.
Qed.

Lemma filter_filter_and {A} (f g : A -> bool) (l : list A) :
  filter f (filter g l) = filter (fun x => g x && f x) l.
Proof.
  induction l as [|x l IH]; simpl; auto.
  destruct (g x); simpl; [destruct (f x)|]; now rewrite IH.
Qed.

Lemma filter_guard {A} (c : bool) (f : A -> bool) (l : list A) :
  filter (fun x => c && f x) l = if c then filter f l else [].
Proof.
  destruct c; simpl; auto. induction l; simpl; auto.
Qed.

Lemma co_occur_both (valid : list pystr) (a b : pystr) (xy : pystr * pystr) :
  name_in valid (fst xy) && name_in valid (snd xy) && co_occur a b xy
  = name_in valid a && name_in valid b && co_occur a b xy.
Proof.
  destruct (co_occur a b xy) eqn:E; [|now rewrite !andb_false_r].
  rewrite !andb_true_r.
  unfold co_occur in E. apply andb_true_iff in E; destruct E as [_ E].
  apply orb_true_iff in E.
  destruct E as [E|E]; apply andb_true_iff in E; destruct E as [E1 E2];
    apply str_eqb_eq in E1, E2; rewrite E1, E2; auto using andb_comm.
Qed.

Lemma co_occur_valid (valid : list pystr) (a b : pystr) (l : list pystr) :
  filter (co_occur a b) (pairs (filter (name_in valid) l))
  = if name_in valid a && name_in valid b
    then filter (co_occur a b) (pairs l) else [].
Proof.
  rewrite pairs_filter, filter_filter_and, <- filter_guard.
  apply filter_ext. intros xy. apply co_occur_both.
Qed.

End KeywordFacts.

Section KeywordCounts.

Lemma cooccurrence_get (valid : list pystr) (papers : list CnkiPaper) (a b : pystr) :
  a <> b ->
  dict_get pair_eqb 0%Z (cooccurrence valid papers) (sorted_pair a b)
  = if name_in valid a && name_in valid b then cooc_count a b papers else 0%Z.
Proof.
  intros Hab. rewrite cooccurrence_flat. unfold cooc_step.
  rewrite (@dict_get_fold _ _ pair_eqb pair_eqb_spec 0%Z _
             (fun _ => Z.add 1)
             (fun xy => sorted_pair (fst xy) (snd xy))
             (fun xy => negb (str_eqb (fst xy) (snd xy)))).
  rewrite fold_left_count. cbn [dict_get].
  rewrite (filter_ext _ (co_occur a b)) by (intros xy; now apply co_occur_key).
  rewrite filter_length_flat_map. unfold cooc_count.
  rewrite (flat_map_ext _
             (fun p => if name_in valid a && name_in valid b
                       then filter (co_occur a b) (pairs (keywords p)) else []))
    by (intros p; apply co_occur_valid).
  destruct (name_in valid a && name_in valid b); [reflexivity|].
  induction papers; cbn; auto.
Qed.

Lemma cooccurrence_keys (valid : list pystr) (papers : list CnkiPaper) :
  NoDup (keys (cooccurrence valid papers))
  /\ Forall normalized (keys (cooccurrence valid papers)).
Proof.
  rewrite cooccurrence_flat. unfold cooc_step. split.
  - apply (@keys_fold_NoDup _ _ pair_eqb pair_eqb_spec 0%Z). constructor.
  - apply (@keys_fold_Forall _ _ pair_eqb 0%Z _ normalized); [|constructor].
    intros [x y] Hxy; cbn [fst snd] in *.
    apply sorted_pair_normalized. apply negb_true_iff in Hxy.
    now apply str_eqb_neq.
Qed.

Definition freq_step (freq : dict pystr Z) (kw : pystr) :=
  if truthy kw then dict_update str_eqb 0%Z (Z.add 1) freq kw else freq.

Lemma keyword_freq_flat (papers : list CnkiPaper) :
  keyword_freq papers = fold_left freq_step (flat_map keywords papers) [].
Proof. unfold keyword_freq. apply (fold_left_flat_map freq_step keywords). Qed.

(** The counter of the first pass holds the global frequency of every
    non-empty keyword. *)
Lemma keyword_freq_get (papers : list CnkiPaper) (a : pystr) :
  truthy a = true ->
  dict_get str_eqb 0%Z (keyword_freq papers) a = keyword_count a papers.
Proof.
  intros Ha. rewrite keyword_freq_flat. unfold freq_step.
  rewrite (@dict_get_fold _ _ str_eqb str_eqb_spec 0%Z _
             (fun _ => Z.add 1) (fun kw => kw) truthy).
  rewrite fold_left_count. cbn [dict_get].
  rewrite (filter_ext _ (str_eqb a)).
  - now rewrite filter_length_flat_map.
  - intros kw. rewrite (str_eqb_sym a kw).
    destruct (str_eqb_spec kw a) as [->|]; [now rewrite Ha|apply andb_false_r].
Qed.

Lemma keyword_freq_keys (papers : list CnkiPaper) (a : pystr) :
  In a (keys (keyword_freq papers))
  <-> truthy a = true /\ exists p, In p papers /\ In a (keywords p).
Proof.
  rewrite keyword_freq_flat. unfold freq_step.
  rewrite (@keys_fold_In _ _ str_eqb str_eqb_spec 0%Z _
             (fun _ => Z.add 1) (fun kw => kw) truthy).
  cbn [keys map]. split.
  - intros [[]|[x [Hx [Ht ->]]]]. split; auto.
    apply in_flat_map in Hx. exact Hx.
  - intros [Ht [p [Hp Hin]]]. right. exists a. repeat split; auto.
    apply in_flat_map. eauto.
Qed.

Lemma keyword_freq_NoDup (papers : list CnkiPaper) :
  NoDup (keys (keyword_freq papers)).
Proof.
  rewrite keyword_freq_flat. unfold freq_step.
  apply (@keys_fold_NoDup _ _ str_eqb str_eqb_spec 0%Z). constructor.
Qed.

(** The valid vocabulary: the keywords of the counter whose frequency
    reaches [min_freq]. *)
Lemma valid_keywords_iff (min_freq : Z) (freq : dict pystr Z) (a : pystr) :
  NoDup (keys freq) ->
  (name_in (valid_keywords min_freq freq) a = true
   <-> In a (keys freq) /\ (min_freq <= dict_get str_eqb 0%Z freq a)%Z).
Proof.
  intros Hnd. rewrite name_in_In. unfold valid_keywords.
  rewrite in_map_iff. split.
  - intros [[k f] [<- Hin]]. apply filter_In in Hin. destruct Hin as [Hin Hf].
    cbn [fst snd] in *. apply Z.leb_le in Hf.
    rewrite (@dict_get_In _ _ str_eqb str_eqb_spec 0%Z _ _ _ Hnd Hin).
    split; auto. unfold keys. apply in_map_iff. now exists (k, f).
  - intros [Hin Hf]. exists (a, dict_get str_eqb 0%Z freq a). split; auto.
    apply filter_In. split; [now apply (@In_keys_get _ _ str_eqb str_eqb_spec)|].
    now apply Z.leb_le.
Qed.

End KeywordCounts.

Section KeywordGraphFacts.
Import NX EdgeFacts NXFacts.

(** The body of the third loop of [build_keywords]. *)
Definition keyword_step (freq : dict pystr Z) (G : graph)
    (item : pystr * pystr * Z) : graph :=
  let '((kw1, kw2), w) := item in
  if (2 <=? w)%Z then
    let G1 := add_edge G kw1 kw2 w in
    let G2 := update_attrs G1 kw1
                (fun a => mkAttrs (paper_count a) (NX.citations a)
                            (Some (dict_get str_eqb 0%Z freq kw1))) in
    update_attrs G2 kw2
      (fun a => mkAttrs (paper_count a) (NX.citations a)
                  (Some (dict_get str_eqb 0%Z freq kw2)))
  else G.

Lemma keyword_graph_fold freq cooc :
  keyword_graph freq cooc = fold_left (keyword_step freq) cooc empty.
Proof. reflexivity. Qed.

Lemma joins_normalized (u v k1 k2 : pystr) (w : Z) :
  normalized (k1, k2) -> normalized (u, v) ->
  joins u v (k1, k2, w) = true -> (k1, k2) = (u, v).
Proof.
  unfold normalized; cbn [fst snd]. intros Hk Hu Hj.
  apply joins_iff in Hj; cbn [fst snd] in Hj.
  destruct Hj as [[-> ->]|[-> ->]]; auto.
  apply str_ltb_asym in Hk. congruence.
Qed.

Lemma joins_sorted (a b : pystr) (k : pystr * pystr) (w : Z) :
  normalized k -> a <> b ->
  joins a b (k, w) = pair_eqb k (sorted_pair a b).
Proof.
  intros Hk Hab. destruct k as [k1 k2]. unfold normalized in Hk; cbn [fst snd] in Hk.
  destruct (pair_eqb_spec (k1, k2) (sorted_pair a b)) as [E|E].
  - apply joins_iff; cbn [fst snd]. unfold sorted_pair in E.
    destruct (str_ltb b a); injection E as -> ->; auto.
  - destruct (joins a b (k1, k2, w)) eqn:J; auto. exfalso. apply E.
    apply joins_iff in J; cbn [fst snd] in J. unfold sorted_pair.
    destruct J as [[-> ->]|[-> ->]].
    + apply str_ltb_asym in Hk. now rewrite Hk.
    + now rewrite Hk.
Qed.

Lemma has_edge_weight (G : graph) (u v : pystr) :
  has_edge G u v = match weight G u v with Some _ => true | None => false end.
Proof.
  unfold has_edge, weight. induction (edges G) as [|e es IH]; cbn; auto.
  destruct (joins u v e); cbn; auto.
Qed.

Lemma keyword_step_edges freq G k1 k2 w :
  has_edge G k1 k2 = false ->
  edges (keyword_step freq G (k1, k2, w))
  = if (2 <=? w)%Z then edges G ++ [(k1, k2, w)] else edges G.
Proof.
  intros H. unfold keyword_step. destruct (2 <=? w)%Z; auto.
  rewrite !edges_update_attrs. unfold add_edge.
  rewrite !has_edge_add_node, H. cbn [edges]. now rewrite !edges_add_node.
Qed.

Lemma keyword_graph_edges_from freq (items : dict (pystr * pystr) Z) (G : graph) :
  NoDup (keys items) -> Forall normalized (keys items) ->
  (forall kv, In kv items -> has_edge G (fst (fst kv)) (snd (fst kv)) = false) ->
  edges (fold_left (keyword_step freq) items G)
  = edges G ++ filter (fun kv => (2 <=? snd kv)%Z) items.
Proof.
  revert G; induction items as [|[[k1 k2] w] items IH]; intros G Hnd Hnorm Hfresh;
    cbn [fold_left filter snd].
  - now rewrite app_nil_r.
  - unfold keys in *; cbn [map fst] in *.
    inversion Hnd as [|? ? Hk Hnd']; subst.
    inversion Hnorm as [|? ? Hn Hnorm']; subst.
    assert (H0 : has_edge G k1 k2 = false) by (apply (Hfresh (k1, k2, w)); cbn; auto).
    rewrite IH; auto.
    + rewrite (@keyword_step_edges freq G k1 k2 w H0).
      destruct (2 <=? w)%Z; [rewrite <- app_assoc|]; reflexivity.
    + intros [[u v] w'] Hin; cbn [fst snd].
      unfold has_edge. rewrite (@keyword_step_edges freq G k1 k2 w H0).
      assert (Hu : has_edge G u v = false) by (apply (Hfresh (u, v, w')); cbn; auto).
      destruct (2 <=? w)%Z; [|exact Hu].
      rewrite existsb_app. fold (has_edge G u v). rewrite Hu. cbn [existsb orb].
      rewrite orb_false_r. destruct (joins u v (k1, k2, w)) eqn:J; auto.
      exfalso. apply Hk.
      assert (Hnuv : normalized (u, v)).
      { rewrite Forall_forall in Hnorm'. apply Hnorm'.
        apply in_map_iff. now exists (u, v, w'). }
      rewrite (@joins_normalized u v k1 k2 w Hn Hnuv J).
      apply in_map_iff. now exists (u, v, w').
Qed.

(** The edges of the keyword graph are the entries of the co-occurrence
    counter that reach 2. *)
Lemma keyword_graph_edges freq (cooc : dict (pystr * pystr) Z) :
  NoDup (keys cooc) -> Forall normalized (keys cooc) ->
  edges (keyword_graph freq cooc) = filter (fun kv => (2 <=? snd kv)%Z) cooc.
Proof.
  intros Hnd Hnorm. rewrite keyword_graph_fold.
  now rewrite keyword_graph_edges_from.
Qed.

Lemma find_joins_dict (d : dict (pystr * pystr) Z) (a b : pystr) :
  NoDup (keys d) -> Forall normalized (keys d) -> a <> b ->
  find (joins a b) (filter (fun kv => (2 <=? snd kv)%Z) d)
  = let w := dict_get pair_eqb 0%Z d (sorted_pair a b) in
    if (2 <=? w)%Z then Some (sorted_pair a b, w) else None.
Proof.
  intros Hnd Hnorm Hab. cbn zeta.
  induction d as [|[k w0] d IH]; [reflexivity|].
  unfold keys in *; cbn [map fst] in *.
  inversion Hnd as [|? ? Hk Hnd']; subst.
  inversion Hnorm as [|? ? Hn Hnorm']; subst.
  specialize (IH Hnd' Hnorm').
  cbn [filter snd dict_get].
  destruct (pair_eqb_spec k (sorted_pair a b)) as [->|Hne].
  - assert (Hd : dict_get pair_eqb 0%Z d (sorted_pair a b) = 0%Z)
      by (apply (@dict_get_notin _ _ pair_eqb pair_eqb_spec); exact Hk).
    rewrite Hd in IH. cbn in IH.
    destruct (2 <=? w0)%Z; [|exact IH].
    cbn [find]. rewrite (@joins_sorted a b (sorted_pair a b) w0 Hn Hab).
    destruct (pair_eqb_spec (sorted_pair a b) (sorted_pair a b)); congruence.
  - destruct (2 <=? w0)%Z; [|exact IH].
    cbn [find]. rewrite (@joins_sorted a b k w0 Hn Hab).
    destruct (pair_eqb_spec k (sorted_pair a b)); [congruence|exact IH].
Qed.

Lemma find_joins_self (d : dict (pystr * pystr) Z) (a : pystr) :
  Forall normalized (keys d) -> find (joins a a) d = None.
Proof.
  unfold keys. induction d as [|[[k1 k2] w] d IH]; intros Hn; cbn [find]; auto.
  cbn [map fst] in Hn. inversion Hn as [|? ? Hk Hn']; subst.
  destruct (joins a a (k1, k2, w)) eqn:J; auto.
  apply joins_iff in J; cbn [fst snd] in J.
  unfold normalized in Hk; cbn [fst snd] in Hk.
  assert (k1 = k2) by (destruct J as [[-> ->]|[-> ->]]; reflexivity).
  subst. rewrite str_ltb_irrefl in Hk. discriminate.
Qed.

End KeywordGraphFacts.

Section KeywordThreshold.
Import NX.

Lemma pairs_In {A} (x y : A) (l : list A) :
  In (x, y) (pairs l) -> In x l /\ In y l.
Proof.
  induction l as [|z l IH]; cbn; [tauto|].
  rewrite in_app_iff, in_map_iff.
  intros [[y' [[= <- <-] Hy]]|H]; [auto|]. destruct (IH H); auto.
Qed.

Lemma cooc_count_self (a : pystr) (papers : list CnkiPaper) :
  cooc_count a a papers = 0%Z.
Proof.
  unfold cooc_count, py_len.
  replace (flat_map _ papers) with (@nil (pystr * pystr)); [reflexivity|].
  induction papers as [|p papers IH]; cbn [flat_map]; auto.
  rewrite <- IH, app_nil_r.
  induction (pairs (keywords p)) as [|[x y] ps IHp]; cbn [filter]; auto.
  unfold co_occur; cbn [fst snd].
  destruct (str_eqb_spec x y) as [->|Hne]; cbn; auto.
  destruct (str_eqb_spec x a), (str_eqb_spec y a); cbn; auto. congruence.
Qed.

Lemma cooc_count_occurs (a b : pystr) (papers : list CnkiPaper) :
  (0 < cooc_count a b papers)%Z ->
  (exists p, In p papers /\ In a (keywords p))
  /\ (exists p, In p papers /\ In b (keywords p)).
Proof.
  unfold cooc_count, py_len. intros Hpos.
  destruct (flat_map _ papers) as [|[x y] rest] eqn:E; [cbn in Hpos; lia|].
  assert (Hin : In (x, y) (flat_map (fun p => filter (co_occur a b) (pairs (keywords p)))
                             papers)) by (rewrite E; cbn; auto).
  apply in_flat_map in Hin. destruct Hin as [p [Hp Hxy]].
  apply filter_In in Hxy. destruct Hxy as [Hxy Hco].
  apply pairs_In in Hxy. destruct Hxy as [Hx Hy].
  unfold co_occur in Hco; cbn [fst snd] in Hco.
  apply andb_true_iff in Hco; destruct Hco as [_ Hco].
  apply orb_true_iff in Hco.
  destruct Hco as [H|H]; apply andb_true_iff in H; destruct H as [H1 H2];
    apply str_eqb_eq in H1, H2; subst; split; eauto.
Qed.

(** A keyword that occurs is in the valid vocabulary exactly when its
    global frequency reaches [min_freq]. *)
Lemma valid_of_occurring (min_freq : Z) (papers : list CnkiPaper) (a : pystr) :
  truthy a = true -> (exists p, In p papers /\ In a (keywords p)) ->
  name_in (valid_keywords min_freq (keyword_freq papers)) a
  = (min_freq <=? keyword_count a papers)%Z.
Proof.
  intros Ha Hocc.
  assert (Hk : In a (keys (keyword_freq papers)))
    by (apply keyword_freq_keys; auto).
  pose proof (@valid_keywords_iff min_freq (keyword_freq papers) a
                (keyword_freq_NoDup papers)) as Hv.
  rewrite (@keyword_freq_get papers a Ha) in Hv.
  destruct (Z.leb_spec min_freq (keyword_count a papers)) as [Hle|Hgt].
  - apply Hv; auto.
  - apply not_true_is_false. intros E. apply Hv in E. lia.
Qed.

(** The weight of a keyword pair: the co-occurrence count, when both
    keywords are in the valid vocabulary and the count reaches 2. *)
Lemma keyword_weight (min_freq : Z) (papers : list CnkiPaper) (a b : pystr) :
  weight (build_keywords min_freq papers) a b
  = let valid := valid_keywords min_freq (keyword_freq papers) in
    if name_in valid a && name_in valid b && (2 <=? cooc_count a b papers)%Z
    then Some (cooc_count a b papers) else None.
Proof.
  cbn zeta. unfold build_keywords, weight.
  set (valid := valid_keywords min_freq (keyword_freq papers)).
  destruct (cooccurrence_keys valid papers) as [Hnd Hnorm].
  rewrite (@keyword_graph_edges (keyword_freq papers) _ Hnd Hnorm).
  destruct (str_eqb_spec a b) as [->|Hab].
  - rewrite cooc_count_self, andb_false_r.
    assert (Hsub : Forall normalized
                     (keys (filter (fun kv => (2 <=? snd kv)%Z)
                              (cooccurrence valid papers)))).
    { rewrite Forall_forall in *. intros k Hk. apply Hnorm.
      unfold keys in *. apply in_map_iff in Hk. destruct Hk as [kv [<- Hkv]].
      apply filter_In in Hkv. apply in_map. tauto. }
    now rewrite (@find_joins_self _ b Hsub).
  - rewrite (@find_joins_dict _ a b Hnd Hnorm Hab). cbn zeta.
    rewrite (@cooccurrence_get valid papers a b Hab).
    destruct (name_in valid a && name_in valid b); cbn [andb].
    + destruct (2 <=? cooc_count a b papers)%Z; reflexivity.
    + reflexivity.
Qed.

End KeywordThreshold.

(** C3. For every corpus and every [min_freq], in the graph of
    [build_keywords]: two keywords whose accumulated co-occurrence count
    over the corpus is exactly 1 are not joined by an edge; two keywords
    (non-empty strings, as the parser produces them) each of global
    frequency at least [min_freq] whose count is exactly 2 are joined by an
    edge of weight 2; and in general the edge exists exactly when both
    frequencies reach [min_freq] and the count reaches 2, its weight being
    the count, so that the two thresholds are separate tests. *)
Theorem keyword_edge_thresholds (min_freq : Z) (papers : list CnkiPaper)
    (a b : pystr) :
  let G := build_keywords min_freq papers in
  (cooc_count a b papers = 1%Z -> NX.has_edge G a b = false)
  /\ (truthy a = true -> truthy b = true ->
      (min_freq <= keyword_count a papers)%Z ->
      (min_freq <= keyword_count b papers)%Z ->
      cooc_count a b papers = 2%Z ->
      NX.weight G a b = Some 2%Z)
  /\ (truthy a = true -> truthy b = true ->
      NX.weight G a b
      = if (min_freq <=? keyword_count a papers)%Z
           && (min_freq <=? keyword_count b papers)%Z
           && (2 <=? cooc_count a b papers)%Z
        then Some (cooc_count a b papers) else None).
Proof.
  cbn zeta.
  assert (Hgen : truthy a = true -> truthy b = true ->
      NX.weight (build_keywords min_freq papers) a b
      = if (min_freq <=? keyword_count a papers)%Z
           && (min_freq <=? keyword_count b papers)%Z
           && (2 <=? cooc_count a b papers)%Z
        then Some (cooc_count a b papers) else None).
  { intros Ha Hb. rewrite keyword_weight. cbn zeta.
    destruct (Z.leb_spec 2 (cooc_count a b papers)) as [H2|H2];
      [|now rewrite !andb_false_r].
    destruct (@cooc_count_occurs a b papers ltac:(lia)) as [Hoa Hob].
    now rewrite (@valid_of_occurring min_freq papers a Ha Hoa),
                (@valid_of_occurring min_freq papers b Hb Hob). }
  split; [|split]; auto.
  - intros H1. rewrite has_edge_weight, keyword_weight. cbn zeta.
    rewrite H1. cbn. now rewrite andb_false_r.
  - intros Ha Hb Hfa Hfb H2. rewrite (Hgen Ha Hb), H2.
    apply Z.leb_le in Hfa, Hfb. now rewrite Hfa, Hfb.
Qed.

Definition paper_about (kws : list pystr) : CnkiPaper :=
  set_keywords kws (set_title (lit "t") new_paper).

(** Three papers: a, b and c each occur twice or more; a and b co-occur
    twice, a and c once. *)
Definition three_keyword_papers : list CnkiPaper :=
  [paper_about [lit "a"; lit "b"; lit "c"]; paper_about [lit "b"; lit "a"];
   paper_about [lit "c"]].

(** With [min_freq = 2]: the edge a-b has weight 2, and a-c has no edge
    although both keywords are frequent enough. *)
Lemma keyword_edge_thresholds_example :
  NX.weight (build_keywords 2 three_keyword_papers) (lit "a") (lit "b") = Some 2%Z
  /\ NX.has_edge (build_keywords 2 three_keyword_papers) (lit "a") (lit "c") = false
  /\ (2 <= keyword_count (lit "c") three_keyword_papers)%Z.
Proof.
  destruct (keyword_edge_thresholds 2 three_keyword_papers (lit "a") (lit "b"))
    as [_ [Hab _]].
  destruct (keyword_edge_thresholds 2 three_keyword_papers (lit "a") (lit "c"))
    as [Hac _].
  split; [apply Hab; try reflexivity; vm_compute; discriminate|].
  split; [apply Hac; reflexivity|vm_compute; discriminate].
Defined.

(* ===================================================================== *)
(** * Repeated names: self-loops *)
(* ===================================================================== *)

Section GraphShape.
Import NX EdgeFacts NXFacts.

Lemma add_edge_endpoints G u v w :
  nodes_are_endpoints G -> nodes_are_endpoints (add_edge G u v w).
Proof.
  intros HG n. unfold add_edge. rewrite !has_edge_add_node.
  assert (Hnames : In n (node_names (add_node (add_node G u) v))
                   <-> n = v \/ n = u \/ In n (node_names G))
    by (now rewrite !node_names_add_node).
  destruct (has_edge G u v) eqn:E;
    unfold node_names in *; cbn [nodes edges]; rewrite Hnames;
    fold (node_names G); rewrite (HG n), !edges_add_node.
  - apply has_edge_iff in E. destruct E as [e [He Hj]].
    apply joins_iff in Hj. split.
    + intros [->|[->|H]].
      * apply (@endpoint_via_ends v (edges G)); [now rewrite set_weight_ends|].
        exists e. split; auto. unfold endpoint. tauto.
      * apply (@endpoint_via_ends u (edges G)); [now rewrite set_weight_ends|].
        exists e. split; auto. unfold endpoint. tauto.
      * apply (@endpoint_via_ends n (edges G)); [now rewrite set_weight_ends|auto].
    + intros H. right; right.
      apply (@endpoint_via_ends n _ (edges G)) in H; [auto|apply set_weight_ends].
  - split.
    + intros [->|[->|[e [Hin Hend]]]].
      * exists (u, v, w). split; [apply in_or_app; right; left; auto|right; reflexivity].
      * exists (u, v, w). split; [apply in_or_app; right; left; auto|left; reflexivity].
      * exists e. split; auto. apply in_or_app; auto.
    + intros [e [Hin Hend]]. apply in_app_or in Hin. destruct Hin as [Hin|[<-|[]]].
      * right; right; eauto.
      * destruct Hend as [<-|<-]; cbn; auto.
Qed.

Lemma update_attrs_endpoints G n f :
  nodes_are_endpoints G -> nodes_are_endpoints (update_attrs G n f).
Proof.
  intros HG m. rewrite node_names_update_attrs, edges_update_attrs. apply HG.
Qed.

(** In the graphs of [build_coauthorship] and [build_keywords] the nodes
    are exactly the ends of the edges: a node exists only through an
    edge. *)
Lemma nodes_only_through_edges (top_n min_freq : Z) (papers : list CnkiPaper) :
  nodes_are_endpoints (build_coauthorship top_n papers)
  /\ nodes_are_endpoints (build_keywords min_freq papers).
Proof.
  split.
  - unfold build_coauthorship. rewrite coauthorship_attrs_fold.
    set (ap := group_by_author papers).
    set (G0 := coauthorship_edges (top_names top_n ap) papers).
    destruct (fold_update_attrs (author_attrs ap) (node_names G0) G0)
      as [Hn [He _]]; [reflexivity|].
    intros n. rewrite Hn, He.
    apply (coauthorship_edges_inv (top_names top_n ap) papers).
  - unfold build_keywords. rewrite keyword_graph_fold.
    apply (fold_left_inv nodes_are_endpoints); [|apply empty_endpoints].
    intros G [[k1 k2] w] _ HG. unfold keyword_step.
    destruct (2 <=? w)%Z; auto.
    now apply update_attrs_endpoints, update_attrs_endpoints, add_edge_endpoints.
Qed.

(** The keyword graph has no self-loop, and its weights are
    co-occurrence counts of at least 2. *)
Lemma keyword_graph_weights (min_freq : Z) (papers : list CnkiPaper) (a b : pystr) :
  has_edge (build_keywords min_freq papers) a a = false
  /\ forall w, weight (build_keywords min_freq papers) a b = Some w ->
               w = cooc_count a b papers /\ (2 <= w)%Z /\ a <> b.
Proof.
  split.
  - rewrite has_edge_weight, keyword_weight. cbn zeta.
    now rewrite cooc_count_self, andb_false_r.
  - intros w. rewrite keyword_weight. cbn zeta.
    destruct (_ && _ && _) eqn:E; [|discriminate].
    intros [= <-]. apply andb_true_iff in E. destruct E as [_ E].
    apply Z.leb_le in E. repeat split; auto.
    intros ->. rewrite cooc_count_self in E. lia.
Qed.

End GraphShape.

(** A paper whose author list names X twice, and one whose institution
    list names A twice. *)
Definition paper_naming_X_twice : CnkiPaper := paper_by [lit "X"; lit "X"] 0.
Definition paper_naming_A_twice : CnkiPaper :=
  set_all_institutions [lit "A"; lit "A"] (set_title (lit "t") new_paper).

(** The parser gives such a record from a block with the author line
    [%A X] twice. *)
Lemma paper_naming_X_twice_parsed :
  map authors (parse_content ascii_digits
                 (block_head ++ lit "%A X" ++ [10%N] ++ lit "%A X"))
  = [authors paper_naming_X_twice].
Proof. vm_compute. reflexivity. Qed.

(** C2, at the failing input.  A record that names the same author twice
    gives the co-authorship graph an edge from that author to itself, of
    weight 1, and a record that names the same institution twice does the
    same in the institution graph: the two edge loops pair every two
    positions of the list without comparing the names, where the keyword
    loop skips equal names. *)
Theorem repeated_name_makes_self_loop :
  NX.has_edge (build_coauthorship 50 [paper_naming_X_twice]) (lit "X") (lit "X") = true
  /\ NX.weight (build_coauthorship 50 [paper_naming_X_twice]) (lit "X") (lit "X")
     = Some 1%Z
  /\ NX.has_edge (build_institution [paper_naming_A_twice]) (lit "A") (lit "A") = true
  /\ NX.weight (build_institution [paper_naming_A_twice]) (lit "A") (lit "A")
     = Some 1%Z.
Proof. repeat split; vm_compute; reflexivity. Qed.

(** C5, at the failing input.  With the single record that names X twice,
    X is the only retained author and has no paper with another author,
    and yet X is a node of the co-authorship graph: the self-loop of the
    repeated name creates it. *)
Theorem lone_author_named_twice_is_a_node :
  top_names 50 (group_by_author [paper_naming_X_twice]) = [lit "X"]
  /\ NX.node_names (build_coauthorship 50 [paper_naming_X_twice]) = [lit "X"]
  /\ NX.edges (build_coauthorship 50 [paper_naming_X_twice])
     = [(lit "X", lit "X", 1%Z)].
Proof. repeat split; vm_compute; reflexivity. Qed.

(* ===================================================================== *)
(** * The operations as methods over the stored corpus *)
(* ===================================================================== *)

(** The builders and the statistics read the corpus through [self.papers]
    (or the local [papers] of [quick_parse]).  Here they are written as
    computations over the stored corpus, with the reads where the source
    has them, so that what a call leaves behind can be stated. *)
Module Methods.

(** The stored corpus: the list and, by value, every field of every
    record in it. *)
Record store := mkStore { papers : list CnkiPaper }.

Definition M (A : Type) : Type := store -> A * store.

Definition ret {A} (a : A) : M A := fun st => (a, st).

Definition bind {A B} (m : M A) (k : A -> M B) : M B :=
  fun st => let (a, st') := m st in k a st'.

Notation "x <- m ;; k" := (bind m (fun x => k))
  (at level 61, m at next level, right associativity).

(** Reading [self.papers]. *)
Definition read_papers : M (list CnkiPaper) := fun st => (papers st, st).

(** Assigning the corpus.  No operation of the source does it; it is what
    the frame property rules out. *)
Definition write_papers (ps : list CnkiPaper) : M unit :=
  fun _ => (tt, mkStore ps).

(** A [for] loop whose body runs in the store. *)
Fixpoint for_each {A S} (xs : list A) (body : S -> A -> M S) (s : S) : M S :=
  match xs with
  | [] => ret s
  | x :: xs' => s' <- body s x ;; for_each xs' body s'
  end.

Definition build_coauthorship (top_n : Z) : M NX.graph :=
  ps1 <- read_papers ;;
  let author_papers := group_by_author ps1 in
  let names := top_names top_n author_papers in
  ps2 <- read_papers ;;
  let G := coauthorship_edges names ps2 in
  ret (coauthorship_attrs author_papers G).

Definition build_institution : M NX.graph :=
  ps <- read_papers ;;
  let G := institution_edges ps in
  for_each (NX.node_names G)
    (fun G node =>
       ps' <- read_papers ;;
       ret (NX.update_attrs G node
              (fun a => NX.mkAttrs
                          (Some (py_len (filter
                                           (fun p => name_in (all_institutions p) node)
                                           ps')))
                          (NX.citations a) (NX.freq a))))
    G.

Definition build_keywords (min_freq : Z) : M NX.graph :=
  ps1 <- read_papers ;;
  let freq := keyword_freq ps1 in
  let valid := valid_keywords min_freq freq in
  ps2 <- read_papers ;;
  ret (keyword_graph freq (cooccurrence valid ps2)).



(** An operation that leaves the store as it found it and returns [f] of
    the corpus. *)
Definition reads_only {A} (m : M A) (f : list CnkiPaper -> A) : Prop :=
  forall st, m st = (f (papers st), st).

Lemma reads_only_ret {A} (a : A) : reads_only (ret a) (fun _ => a).
Proof. intros st; reflexivity. Qed.

Lemma reads_only_read : reads_only read_papers (fun ps => ps).
Proof. intros st; reflexivity. Qed.

Lemma reads_only_bind {A B} (m : M A) (k : A -> M B) f g :
  reads_only m f -> (forall a, reads_only (k a) (g a)) ->
  reads_only (bind m k) (fun ps => g (f ps) ps).
Proof.
  intros Hm Hk st. unfold bind. rewrite Hm. apply Hk.
Qed.


Lemma write_papers_changes (ps : list CnkiPaper) (st : store) :
  papers st <> ps -> snd (write_papers ps st) <> st.
Proof. intros Hne Heq. apply Hne. cbn in Heq. now rewrite <- Heq. Qed.






End Methods.


(* ===================================================================== *)
(** * Edge weights of the co-authorship and institution graphs *)
(* ===================================================================== *)

(** The pair of positions [xy] holds [a] and [b], in either order. *)
Definition same_ends (a b : pystr) (xy : pystr * pystr) : bool :=
  (str_eqb (fst xy) a && str_eqb (snd xy) b)
  || (str_eqb (fst xy) b && str_eqb (snd xy) a).

(** How many of the pairs hold [a] and [b]. *)
Definition pair_count (a b : pystr) (ps : list (pystr * pystr)) : Z :=
  py_len (filter (same_ends a b) ps).

(** The pairs the edge loop of [build_coauthorship] visits. *)
Definition coauthor_pairs (names : list pystr) (papers : list CnkiPaper) :=
  flat_map (fun p => pairs (filter (name_in names) (authors p))) papers.

(** The pairs the edge loop of [build_institution] visits. *)
Definition institution_pairs (papers : list CnkiPaper) :=
  flat_map (fun p => pairs (all_institutions p)) papers.

Definition weight_of_count (c : Z) : option Z :=
  if (c =? 0)%Z then None else Some c.

Section WeightFacts.
Import NX EdgeFacts NXFacts.

Lemma same_ends_iff (a b : pystr) (xy : pystr * pystr) :
  same_ends a b xy = true
  <-> (fst xy = a /\ snd xy = b) \/ (fst xy = b /\ snd xy = a).
Proof.
  unfold same_ends. now rewrite orb_true_iff, !andb_true_iff, !str_eqb_eq.
Qed.

Lemma same_ends_joins (a b u v : pystr) (e : pystr * pystr * Z) :
  same_ends a b (u, v) = true -> joins a b e = joins u v e.
Proof.
  intros H. apply same_ends_iff in H; cbn [fst snd] in H.
  apply eq_true_iff_eq. rewrite !joins_iff. intuition congruence.
Qed.

Lemma joins_same_ends (a b u v : pystr) (e : pystr * pystr * Z) :
  joins a b e = true -> joins u v e = same_ends a b (u, v).
Proof.
  intros H. apply joins_iff in H.
  apply eq_true_iff_eq. rewrite joins_iff, same_ends_iff; cbn [fst snd].
  intuition congruence.
Qed.

Lemma find_same {A} (f g : A -> bool) (l : list A) :
  (forall x, f x = g x) -> find f l = find g l.
Proof.
  intros H. induction l as [|x l IH]; cbn; auto. now rewrite H, IH.
Qed.

Lemma weight_incr (G : graph) (u v a b : pystr) :
  weight (incr_weight G u v) a b
  = option_map (fun w => if same_ends a b (u, v) then (w + 1)%Z else w)
      (weight G a b).
Proof.
  unfold weight, incr_weight, set_weight; cbn [edges].
  induction (edges G) as [|e es IH]; cbn [map find]; auto.
  destruct (joins u v e) eqn:Juv.
  - replace (joins a b (fst e, (snd e + 1)%Z)) with (joins a b e)
      by (destruct e as [[x y] w]; reflexivity).
    destruct (joins a b e) eqn:Jab; [|exact IH].
    cbn. rewrite <- (@joins_same_ends a b u v e Jab), Juv. reflexivity.
  - destruct (joins a b e) eqn:Jab; [|exact IH].
    cbn. rewrite <- (@joins_same_ends a b u v e Jab), Juv. reflexivity.
Qed.

Lemma weight_bump (G : graph) (u v a b : pystr) :
  weight (bump_edge G u v) a b
  = if same_ends a b (u, v)
    then Some (1 + match weight G a b with Some w => w | None => 0 end)%Z
    else weight G a b.
Proof.
  unfold bump_edge. destruct (has_edge G u v) eqn:E.
  - rewrite weight_incr. destruct (same_ends a b (u, v)) eqn:S.
    + rewrite has_edge_weight in E.
      assert (Hw : weight G a b = weight G u v).
      { unfold weight. f_equal. apply find_same. intros e.
        now apply same_ends_joins. }
      rewrite Hw. destruct (weight G u v); [|discriminate].
      cbn [option_map]. f_equal. lia.
    + destruct (weight G a b); reflexivity.
  - unfold add_edge. rewrite !has_edge_add_node, E.
    unfold weight; cbn [edges]. rewrite !edges_add_node.
    assert (Happ : forall es,
               find (joins a b) (es ++ [(u, v, 1%Z)])
               = match find (joins a b) es with
                 | Some e => Some e
                 | None => if joins a b (u, v, 1%Z) then Some (u, v, 1%Z) else None
                 end).
    { induction es as [|e es IH]; cbn [app find]; auto.
      destruct (joins a b e); auto. }
    rewrite Happ.
    assert (Hj : joins a b (u, v, 1%Z) = same_ends a b (u, v)).
    { unfold same_ends; cbn [joins fst snd].
      now rewrite (str_eqb_sym u a), (str_eqb_sym v b), (str_eqb_sym u b),
                  (str_eqb_sym v a). }
    rewrite Hj. destruct (same_ends a b (u, v)) eqn:S.
    + assert (Hn : find (joins a b) (edges G) = None).
      { rewrite has_edge_weight in E. unfold weight in E.
        rewrite (@find_same _ (joins a b) (joins u v))
          by (intros e; now apply same_ends_joins).
        destruct (find (joins u v) (edges G)); [discriminate|reflexivity]. }
      rewrite Hn. reflexivity.
    + destruct (find (joins a b) (edges G)); reflexivity.
Qed.

Lemma weight_fold_bump (ps : list (pystr * pystr)) (G : graph) (a b : pystr) :
  weight (fold_left (fun G xy => bump_edge G (fst xy) (snd xy)) ps G) a b
  = match weight G a b with
    | Some w => Some (w + pair_count a b ps)%Z
    | None => weight_of_count (pair_count a b ps)
    end.
Proof.
  unfold pair_count, py_len, weight_of_count.
  revert G; induction ps as [|[x y] ps IH]; intros G; cbn [fold_left filter fst snd].
  - cbn. destruct (weight G a b); [f_equal; lia|reflexivity].
  - rewrite IH, weight_bump.
    destruct (same_ends a b (x, y)); cbn [length].
    + destruct (weight G a b); f_equal; try lia.
      destruct (Z.eqb_spec (Z.of_nat (S (length (filter (same_ends a b) ps)))) 0);
        [lia|f_equal; lia].
    + reflexivity.
Qed.

Lemma coauthorship_edges_flat (names : list pystr) (papers : list CnkiPaper) :
  coauthorship_edges names papers
  = fold_left (fun G xy => bump_edge G (fst xy) (snd xy))
      (coauthor_pairs names papers) empty.
Proof.
  unfold coauthorship_edges, coauthor_pairs.
  rewrite <- (fold_left_flat_map (fun G xy => bump_edge G (fst xy) (snd xy))
                (fun p => pairs (filter (name_in names) (authors p)))).
  apply fold_left_same. intros G p. apply for_each_pair_pairs.
Qed.

Lemma institution_edges_flat (papers : list CnkiPaper) :
  institution_edges papers
  = fold_left (fun G xy => bump_edge G (fst xy) (snd xy))
      (institution_pairs papers) empty.
Proof.
  unfold institution_edges, institution_pairs.
  rewrite <- (fold_left_flat_map (fun G xy => bump_edge G (fst xy) (snd xy))
                (fun p => pairs (all_institutions p))).
  apply fold_left_same. intros G p.
  rewrite <- for_each_pair_pairs.
  destruct (all_institutions p) as [|i1 [|i2 rest]]; reflexivity.
Qed.

Lemma institution_attrs_fold papers G :
  institution_attrs papers G
  = fold_left
      (fun G n => update_attrs G n
         (fun a => mkAttrs
            (Some (py_len (filter (fun p => name_in (all_institutions p) n) papers)))
            (NX.citations a) (freq a)))
      (node_names G) G.
Proof. reflexivity. Qed.

(** In the co-authorship and institution graphs the weight of an edge is
    the number of pairs of positions of the records' lists (restricted to
    the retained authors in the first) that hold its two ends, and there is
    an edge exactly when that number is not zero: weights are positive and
    exact.  With [a = b] this is a self-loop, present as soon as one list
    names [a] twice. *)
Lemma edge_weights_count_pairs (top_n : Z) (papers : list CnkiPaper) (a b : pystr) :
  weight (build_coauthorship top_n papers) a b
  = weight_of_count
      (pair_count a b
         (coauthor_pairs (top_names top_n (group_by_author papers)) papers))
  /\ weight (build_institution papers) a b
     = weight_of_count (pair_count a b (institution_pairs papers)).
Proof.
  split.
  - unfold build_coauthorship. rewrite coauthorship_attrs_fold.
    set (ap := group_by_author papers).
    set (G0 := coauthorship_edges (top_names top_n ap) papers).
    destruct (fold_update_attrs (author_attrs ap) (node_names G0) G0)
      as [_ [He _]]; [reflexivity|].
    unfold weight. rewrite He. fold (weight G0 a b). unfold G0.
    rewrite coauthorship_edges_flat, weight_fold_bump. reflexivity.
  - unfold build_institution. rewrite institution_attrs_fold.
    set (G0 := institution_edges papers).
    destruct (fold_update_attrs
                (fun n a => mkAttrs
                   (Some (py_len (filter (fun p => name_in (all_institutions p) n)
                                    papers)))
                   (NX.citations a) (freq a))
                (node_names G0) G0) as [_ [He _]]; [reflexivity|].
    unfold weight. rewrite He. fold (weight G0 a b). unfold G0.
    rewrite institution_edges_flat, weight_fold_bump. reflexivity.
Qed.

End WeightFacts.

(* ===================================================================== *)
(** * Trimming and splitting *)
(* ===================================================================== *)

Section StripFacts.

Variable f : char -> bool.

Lemma drop_while_idem (s : pystr) :
  drop_while f (drop_while f s) = drop_while f s.
Proof.
  induction s as [|c s IH]; cbn; auto.
  destruct (f c) eqn:E; auto. cbn. now rewrite E.
Qed.

Lemma drop_while_app_keep (l : pystr) (c : char) :
  f c = false -> drop_while f (l ++ [c]) = drop_while f l ++ [c].
Proof.
  intros Hc. induction l as [|d l IH]; cbn.
  - now rewrite Hc.
  - destruct (f d); auto.
Qed.

Lemma drop_while_In (s : pystr) (c : char) :
  In c (drop_while f s) -> In c s.
Proof.
  induction s as [|d s IH]; cbn; auto.
  destruct (f d); cbn; auto.
Qed.

Lemma drop_while_length (s : pystr) : length (drop_while f s) <= length s.
Proof.
  induction s as [|d s IH]; cbn; auto.
  destruct (f d); cbn; lia.
Qed.

Lemma drop_while_head (s : pystr) :
  match drop_while f s with
  | [] => True
  | c :: _ => f c = false
  end.
Proof.
  induction s as [|d s IH]; cbn; auto.
  destruct (f d) eqn:E; auto.
Qed.

Lemma drop_while_fixed (c : char) (s : pystr) :
  f c = false -> drop_while f (c :: s) = c :: s.
Proof. intros Hc; cbn. now rewrite Hc. Qed.

End StripFacts.

Lemma rstrip_cons (c : char) (t : pystr) :
  is_space c = false -> rstrip (c :: t) = c :: rstrip t.
Proof.
  intros Hc. unfold rstrip. cbn [rev].
  rewrite drop_while_app_keep by exact Hc.
  now rewrite rev_app_distr.
Qed.

Lemma rstrip_idem (s : pystr) : rstrip (rstrip s) = rstrip s.
Proof. unfold rstrip. now rewrite rev_involutive, drop_while_idem. Qed.

(** A trimmed text is empty or starts with a character that is not white
    space. *)
Lemma strip_head (s : pystr) :
  match strip s with
  | [] => True
  | c :: _ => is_space c = false
  end.
Proof.
  unfold strip, lstrip.
  pose proof (drop_while_head is_space s) as H.
  destruct (drop_while is_space s) as [|c t]; [exact I|].
  now rewrite rstrip_cons.
Qed.

(** [s.strip().strip() == s.strip()] *)
Lemma strip_idem (s : pystr) : strip (strip s) = strip s.
Proof.
  pose proof (strip_head s) as H.
  destruct (strip s) as [|c t] eqn:E; [reflexivity|].
  unfold strip at 1, lstrip. rewrite drop_while_fixed by exact H.
  rewrite <- E. unfold strip. apply rstrip_idem.
Qed.

Lemma strip_In (s : pystr) (c : char) : In c (strip s) -> In c s.
Proof.
  unfold strip, rstrip, lstrip. intros H.
  apply in_rev, drop_while_In, in_rev in H.
  exact (drop_while_In _ _ _ H).
Qed.

Lemma strip_length (s : pystr) : length (strip s) <= length s.
Proof.
  unfold strip, rstrip, lstrip. rewrite length_rev.
  etransitivity; [apply drop_while_length|].
  rewrite length_rev. apply drop_while_length.
Qed.

(** One white-space character in front does not change the trimmed text. *)
Lemma strip_space_cons (c : char) (s : pystr) :
  is_space c = true -> strip (c :: s) = strip s.
Proof. intros Hc. unfold strip, lstrip. cbn. now rewrite Hc. Qed.

(** The pieces of a split hold no separator. *)
Lemma split_on_no_sep (sep : char -> bool) (s piece : pystr) (c : char) :
  In piece (split_on sep s) -> In c piece -> sep c = false.
Proof.
  revert piece; induction s as [|d s IH]; intros piece; cbn.
  - intros [<-|[]] [].
  - destruct (sep d) eqn:E.
    + intros [<-|Hin]; [intros []|now apply IH].
    + destruct (split_on sep s) as [|p ps].
      * intros [<-|[]] [<-|[]]. exact E.
      * intros [<-|Hin].
        -- intros [<-|Hc]; [exact E|]. apply (IH p); cbn; auto.
        -- apply IH. cbn; auto.
Qed.

Lemma split_on_nonempty (sep : char -> bool) (s : pystr) : split_on sep s <> [].
Proof.
  destruct s as [|d s]; cbn; [discriminate|].
  destruct (sep d); [discriminate|].
  destruct (split_on sep s); discriminate.
Qed.

(** A text without separator, then a separator: the split starts with that
    text. *)
Lemma split_on_app_sep (sep : char -> bool) (x rest : pystr) (c : char) :
  (forall d, In d x -> sep d = false) -> sep c = true ->
  split_on sep (x ++ c :: rest) = x :: split_on sep rest.
Proof.
  intros Hx Hc. induction x as [|d x IH]; cbn.
  - now rewrite Hc.
  - rewrite (Hx d) by (cbn; auto).
    rewrite IH by (intros; apply Hx; cbn; auto). reflexivity.
Qed.

Lemma split_on_no_sep_whole (sep : char -> bool) (x : pystr) :
  (forall d, In d x -> sep d = false) -> split_on sep x = [x].
Proof.
  intros Hx. induction x as [|d x IH]; cbn; auto.
  rewrite (Hx d) by (cbn; auto).
  rewrite IH by (intros; apply Hx; cbn; auto). reflexivity.
Qed.

(** An entry of a list the parser splits off a value: not empty, trimmed,
    and free of the separators. *)
Definition clean (sep : char -> bool) (i : pystr) : Prop :=
  i <> [] /\ strip i = i /\ forall c, In c i -> sep c = false.

Lemma stripped_nonempty_clean (sep : char -> bool) (value : pystr) :
  Forall (clean sep) (stripped_nonempty (split_on sep value)).
Proof.
  unfold stripped_nonempty. apply Forall_forall. intros i Hi.
  apply in_map_iff in Hi. destruct Hi as [piece [<- Hin]].
  apply filter_In in Hin. destruct Hin as [Hin Ht].
  split; [|split].
  - intros E. rewrite E in Ht. discriminate.
  - apply strip_idem.
  - intros c Hc. apply strip_In in Hc. exact (split_on_no_sep _ _ _ _ Hin Hc).
Qed.

(* ===================================================================== *)
(** * Invariants of a decoded record *)
(* ===================================================================== *)

Section RecordInvariants.

Variable tbl : digit_table.

(** A value as [_parse_record] hands it to the field decoders: trimmed,
    and on one line. *)
Definition one_trimmed_line (v : pystr) : Prop :=
  strip v = v /\ forall c, In c v -> is_newline c = false.

Lemma field_of_line_value (line : pystr) (m : char) (v : pystr) :
  field_of_line line = Some (m, v) ->
  strip v = v /\ forall c, In c v -> In c line.
Proof.
  unfold field_of_line.
  destruct (strip line) as [|c0 [|m' rest]] eqn:E; try discriminate.
  destruct (N.eqb c0 (ch "%")); [|discriminate].
  intros [= <- <-]. split; [apply strip_idem|].
  intros c Hc. apply strip_In in Hc. apply strip_In. rewrite E. cbn; auto.
Qed.

Lemma field_lines_values (record : pystr) (m : char) (v : pystr) :
  In (m, v) (field_lines record) -> one_trimmed_line v.
Proof.
  unfold field_lines. intros H. apply in_flat_map in H.
  destruct H as [line [Hline Hf]].
  destruct (field_of_line line) as [[m' v']|] eqn:E; [|destruct Hf].
  destruct Hf as [[= <- <-]|[]].
  destruct (field_of_line_value _ E) as [Hs Hin].
  split; [exact Hs|].
  intros c Hc. exact (split_on_no_sep _ _ _ _ Hline (Hin c Hc)).
Qed.

Lemma values_of_In (m : char) (fields : list (char * pystr)) (v : pystr) :
  In v (values_of m fields) <-> In (m, v) fields.
Proof.
  unfold values_of, picks, on. rewrite in_flat_map. split.
  - intros [[m' v'] [Hin Hv]]. cbn [fst snd] in Hv.
    destruct (N.eqb_spec m' m) as [->|]; [|destruct Hv].
    destruct Hv as [<-|[]]. exact Hin.
  - intros Hin. exists (m, v). split; [exact Hin|].
    cbn [fst snd]. rewrite N.eqb_refl. cbn; auto.
Qed.

Lemma picks_values (vs : list pystr) : picks nonempty vs = filter truthy vs.
Proof.
  rewrite <- (map_id (filter truthy vs)).
  apply picks_filter_map. intros v; unfold nonempty.
  destruct (truthy v); reflexivity.
Qed.

Lemma last_In_or_default {A} (l : list A) (d : A) : last l d = d \/ In (last l d) l.
Proof.
  revert d; induction l as [|x l IH]; intros d; [now left|].
  rewrite last_cons. destruct (IH x) as [->|H]; right; cbn; auto.
Qed.

(** A field that keeps the last value of its marker holds the default or
    one of the values of the block. *)
Lemma last_of_value (m : char) (fields : list (char * pystr)) :
  last_of (on m Some) [] fields = []
  \/ In (m, last_of (on m Some) [] fields) fields.
Proof.
  unfold last_of. fold (values_of m fields).
  destruct (last_In_or_default (values_of m fields) []) as [H|H]; [now left|].
  right. now apply values_of_In.
Qed.

Lemma decode_keywords (record : pystr) :
  keywords (_parse_record tbl record)
  = split_keywords (last (filter truthy (values_of (ch "K") (field_lines record))) []).
Proof.
  rewrite parse_record_decode.
  unfold decode_fields, last_of; cbn [keywords].
  rewrite picks_on, picks_nonempty.
  exact (last_map_default split_keywords _ []).
Qed.

Lemma decode_authors (record : pystr) :
  authors (_parse_record tbl record)
  = filter truthy (values_of (ch "A") (field_lines record)).
Proof.
  rewrite parse_record_decode.
  unfold decode_fields; cbn [authors].
  now rewrite picks_on, picks_values.
Qed.

End RecordInvariants.

(** X1. Whatever the block, the two institution fields of the record
    [_parse_record] builds agree: [institution] is the first entry of
    [all_institutions], or empty when there is none.  No entry of
    [all_institutions] is empty, none has white space at either end, and
    none holds a semicolon. *)
Theorem decoded_institutions_are_clean (tbl : digit_table) (record : pystr) :
  let p := _parse_record tbl record in
  institution p = hd [] (all_institutions p)
  /\ Forall (clean (N.eqb (ch ";"))) (all_institutions p)
  /\ (institution p = [] <-> all_institutions p = []).
Proof.
  cbn zeta. destruct (decode_institutions tbl record) as [Hall Hfirst].
  cbn zeta in Hall, Hfirst. rewrite Hfirst, Hall.
  set (value := last _ _).
  pose proof (stripped_nonempty_clean (N.eqb (ch ";")) value) as Hclean.
  fold (split_institutions value) in Hclean.
  split; [reflexivity|]. split; [exact Hclean|].
  destruct (split_institutions value) as [|i rest]; [tauto|].
  inversion Hclean as [|? ? [Hne _] _]; subst. cbn [hd].
  split; [contradiction|discriminate].
Qed.

(** X2. Whatever the block, no keyword of the record [_parse_record] builds
    is empty, none has white space at either end, and none holds one of
    the four separators (the comma and the semicolon, half and full
    width). *)
Theorem decoded_keywords_are_clean (tbl : digit_table) (record : pystr) :
  Forall (clean is_keyword_sep) (keywords (_parse_record tbl record)).
Proof.
  rewrite decode_keywords. apply stripped_nonempty_clean.
Qed.

(** X3. The author list of a decoded record is the values of the author
    lines of the block that are not empty, in the order of the lines and
    with repetitions kept; no author is empty, and each is trimmed and
    holds no line feed. *)
Theorem decoded_authors_are_the_author_lines (tbl : digit_table) (record : pystr) :
  authors (_parse_record tbl record)
  = filter truthy (values_of (ch "A") (field_lines record))
  /\ Forall (fun a => a <> [] /\ one_trimmed_line a)
       (authors (_parse_record tbl record)).
Proof.
  split; [apply decode_authors|].
  rewrite decode_authors. apply Forall_forall. intros a Ha.
  apply filter_In in Ha. destruct Ha as [Hin Ht].
  split; [intros ->; discriminate|].
  apply values_of_In in Hin. exact (field_lines_values _ _ _ Hin).
Qed.

(** X4. Every text field of a decoded record that keeps the value of its
    line (title, journal, volume, issue, pages, abstract, DOI, URL, ISSN
    and CN code) is trimmed and holds no line feed. *)
Theorem decoded_text_fields_are_trimmed_lines (tbl : digit_table) (record : pystr) :
  let p := _parse_record tbl record in
  Forall one_trimmed_line
    [title p; journal p; volume p; issue p; pages p; abstract p; doi p; url p;
     issn p; cn_code p].
Proof.
  cbn zeta. rewrite parse_record_decode.
  assert (H : forall m, one_trimmed_line
                          (last_of (on m Some) [] (field_lines record))).
  { intros m. destruct (last_of_value m (field_lines record)) as [->|Hin].
    - split; [reflexivity|intros c []].
    - exact (field_lines_values _ _ _ Hin). }
  unfold decode_fields;
    cbn [title journal volume issue pages abstract doi url issn cn_code].
  repeat constructor; apply H.
Qed.

(* ===================================================================== *)
(** * The numbers of a decoded record *)
(* ===================================================================== *)

(** Every decimal digit of the table has a value from 0 to 9, as in every
    Unicode version. *)
Definition digit_values (tbl : digit_table) : Prop :=
  forall c, is_decimal tbl c = true -> (0 <= decimal_value tbl c <= 9)%Z.

Lemma ascii_digit_values : digit_values ascii_digits.
Proof.
  intros c; cbn. rewrite andb_true_iff, !N.leb_le. lia.
Qed.

Section NumberFacts.

Variable tbl : digit_table.

Lemma take_while_Forall (f : char -> bool) (s : pystr) :
  Forall (fun c => f c = true) (take_while f s).
Proof.
  induction s as [|c s IH]; cbn; auto.
  destruct (f c) eqn:E; auto.
Qed.

Lemma digits1_decimal (s d : pystr) :
  digits1 tbl s = Some d ->
  d <> [] /\ Forall (fun c => is_decimal tbl c = true) d.
Proof.
  unfold digits1. pose proof (take_while_Forall (is_decimal tbl) s) as H.
  destruct (take_while (is_decimal tbl) s) as [|c t]; [discriminate|].
  intros [= <-]. split; [discriminate|exact H].
Qed.

Lemma spaces_digits_decimal (s d : pystr) :
  spaces_digits tbl s = Some d ->
  d <> [] /\ Forall (fun c => is_decimal tbl c = true) d.
Proof.
  induction s as [|c s IH]; cbn; [discriminate|].
  destruct (is_space c).
  - destruct (spaces_digits tbl s) as [d'|].
    + intros [= <-]. now apply IH.
    + apply digits1_decimal.
  - apply digits1_decimal.
Qed.

Lemma colon_spaces_digits_decimal (s d : pystr) :
  colon_spaces_digits tbl s = Some d ->
  d <> [] /\ Forall (fun c => is_decimal tbl c = true) d.
Proof.
  unfold colon_spaces_digits. destruct s as [|c s]; [discriminate|].
  destruct (is_colon c).
  - destruct (spaces_digits tbl s) as [d'|] eqn:E.
    + intros [= <-]. now apply spaces_digits_decimal with (s := s).
    + apply spaces_digits_decimal.
  - apply spaces_digits_decimal.
Qed.

(** The group a count search captures is a run of decimal digits, not
    empty. *)
Lemma search_count_decimal (label s d : pystr) :
  search_count tbl label s = Some d ->
  d <> [] /\ Forall (fun c => is_decimal tbl c = true) d.
Proof.
  induction s as [|c s IH]; cbn [search_count]; [discriminate|].
  destruct (startswith label (c :: s)).
  - destruct (colon_spaces_digits tbl (skipn (length label) (c :: s))) as [d'|] eqn:E.
    + intros [= <-]. now apply colon_spaces_digits_decimal with (1 := E).
    + exact IH.
  - exact IH.
Qed.

Hypothesis values : digit_values tbl.

Lemma int_of_digits_from (ds : pystr) (acc : Z) :
  Forall (fun c => is_decimal tbl c = true) ds -> (0 <= acc)%Z ->
  (0 <= fold_left (fun acc c => (10 * acc + decimal_value tbl c)%Z) ds acc)%Z.
Proof.
  intros H; revert acc; induction H as [|c ds Hc _ IH]; intros acc Hacc; cbn [fold_left]; auto.
  apply IH. pose proof (values c Hc). lia.
Qed.

Lemma int_of_digits_nonneg (ds : pystr) :
  Forall (fun c => is_decimal tbl c = true) ds -> (0 <= int_of_digits tbl ds)%Z.
Proof. intros H. apply int_of_digits_from; [exact H|lia]. Qed.

Hypothesis standard : standard_on_ascii tbl.

Lemma year_of_range (v : pystr) (y : Z) :
  year_of tbl v = Some y -> (1900 <= y <= 2099)%Z.
Proof.
  unfold year_of. destruct (search_year tbl v) as [m|] eqn:E; [|discriminate].
  intros [= <-]. apply search_year_first in E.
  destruct E as [pre [post [_ [[c [d [Hm [Hc Hd]]]] _]]]].
  pose proof (values c Hc). pose proof (values d Hd).
  pose proof standard as S0. unfold standard_on_ascii in S0.
  destruct (S0 (ch "1")) as [_ V1]; [unfold ch; simpl; lia|].
  change (Z.of_N (ch "1") - 48)%Z with 1%Z in V1.
  destruct (S0 (ch "9")) as [_ V9]; [unfold ch; simpl; lia|].
  change (Z.of_N (ch "9") - 48)%Z with 9%Z in V9.
  destruct (S0 (ch "2")) as [_ V2]; [unfold ch; simpl; lia|].
  change (Z.of_N (ch "2") - 48)%Z with 2%Z in V2.
  destruct (S0 (ch "0")) as [_ V0]; [unfold ch; simpl; lia|].
  change (Z.of_N (ch "0") - 48)%Z with 0%Z in V0.
  destruct Hm as [-> | ->]; unfold int_of_digits; cbn [fold_left];
    rewrite ?V1, ?V9, ?V2, ?V0; lia.
Qed.

End NumberFacts.

Lemma last_picks {A B} (g : A -> option B) (vs : list A) (d : B) :
  last (picks g vs) d = d
  \/ exists v, In v vs /\ g v = Some (last (picks g vs) d).
Proof.
  destruct (last_In_or_default (picks g vs) d) as [H|H]; [now left|].
  right. unfold picks in H at 2. apply in_flat_map in H.
  destruct H as [v [Hv Hin]]. exists v. split; [exact Hv|].
  destruct (g v); [|destruct Hin]. destruct Hin as [->|[]]. reflexivity.
Qed.

(** X5. With a digit table that is standard on ASCII and gives every
    digit a value from 0 to 9, the year of a decoded record is 0 (no year
    found) or lies between 1900 and 2099, and the citation and download
    counts are never negative. *)
Theorem decoded_numbers_in_range (tbl : digit_table) (record : pystr) :
  standard_on_ascii tbl -> digit_values tbl ->
  let p := _parse_record tbl record in
  (year p = 0%Z \/ (1900 <= year p <= 2099)%Z)
  /\ (0 <= citations p)%Z /\ (0 <= downloads p)%Z.
Proof.
  intros Hstd Hval. cbn zeta. rewrite parse_record_decode.
  unfold decode_fields, last_of; cbn [year citations downloads].
  assert (Hlast : forall (P : Z -> Prop) (g : pystr -> option Z) m,
             P 0%Z -> (forall v y, g v = Some y -> P y) ->
             P (last (picks (on m g) (field_lines record)) 0%Z)).
  { intros P g m H0 Hg. rewrite picks_on.
    destruct (last_picks g (values_of m (field_lines record)) 0%Z)
      as [E|[v [_ Hv]]]; [now rewrite E|exact (Hg _ _ Hv)]. }
  assert (Hcount : forall label v y, count_of tbl label v = Some y -> (0 <= y)%Z).
  { intros label v y. unfold count_of.
    destruct (search_count tbl label v) as [g|] eqn:E; [|discriminate].
    intros [= <-]. apply int_of_digits_nonneg; [exact Hval|].
    exact (proj2 (search_count_decimal _ _ _ E)). }
  split; [|split].
  - apply (Hlast (fun y => y = 0 \/ 1900 <= y <= 2099)%Z); [now left|].
    intros v y Hv. right. exact (year_of_range Hval Hstd _ Hv).
  - apply (Hlast (fun y => 0 <= y)%Z); [lia|apply Hcount].
  - apply (Hlast (fun y => 0 <= y)%Z); [lia|apply Hcount].
Qed.

Lemma decoded_numbers_in_range_witness :
  standard_on_ascii ascii_digits /\ digit_values ascii_digits
  /\ (1900 <= year (_parse_record ascii_digits two_date_lines) <= 2099)%Z.
Proof.
  split; [exact ascii_digits_standard|]. split; [exact ascii_digit_values|].
  destruct (decoded_numbers_in_range two_date_lines ascii_digits_standard
              ascii_digit_values) as [[H|H] _].
  - vm_compute in H. discriminate.
  - exact H.
Defined.

(* ===================================================================== *)
(** * Cutting a text into records *)
(* ===================================================================== *)

Section CutFacts.

Lemma cut_records_nonempty (s : pystr) : cut_records s <> [].
Proof.
  destruct s as [|c s]; cbn; [discriminate|].
  destruct (cut_records s); [discriminate|].
  destruct (starts_record s); discriminate.
Qed.

Lemma cut_records_cons (c : char) (s : pystr) :
  cut_records (c :: s)
  = match cut_records s with
    | piece :: pieces =>
        if starts_record s then [c] :: piece :: pieces else (c :: piece) :: pieces
    | [] => [[c]]
    end.
Proof. reflexivity. Qed.

(** The cut loses nothing: the pieces, put end to end, are the text. *)
Lemma concat_cut_records (s : pystr) : concat (cut_records s) = s.
Proof.
  induction s as [|c s IH]; cbn; auto.
  destruct (cut_records s) as [|piece pieces] eqn:E.
  - now destruct (cut_records_nonempty s).
  - destruct (starts_record s); cbn in *; now rewrite IH.
Qed.

Lemma concat_split_records (content : pystr) :
  concat (split_records content) = content.
Proof.
  unfold split_records. destruct (starts_record content); cbn;
    apply concat_cut_records.
Qed.

(** In front of a text that starts a record, what comes before decides
    alone where its own records start. *)
Lemma starts_record_app (a b : pystr) :
  starts_record b = true -> a <> [] -> starts_record (a ++ b) = starts_record a.
Proof.
  intros Hb Ha.
  destruct b as [|b0 [|b1 [|b2 b]]]; try discriminate.
  cbn in Hb. apply andb_true_iff in Hb. destruct Hb as [Hb _].
  apply andb_true_iff in Hb. destruct Hb as [Hb0 _].
  apply N.eqb_eq in Hb0. subst b0.
  destruct a as [|x [|y [|z a]]]; [congruence| | |reflexivity].
  - cbn. now rewrite andb_false_r.
  - cbn. now rewrite andb_false_r.
Qed.

Lemma cut_records_app (a b : pystr) :
  starts_record b = true -> a <> [] ->
  cut_records (a ++ b) = cut_records a ++ cut_records b.
Proof.
  intros Hb. induction a as [|c a IH]; [congruence|]. intros _.
  destruct a as [|d a].
  - cbn. rewrite Hb. destruct (cut_records b) eqn:E; [|reflexivity].
    now destruct (cut_records_nonempty b).
  - change ((c :: d :: a) ++ b) with (c :: ((d :: a) ++ b)).
    rewrite (cut_records_cons c ((d :: a) ++ b)), (cut_records_cons c (d :: a)).
    rewrite IH by discriminate.
    rewrite starts_record_app by (auto; discriminate).
    destruct (cut_records (d :: a)) as [|piece pieces] eqn:E.
    + now destruct (cut_records_nonempty (d :: a)).
    + cbn [app]. destruct (starts_record (d :: a)); reflexivity.
Qed.

Lemma split_records_app (a b : pystr) :
  starts_record b = true ->
  split_records (a ++ b) = split_records a ++ cut_records b.
Proof.
  intros Hb. destruct a as [|c a].
  - cbn [app]. unfold split_records. rewrite Hb. reflexivity.
  - unfold split_records.
    rewrite starts_record_app, cut_records_app by (auto; discriminate).
    destruct (starts_record (c :: a)); reflexivity.
Qed.

End CutFacts.

Lemma well_formed_length (tbl : digit_table) (b : pystr) :
  well_formed tbl b = true -> 50 <= length b.
Proof.
  unfold well_formed. intros H. apply andb_true_iff in H.
  destruct H as [H _]. now apply Nat.leb_le.
Qed.

(** X6. Two exports put end to end, the second starting with a record
    marker, parse to the records of the first followed by the records of
    the second. *)
Theorem parse_of_concatenation (tbl : digit_table) (a b : pystr) :
  starts_record b = true ->
  parse_content tbl (a ++ b) = parse_content tbl a ++ parse_content tbl b.
Proof.
  intros Hb. rewrite !parse_content_blocks. unfold trimmed_blocks.
  rewrite split_records_app by exact Hb.
  rewrite map_app, filter_app, map_app. f_equal.
  unfold split_records. rewrite Hb.
  cbn [map filter].
  replace (well_formed tbl (strip [])) with false; [reflexivity|].
  symmetry. apply not_true_is_false. intros H.
  apply well_formed_length in H. cbn in H. lia.
Qed.

Lemma parse_of_concatenation_witness :
  starts_record two_date_lines = true
  /\ map year (parse_content ascii_digits (two_institution_lines ++ two_date_lines))
     = [0; 2024]%Z.
Proof.
  split; [reflexivity|].
  rewrite (@parse_of_concatenation ascii_digits two_institution_lines
             two_date_lines eq_refl).
  vm_compute. reflexivity.
Defined.

(** X7. Every record [parse] returns comes from a piece of the text of its
    own that is at least 50 characters long: a text yields at most one
    record for every 50 characters, and none when it is shorter than 50
    characters. *)
Theorem parse_needs_50_characters_each (tbl : digit_table) (content : pystr) :
  50 * length (parse_content tbl content) <= length content
  /\ (length content < 50 -> parse_content tbl content = []).
Proof.
  assert (H : 50 * length (parse_content tbl content) <= length content).
  { rewrite parse_content_blocks, length_map. unfold trimmed_blocks.
    rewrite <- (concat_split_records content) at 2.
    induction (split_records content) as [|p ps IH]; cbn [map filter concat];
      [cbn; lia|].
    rewrite length_app.
    destruct (well_formed tbl (strip p)) eqn:E; [|lia].
    apply well_formed_length in E. pose proof (strip_length p).
    cbn [length]. lia. }
  split; [exact H|].
  intros Hshort. destruct (parse_content tbl content); [reflexivity|].
  cbn [length] in H. lia.
Qed.

(* ===================================================================== *)
(** * cnki_parser.py: [to_dataframe] *)
(* ===================================================================== *)

Module DataFrame.

(** A row of the data frame: the dictionary [to_dataframe] builds for one
    paper, key by key. *)
Record t := mk {
  title : pystr;
  authors : pystr;
  institution : pystr;
  all_institutions : pystr;
  journal : pystr;
  year : Z;
  volume : pystr;
  issue : pystr;
  pages : pystr;
  keywords : pystr;
  abstract : pystr;
  doi : pystr;
  issn : pystr;
  citations : Z;
  downloads : Z
}.

End DataFrame.

(** [sep.join(xs)] *)
Fixpoint join (sep : pystr) (xs : list pystr) : pystr :=
  match xs with
  | [] => []
  | x :: rest =>
      match rest with
      | [] => x
      | _ :: _ => x ++ sep ++ join sep rest
      end
  end.

Definition to_row (p : CnkiPaper) : DataFrame.t :=
  DataFrame.mk (title p) (join (lit "; ") (authors p)) (institution p)
    (join (lit "; ") (all_institutions p)) (journal p) (year p) (volume p)
    (issue p) (pages p) (join (lit "; ") (keywords p)) (abstract p) (doi p)
    (issn p) (citations p) (downloads p).

(** [to_dataframe]: the rows handed to [pd.DataFrame], one per paper. *)
Definition to_dataframe (papers : list CnkiPaper) : list DataFrame.t :=
  map to_row papers.

Section JoinFacts.

Variable sep : char -> bool.

Lemma stripped_nonempty_cons_clean (x : pystr) (pieces : list pystr) :
  clean sep x ->
  stripped_nonempty (x :: pieces) = x :: stripped_nonempty pieces.
Proof.
  intros [Hne [Hs _]]. unfold stripped_nonempty. cbn [filter].
  rewrite Hs. destruct x; [congruence|]. cbn [truthy map]. now rewrite Hs.
Qed.

(** White space after a separator is trimmed away. *)
Lemma stripped_nonempty_space (c : char) (s : pystr) :
  sep c = false -> is_space c = true ->
  stripped_nonempty (split_on sep (c :: s)) = stripped_nonempty (split_on sep s).
Proof.
  intros Hsep Hsp. cbn [split_on]. rewrite Hsep.
  destruct (split_on sep s) as [|piece pieces] eqn:E.
  - now destruct (split_on_nonempty sep s).
  - unfold stripped_nonempty. cbn [filter].
    rewrite (@strip_space_cons c piece Hsp).
    destruct (truthy (strip piece)); cbn [map];
      now rewrite ?(@strip_space_cons c piece Hsp).
Qed.

Hypothesis sep_semicolon : sep (ch ";") = true.
Hypothesis sep_space : sep (ch " ") = false.

(** Joining clean entries with [; ] and splitting the result the way the
    parser does gives the entries back. *)
Lemma split_join_clean (l : list pystr) :
  Forall (clean sep) l ->
  stripped_nonempty (split_on sep (join (lit "; ") l)) = l.
Proof.
  induction 1 as [|x rest Hx Hrest IH]; [reflexivity|].
  cbn [join]. destruct rest as [|y rest].
  - rewrite split_on_no_sep_whole by (apply Hx).
    now rewrite stripped_nonempty_cons_clean.
  - change (lit "; ") with [ch ";"; ch " "] in *.
    cbn [app]. rewrite split_on_app_sep by (auto; apply Hx).
    rewrite stripped_nonempty_cons_clean by exact Hx.
    rewrite stripped_nonempty_space by (auto; reflexivity).
    now rewrite IH.
Qed.

End JoinFacts.

(** X8. The data frame loses nothing of the two lists the parser splits
    off a line: for a record the parser decoded, splitting the
    [all_institutions] column at the semicolons and the [keywords] column at
    the keyword separators, as the parser does, gives back the record's
    lists.  The frame has one row per record. *)
Theorem dataframe_lists_round_trip (tbl : digit_table) (record : pystr) :
  let p := _parse_record tbl record in
  split_institutions (DataFrame.all_institutions (to_row p)) = all_institutions p
  /\ split_keywords (DataFrame.keywords (to_row p)) = keywords p
  /\ forall papers, length (to_dataframe papers) = length papers.
Proof.
  cbn zeta. split; [|split].
  - cbn [to_row DataFrame.all_institutions]. apply split_join_clean; try reflexivity.
    destruct (decode_institutions tbl record) as [Hall _].
    cbn zeta in Hall. rewrite Hall. apply stripped_nonempty_clean.
  - cbn [to_row DataFrame.keywords]. apply split_join_clean; try reflexivity.
    rewrite decode_keywords. apply stripped_nonempty_clean.
  - intros papers. apply length_map.
Qed.

(* ===================================================================== *)
(** * The years: [print_stats] of main.py and [plot_trend] of visualizer.py *)
(* ===================================================================== *)

(** main.py, [print_stats]: the two ends of the time span,
    [stats['years'][0]] and [stats['years'][-1]], or ['N/A'] ([None]) when
    there is no year. *)
Definition time_span (stats : Stats.t) : option Z * option Z :=
  match Stats.years stats with
  | [] => (None, None)
  | y :: ys => (Some y, Some (last ys y))
  end.

(** visualizer.py, [plot_trend]: the dictionary [year_data]. *)
Definition year_data (papers : list CnkiPaper) : dict Z Z :=
  fold_left
    (fun year_data p =>
       if (2000 <? year p)%Z
       then dict_update Z.eqb 0%Z (fun n => (n + 1)%Z) year_data (year p)
       else year_data)
    papers [].

(** [plot_trend]: the two series it draws, [years] and [counts]; [None]
    when it returns without a figure. *)
Definition plot_trend (papers : list CnkiPaper) : option (list Z * list Z) :=
  let year_data := year_data papers in
  match year_data with
  | [] => None
  | _ :: _ =>
      let years := sorted (keys year_data) in
      Some (years, map (dict_get Z.eqb 0%Z year_data) years)
  end.

Section YearSeries.

Lemma stats_years_strict (papers : list CnkiPaper) :
  StronglySorted Z.lt (Stats.years (corpus_stats papers)).
Proof. apply sorted_strict, NoDup_nodup. Qed.

Lemma stats_years_In (papers : list CnkiPaper) (y : Z) :
  In y (Stats.years (corpus_stats papers))
  <-> (2000 < y)%Z /\ exists p, In p papers /\ year p = y.
Proof.
  unfold corpus_stats, int_set; cbn [Stats.years].
  rewrite sorted_In, nodup_In, in_map_iff. split.
  - intros [p [<- Hp]]. apply filter_In in Hp. destruct Hp as [Hp Hy].
    apply Z.ltb_lt in Hy. eauto.
  - intros [Hy [p [Hp <-]]]. exists p. split; auto.
    apply filter_In. split; auto. now apply Z.ltb_lt.
Qed.

(** A strictly increasing list is determined by its elements. *)
Lemma strict_sorted_unique (l1 l2 : list Z) :
  StronglySorted Z.lt l1 -> StronglySorted Z.lt l2 ->
  (forall y, In y l1 <-> In y l2) -> l1 = l2.
Proof.
  intros H1; revert l2; induction H1 as [|x l1 Hs1 IH Hx]; intros l2 H2 Hsame.
  - destruct l2 as [|z l2]; [reflexivity|].
    destruct (proj2 (Hsame z)); cbn; auto.
  - destruct H2 as [|z l2 Hs2 Hz].
    + destruct (proj1 (Hsame x)); cbn; auto.
    + rewrite Forall_forall in Hx, Hz.
      assert (x = z).
      { destruct (proj1 (Hsame x)) as [E|Hin]; [cbn; auto|auto|].
        destruct (proj2 (Hsame z)) as [E|Hin']; [cbn; auto|auto|].
        specialize (Hx _ Hin'). specialize (Hz _ Hin). lia. }
      subst z. f_equal. apply IH; auto.
      intros y. split; intros Hy.
      * destruct (proj1 (Hsame y)) as [E|Hin]; [cbn; auto| |exact Hin].
        specialize (Hx _ Hy). lia.
      * destruct (proj2 (Hsame y)) as [E|Hin]; [cbn; auto| |exact Hin].
        specialize (Hz _ Hy). lia.
Qed.

Lemma strict_sorted_NoDup (l : list Z) : StronglySorted Z.lt l -> NoDup l.
Proof.
  induction 1 as [|x l Hs IH Hx]; constructor; auto.
  rewrite Forall_forall in Hx. intros Hin. specialize (Hx _ Hin). lia.
Qed.

Lemma strict_sorted_bounds (y : Z) (ys : list Z) :
  StronglySorted Z.lt (y :: ys) ->
  In (last ys y) (y :: ys)
  /\ forall z, In z (y :: ys) -> (y <= z <= last ys y)%Z.
Proof.
  revert y; induction ys as [|x ys IH]; intros y Hs.
  - cbn. split; auto. intros z [<-|[]]. lia.
  - inversion Hs as [|? ? Hs' Hy]; subst.
    destruct (IH x Hs') as [Hin Hb].
    rewrite last_cons. split; [right; exact Hin|].
    rewrite Forall_forall in Hy.
    intros z [<-|Hz].
    + pose proof (Hy _ Hin). lia.
    + pose proof (Hb z Hz). pose proof (Hy x (or_introl eq_refl)). lia.
Qed.

Lemma year_data_get (papers : list CnkiPaper) (y : Z) :
  dict_get Z.eqb 0%Z (year_data papers) y
  = py_len (filter (fun p => (2000 <? year p)%Z && (year p =? y)%Z) papers).
Proof.
  unfold year_data.
  rewrite (@dict_get_fold _ _ Z.eqb Z.eqb_spec 0%Z _
             (fun _ n => (n + 1)%Z) year (fun p => (2000 <? year p)%Z)).
  cbn [dict_get].
  rewrite (fold_left_same _
             (fun v p => if (2000 <? year p)%Z && (year p =? y)%Z
                         then (1 + v)%Z else v))
    by (intros v p; destruct (_ && _); lia).
  rewrite fold_left_count. lia.
Qed.

Lemma year_data_keys (papers : list CnkiPaper) (y : Z) :
  In y (keys (year_data papers))
  <-> (2000 < y)%Z /\ exists p, In p papers /\ year p = y.
Proof.
  unfold year_data.
  rewrite (@keys_fold_In _ _ Z.eqb Z.eqb_spec 0%Z _
             (fun _ n => (n + 1)%Z) year (fun p => (2000 <? year p)%Z)).
  cbn [keys map]. split.
  - intros [[]|[p [Hp [Hy <-]]]]. apply Z.ltb_lt in Hy. eauto.
  - intros [Hy [p [Hp <-]]]. right. exists p. apply Z.ltb_lt in Hy. auto.
Qed.

Lemma year_data_NoDup (papers : list CnkiPaper) : NoDup (keys (year_data papers)).
Proof.
  unfold year_data.
  apply (@keys_fold_NoDup _ _ Z.eqb Z.eqb_spec 0%Z _
           (fun _ n => (n + 1)%Z) year (fun p => (2000 <? year p)%Z)).
  constructor.
Qed.

Lemma sum_Z_from (xs : list Z) (a : Z) : fold_left Z.add xs a = (a + sum_Z xs)%Z.
Proof.
  unfold sum_Z. revert a; induction xs as [|x xs IH]; intros a; cbn [fold_left].
  - lia.
  - rewrite IH, (IH (0 + x)%Z). lia.
Qed.

Lemma sum_Z_cons (x : Z) (xs : list Z) : sum_Z (x :: xs) = (x + sum_Z xs)%Z.
Proof. unfold sum_Z at 1. cbn [fold_left]. rewrite sum_Z_from. lia. Qed.

(** Counting class by class, over classes that are all different, counts
    the elements that fall in one of the classes. *)
Lemma sum_of_class_counts {A} (key : A -> Z) (keep : A -> bool) (xs : list A)
    (classes : list Z) :
  NoDup classes ->
  sum_Z (map (fun y => py_len (filter (fun x => keep x && (key x =? y)%Z) xs))
           classes)
  = py_len (filter (fun x => keep x && existsb (Z.eqb (key x)) classes) xs).
Proof.
  induction 1 as [|y classes Hy Hnd IH]; cbn [map existsb].
  - unfold py_len. replace (filter _ xs) with (@nil A); [reflexivity|].
    induction xs as [|x xs IHx]; cbn; auto. now rewrite andb_false_r.
  - rewrite sum_Z_cons, IH. unfold py_len. clear IH.
    induction xs as [|x xs IHx]; cbn [filter length]; [reflexivity|].
    destruct (keep x); cbn [andb]; [|exact IHx].
    destruct (Z.eqb_spec (key x) y) as [E|E]; cbn [orb].
    + replace (existsb (Z.eqb (key x)) classes) with false.
      * cbn [length]. lia.
      * symmetry. apply not_true_is_false. intros H.
        apply existsb_exists in H. destruct H as [z [Hz Hkz]].
        apply Z.eqb_eq in Hkz. congruence.
    + destruct (existsb (Z.eqb (key x)) classes); cbn [length]; lia.
Qed.

End YearSeries.

(** X9. The time span [print_stats] shows is exact: when the statistics
    hold a year, the two ends shown are years of records, both after 2000,
    and the year of every record dated after 2000 lies between them; the
    span is N/A exactly when no record is dated after 2000. *)
Theorem time_span_bounds_the_years (papers : list CnkiPaper) :
  match time_span (corpus_stats papers) with
  | (Some lo, Some hi) =>
      (2000 < lo <= hi)%Z
      /\ (exists p, In p papers /\ year p = lo)
      /\ (exists p, In p papers /\ year p = hi)
      /\ forall p, In p papers -> (2000 < year p)%Z -> (lo <= year p <= hi)%Z
  | (None, None) => forall p, In p papers -> (year p <= 2000)%Z
  | _ => False
  end.
Proof.
  unfold time_span.
  pose proof (stats_years_strict papers) as Hs.
  pose proof (stats_years_In papers) as Hin.
  destruct (Stats.years (corpus_stats papers)) as [|y ys].
  - intros p Hp. destruct (Z.le_gt_cases (year p) 2000) as [H|H]; [exact H|].
    destruct (proj2 (Hin (year p))); eauto with zarith.
  - destruct (strict_sorted_bounds Hs) as [Hlast Hb].
    destruct (proj1 (Hin y)) as [Hy Hpy]; [cbn; auto|].
    destruct (proj1 (Hin (last ys y)) Hlast) as [_ Hpl].
    split; [|split; [exact Hpy|split; [exact Hpl|]]].
    + specialize (Hb y (or_introl eq_refl)). lia.
    + intros p Hp H2000. apply Hb. apply Hin. eauto.
Qed.

(** X10. [plot_trend] draws nothing exactly when no record is dated after
    2000.  Otherwise its [years] are the [years] of the statistics of
    [quick_parse], each [count] is the number of records of that year and is
    at least 1, and the counts add up to the number of records dated after
    2000. *)
Theorem trend_counts_every_dated_record (papers : list CnkiPaper) :
  match plot_trend papers with
  | None => forall p, In p papers -> (year p <= 2000)%Z
  | Some (years, counts) =>
      years = Stats.years (corpus_stats papers)
      /\ years <> []
      /\ counts
         = map (fun y => py_len (filter (fun p => (year p =? y)%Z) papers)) years
      /\ Forall (fun c => (1 <= c)%Z) counts
      /\ sum_Z counts = py_len (filter (fun p => (2000 <? year p)%Z) papers)
  end.
Proof.
  unfold plot_trend.
  pose proof (year_data_keys papers) as Hkeys.
  pose proof (year_data_NoDup papers) as Hnd.
  pose proof (year_data_get papers) as Hget.
  destruct (year_data papers) as [|kv yd] eqn:E.
  - intros p Hp. destruct (Z.le_gt_cases (year p) 2000) as [H|H]; [exact H|].
    destruct (proj2 (Hkeys (year p))); eauto with zarith.
  - set (d := kv :: yd) in *. set (years := sorted (keys d)).
    assert (Hyears : forall y, In y years
                       <-> (2000 < y)%Z /\ exists p, In p papers /\ year p = y).
    { intros y. unfold years. now rewrite sorted_In. }
    assert (Hstrict : StronglySorted Z.lt years) by (now apply sorted_strict).
    assert (Hcounts : map (dict_get Z.eqb 0%Z d) years
                      = map (fun y => py_len (filter (fun p => (year p =? y)%Z)
                                                papers)) years).
    { apply map_ext_in. intros y Hy. rewrite Hget. f_equal.
      apply filter_ext. intros p.
      destruct (Z.eqb_spec (year p) y) as [->|]; [|apply andb_false_r].
      apply Hyears in Hy. destruct Hy as [Hy _].
      apply Z.ltb_lt in Hy. now rewrite Hy. }
    split; [|split; [|split; [exact Hcounts|split]]].
    + apply strict_sorted_unique; auto using stats_years_strict.
      intros y. now rewrite Hyears, stats_years_In.
    + intros Hnil. destruct kv as [k v].
      assert (Hk : In k years) by (apply sorted_In; cbn; auto).
      rewrite Hnil in Hk. destruct Hk.
    + rewrite Hcounts. apply Forall_forall. intros c Hc.
      apply in_map_iff in Hc. destruct Hc as [y [<- Hy]].
      apply Hyears in Hy. destruct Hy as [_ [p [Hp Hpy]]].
      assert (Hin : In p (filter (fun p => (year p =? y)%Z) papers))
        by (apply filter_In; split; [exact Hp|now apply Z.eqb_eq]).
      unfold py_len. destruct (filter _ papers); [destruct Hin|cbn [length]; lia].
    + rewrite (map_ext _ _ Hget).
      rewrite (sum_of_class_counts year (fun p => (2000 <? year p)%Z) papers).
      * f_equal. apply filter_ext_in. intros p Hp.
        destruct (Z.ltb_spec 2000 (year p)) as [H|H]; [|reflexivity].
        cbn [andb]. apply existsb_exists. exists (year p).
        split; [apply Hyears; eauto|apply Z.eqb_refl].
      * exact (strict_sorted_NoDup Hstrict).
Qed.

(* ===================================================================== *)
(** * Sorting by a key, largest first *)
(* ===================================================================== *)

Section SortFacts.

Variables (A : Type) (key : A -> Z).

(** [x] comes before [y] in a list sorted by descending key. *)
Definition desc (x y : A) : Prop := (key y <= key x)%Z.

Lemma insert_desc_perm (x : A) (ys : list A) :
  Permutation (insert_desc key x ys) (x :: ys).
Proof.
  induction ys as [|y ys IH]; cbn; [reflexivity|].
  destruct (key y <=? key x)%Z; [reflexivity|].
  rewrite IH. apply perm_swap.
Qed.

Lemma sorted_desc_perm (xs : list A) : Permutation (sorted_desc key xs) xs.
Proof.
  induction xs as [|x xs IH]; cbn; [reflexivity|].
  rewrite insert_desc_perm. now constructor.
Qed.

Lemma sorted_desc_length (xs : list A) : length (sorted_desc key xs) = length xs.
Proof. apply Permutation_length, sorted_desc_perm. Qed.

Lemma insert_desc_sorted (x : A) (ys : list A) :
  StronglySorted desc ys -> StronglySorted desc (insert_desc key x ys).
Proof.
  induction 1 as [|y ys Hs IH Hy]; cbn.
  - repeat constructor.
  - rewrite Forall_forall in Hy. destruct (Z.leb_spec (key y) (key x)) as [H|H].
    + constructor; [now constructor; [|apply Forall_forall]|].
      constructor; [exact H|]. apply Forall_forall. intros z Hz.
      specialize (Hy z Hz). unfold desc in *. lia.
    + constructor; [exact IH|]. apply Forall_forall. intros z Hz.
      apply insert_desc_In in Hz. destruct Hz as [->|Hz]; [|now apply Hy].
      unfold desc. lia.
Qed.

Lemma sorted_desc_sorted (xs : list A) : StronglySorted desc (sorted_desc key xs).
Proof.
  induction xs as [|x xs IH]; cbn; [constructor|].
  now apply insert_desc_sorted.
Qed.

(** The sort is stable: the elements of one key keep their order. *)
Lemma insert_desc_class (k : Z) (x : A) (ys : list A) :
  filter (fun z => (key z =? k)%Z) (insert_desc key x ys)
  = filter (fun z => (key z =? k)%Z) (x :: ys).
Proof.
  induction ys as [|y ys IH]; [reflexivity|].
  cbn [insert_desc]. destruct (Z.leb_spec (key y) (key x)) as [H|H]; [reflexivity|].
  cbn [filter] in *. rewrite IH.
  destruct (Z.eqb_spec (key y) k), (Z.eqb_spec (key x) k); try reflexivity. lia.
Qed.

Lemma sorted_desc_stable (k : Z) (xs : list A) :
  filter (fun z => (key z =? k)%Z) (sorted_desc key xs)
  = filter (fun z => (key z =? k)%Z) xs.
Proof.
  induction xs as [|x xs IH]; [reflexivity|].
  cbn [sorted_desc fold_right]. fold (sorted_desc key xs).
  rewrite insert_desc_class. cbn [filter]. now rewrite IH.
Qed.

Lemma sorted_app_desc (l1 l2 : list A) :
  StronglySorted desc (l1 ++ l2) ->
  StronglySorted desc l1 /\ forall x y, In x l1 -> In y l2 -> desc x y.
Proof.
  induction l1 as [|a l1 IH]; cbn [app]; intros H.
  - split; [constructor|]. intros x y [].
  - inversion H as [|? ? Hs Ha]; subst. destruct (IH Hs) as [Hs1 Hle].
    rewrite Forall_forall in Ha. split.
    + constructor; [exact Hs1|]. apply Forall_forall. intros z Hz.
      apply Ha. apply in_or_app. now left.
    + intros x y [<-|Hx] Hy; [|now apply Hle].
      apply Ha. apply in_or_app. now right.
Qed.

(** The first [n] of a list sorted by descending key: the [n] largest,
    ties going to the elements that come first. *)
Lemma largest_first (n : nat) (xs : list A) :
  let top := firstn n (sorted_desc key xs) in
  let rest := skipn n (sorted_desc key xs) in
  length top = Nat.min n (length xs)
  /\ StronglySorted desc top
  /\ Permutation xs (top ++ rest)
  /\ (forall x y, In x top -> In y rest -> desc x y)
  /\ forall k, filter (fun z => (key z =? k)%Z) top
               = firstn (length (filter (fun z => (key z =? k)%Z) top))
                   (filter (fun z => (key z =? k)%Z) xs).
Proof.
  cbn zeta.
  pose proof (sorted_desc_sorted xs) as Hs.
  rewrite <- (firstn_skipn n (sorted_desc key xs)) in Hs.
  destruct (sorted_app_desc _ _ Hs) as [Htop Hle].
  split; [now rewrite length_firstn, sorted_desc_length|].
  split; [exact Htop|].
  split; [rewrite firstn_skipn; symmetry; apply sorted_desc_perm|].
  split; [exact Hle|].
  intros k. rewrite <- (sorted_desc_stable k xs).
  set (s := sorted_desc key xs).
  assert (E : filter (fun z => (key z =? k)%Z) s
              = filter (fun z => (key z =? k)%Z) (firstn n s)
                ++ filter (fun z => (key z =? k)%Z) (skipn n s))
    by (now rewrite <- filter_app, firstn_skipn).
  rewrite E, firstn_app, Nat.sub_diag, firstn_O, app_nil_r, firstn_all.
  reflexivity.
Qed.

End SortFacts.

Lemma insert_desc_map {A B} (key1 : A -> Z) (key2 : B -> Z) (h : A -> B)
    (x : A) (ys : list A) :
  (forall x, key2 (h x) = key1 x) ->
  insert_desc key2 (h x) (map h ys) = map h (insert_desc key1 x ys).
Proof.
  intros Hk. induction ys as [|y ys IH]; [reflexivity|].
  cbn [map insert_desc]. rewrite !Hk.
  destruct (key1 y <=? key1 x)%Z; [reflexivity|].
  cbn [map]. now rewrite IH.
Qed.

Lemma sorted_desc_map {A B} (key1 : A -> Z) (key2 : B -> Z) (h : A -> B)
    (xs : list A) :
  (forall x, key2 (h x) = key1 x) ->
  sorted_desc key2 (map h xs) = map h (sorted_desc key1 xs).
Proof.
  intros Hk. induction xs as [|x xs IH]; [reflexivity|].
  cbn [map sorted_desc fold_right].
  fold (sorted_desc key2 (map h xs)). fold (sorted_desc key1 xs).
  rewrite IH. now apply insert_desc_map.
Qed.

(* ===================================================================== *)
(** * main.py: the most cited papers *)
(* ===================================================================== *)

(** [sorted(papers, key=lambda x: x.citations, reverse=True)[:n]]: the
    list [print_top_papers] prints, and the one the summary is made of. *)
Definition top_papers (n : Z) (papers : list CnkiPaper) : list CnkiPaper :=
  slice_to n (sorted_desc citations papers).

(** X11. For [n] at least 0 the papers [print_top_papers] lists are [n]
    papers of the corpus, or all of them when there are fewer, in
    descending order of citations; no paper left out has more citations
    than a paper listed, and papers with equal citations are taken in the
    order of the corpus. *)
Theorem top_papers_are_the_most_cited (n : Z) (papers : list CnkiPaper) :
  (0 <= n)%Z ->
  let top := top_papers n papers in
  length top = Nat.min (Z.to_nat n) (length papers)
  /\ StronglySorted (fun p q => (citations q <= citations p)%Z) top
  /\ (exists rest,
        Permutation papers (top ++ rest)
        /\ forall p q, In p top -> In q rest -> (citations q <= citations p)%Z)
  /\ forall c, filter (fun p => (citations p =? c)%Z) top
               = firstn (length (filter (fun p => (citations p =? c)%Z) top))
                   (filter (fun p => (citations p =? c)%Z) papers).
Proof.
  intros Hn. cbn zeta. unfold top_papers, slice_to.
  destruct (Z.leb_spec 0 n) as [_|]; [|lia].
  destruct (largest_first citations (Z.to_nat n) papers)
    as [Hlen [Hs [Hperm [Hle Hstable]]]].
  split; [exact Hlen|]. split; [exact Hs|].
  split; [|exact Hstable].
  eexists. split; [exact Hperm|exact Hle].
Qed.

Lemma top_papers_are_the_most_cited_witness :
  (0 <= 2)%Z
  /\ map citations (top_papers 2 three_papers) = [5; 4]%Z
  /\ length (top_papers 2 three_papers) = 2.
Proof.
  split; [lia|]. split; [reflexivity|].
  destruct (@top_papers_are_the_most_cited 2 three_papers) as [Hlen _]; [lia|].
  exact Hlen.
Defined.

(* ===================================================================== *)
(** * The authors [build_coauthorship] retains *)
(* ===================================================================== *)

Section TopAuthors.
Import NX EdgeFacts NXFacts.




Lemma group_by_author_keys (papers : list CnkiPaper) (a : pystr) :
  In a (keys (group_by_author papers))
  <-> truthy a = true /\ exists p, In p papers /\ In a (authors p).
Proof.
  rewrite group_by_author_flat. unfold group_step.
  rewrite (@keys_fold_In _ _ str_eqb str_eqb_spec [] _
             (fun x ps => ps ++ [fst x]) snd (fun x => truthy (snd x))).
  cbn [keys map]. split.
  - intros [[]|[[p x] [Hin [Ht <-]]]]. cbn [snd] in *. split; [exact Ht|].
    apply in_flat_map in Hin. destruct Hin as [q [Hq Hin]].
    apply in_map_iff in Hin. destruct Hin as [y [[= <- <-] Hy]]. eauto.
  - intros [Ht [p [Hp Ha]]]. right. exists (p, a). split; [|auto].
    apply in_flat_map. exists p. split; [exact Hp|]. now apply in_map.
Qed.

Lemma group_by_author_NoDup (papers : list CnkiPaper) :
  NoDup (keys (group_by_author papers)).
Proof.
  rewrite group_by_author_flat. unfold group_step.
  apply (@keys_fold_NoDup _ _ str_eqb str_eqb_spec [] _
           (fun x ps => ps ++ [fst x]) snd (fun x => truthy (snd x))).
  constructor.
Qed.

Lemma group_by_author_In (papers : list CnkiPaper) (a : pystr) ps :
  In (a, ps) (group_by_author papers) -> ps = author_group a papers.
Proof.
  intros Hin. rewrite <- group_by_author_get. symmetry.
  apply (@dict_get_In _ _ str_eqb str_eqb_spec []); [|exact Hin].
  apply group_by_author_NoDup.
Qed.

End TopAuthors.



(* ===================================================================== *)
(** * visualizer.py: [plot_top_authors]; ai_modules.py: [analyze_themes] *)
(* ===================================================================== *)

(** [collections.Counter]: [counter.update(xs)] and
    [counter.most_common(n)], which is empty for [n] at most 0. *)
Definition counter_update (counter : dict pystr Z) (xs : list pystr) : dict pystr Z :=
  fold_left (fun c x => dict_update str_eqb 0%Z (Z.add 1) c x) xs counter.

Definition most_common (n : Z) (counter : dict pystr Z) : list (pystr * Z) :=
  if (0 <? n)%Z then firstn (Z.to_nat n) (sorted_desc snd counter) else [].

(** [plot_top_authors]: the names and the counts of the bars; [None] when
    it returns without a figure. *)
Definition plot_top_authors (top_n : Z) (papers : list CnkiPaper)
  : option (list pystr * list Z) :=
  let counter := fold_left (fun c p => counter_update c (authors p)) papers [] in
  match most_common top_n counter with
  | [] => None
  | top => Some (map fst top, map snd top)
  end.

(** [analyze_themes]: the keyword frequencies put in the prompt, from the
    keywords of all the papers. *)
Definition analyze_themes_keywords (keywords : list pystr) : list (pystr * Z) :=
  most_common 20 (counter_update [] keywords).

Section CounterFacts.

Definition count_entry (kv : pystr * list CnkiPaper) : pystr * Z :=
  (fst kv, py_len (snd kv)).

Lemma count_entry_update (d : dict pystr (list CnkiPaper)) (p : CnkiPaper)
    (k : pystr) :
  map count_entry (dict_update str_eqb [] (fun ps => ps ++ [p]) d k)
  = dict_update str_eqb 0%Z (Z.add 1) (map count_entry d) k.
Proof.
  assert (Hlen : forall ps : list CnkiPaper, py_len (ps ++ [p]) = (1 + py_len ps)%Z)
    by (intros ps; unfold py_len; rewrite length_app; cbn [length]; lia).
  induction d as [|[k' ps] d IH]; cbn [dict_update map count_entry fst snd].
  - reflexivity.
  - destruct (str_eqb k' k); cbn [map].
    + unfold count_entry at 1; cbn [fst snd]. now rewrite Hlen.
    + now rewrite IH.
Qed.

Lemma count_entry_fold (l : list (CnkiPaper * pystr)) (d : dict pystr (list CnkiPaper)) :
  Forall (fun x => truthy (snd x) = true) l ->
  map count_entry (fold_left group_step l d)
  = counter_update (map count_entry d) (map snd l).
Proof.
  intros H; revert d; induction H as [|x l Hx _ IH]; intros d; [reflexivity|].
  cbn [fold_left map]. unfold counter_update in *. cbn [fold_left].
  rewrite IH. unfold group_step. rewrite Hx. now rewrite count_entry_update.
Qed.

(** When no author name is empty, the counter of [plot_top_authors] holds
    the sizes of the groups of [build_coauthorship], name by name and in
    the same order. *)
Lemma author_counter_groups (papers : list CnkiPaper) :
  (forall p a, In p papers -> In a (authors p) -> truthy a = true) ->
  fold_left (fun c p => counter_update c (authors p)) papers []
  = map count_entry (group_by_author papers).
Proof.
  intros Ht. rewrite group_by_author_flat, count_entry_fold.
  - unfold counter_update.
    rewrite (fold_left_flat_map
               (fun c x => dict_update str_eqb 0%Z (Z.add 1) c x) authors).
    cbn [map]. f_equal.
    induction papers as [|p papers IH]; [reflexivity|].
    cbn [flat_map]. rewrite map_app, map_map. cbn [snd]. rewrite map_id.
    f_equal. apply IH. intros q a Hq. apply Ht. now right.
  - apply Forall_forall. intros [p a] Hin. cbn [snd].
    apply in_flat_map in Hin. destruct Hin as [q [Hq Hin]].
    apply in_map_iff in Hin. destruct Hin as [y [[= <- <-] Hy]]. eauto.
Qed.

Lemma top_names_firstn (n : Z) (d : dict pystr (list CnkiPaper)) :
  (0 <= n)%Z ->
  top_names n d
  = map fst (firstn (Z.to_nat n) (sorted_desc (fun x => py_len (snd x)) d)).
Proof.
  intros Hn. unfold top_names, top_authors, slice_to.
  destruct (Z.leb_spec 0 n); [reflexivity|lia].
Qed.

End CounterFacts.

(** X13. When no author name of the corpus is empty, as the parser
    guarantees, and [top_n] is positive, the bars of [plot_top_authors] are
    the authors [build_coauthorship] retains for the same [top_n], in the
    same order, and the first [top_n] of those it retains for a larger
    value; each bar is as long as the author's group of papers.  There is
    no figure exactly when no record has an author. *)
Theorem top_author_bars_match_coauthorship (top_n : Z) (papers : list CnkiPaper) :
  (forall p a, In p papers -> In a (authors p) -> truthy a = true) ->
  (0 < top_n)%Z ->
  match plot_top_authors top_n papers with
  | None => forall p, In p papers -> authors p = []
  | Some (items, counts) =>
      items = top_names top_n (group_by_author papers)
      /\ (forall n, (top_n <= n)%Z ->
            items = firstn (Z.to_nat top_n) (top_names n (group_by_author papers)))
      /\ counts = map (fun a => py_len (author_group a papers)) items
  end.
Proof.
  intros Ht Hn. unfold plot_top_authors, most_common.
  rewrite (author_counter_groups papers Ht).
  destruct (Z.ltb_spec 0 top_n) as [_|]; [|lia].
  set (d := group_by_author papers).
  rewrite (sorted_desc_map (fun x => py_len (snd x)) snd count_entry d)
    by reflexivity.
  rewrite firstn_map.
  set (s := sorted_desc (fun x => py_len (snd x)) d).
  assert (Hitems : map fst (map count_entry (firstn (Z.to_nat top_n) s))
                   = top_names top_n d).
  { rewrite top_names_firstn by lia. rewrite map_map. reflexivity. }
  destruct (map count_entry (firstn (Z.to_nat top_n) s)) as [|e top] eqn:E.
  - intros p Hp. destruct (authors p) as [|a l] eqn:Ea; [reflexivity|].
    assert (Hk : In a (keys d)).
    { apply group_by_author_keys. split; [|exists p; rewrite Ea; cbn; auto].
      apply (Ht p); [exact Hp|rewrite Ea; cbn; auto]. }
    apply in_map_iff in Hk. destruct Hk as [kv [_ Hkv]].
    apply sorted_desc_In with (key := fun x => py_len (snd x)) in Hkv. fold s in Hkv.
    apply map_eq_nil in E.
    destruct s as [|x s']; [destruct Hkv|].
    destruct (Z.to_nat top_n) eqn:En; [lia|discriminate].
  - split; [exact Hitems|]. split.
    + intros n Hle. rewrite Hitems, !top_names_firstn by lia.
      fold s. rewrite firstn_map, firstn_firstn. do 2 f_equal. lia.
    + rewrite <- E, !map_map. apply map_ext_in. intros [a ps] Hin. cbn [fst snd count_entry].
      f_equal. apply group_by_author_In. fold d.
      apply In_firstn in Hin. now apply sorted_desc_In in Hin.
Qed.

Lemma top_author_bars_match_coauthorship_witness :
  (0 < 1)%Z
  /\ plot_top_authors 1 three_papers = Some ([lit "X"], [3%Z])
  /\ top_names 1 (group_by_author three_papers) = [lit "X"].
Proof.
  assert (Ht : forall p a, In p three_papers -> In a (authors p) -> truthy a = true).
  { intros p a [<-|[<-|[<-|[]]]]; cbn; intros H;
      repeat (destruct H as [<-|H]; [reflexivity|]); destruct H. }
  pose proof (@top_author_bars_match_coauthorship 1 three_papers Ht eq_refl) as H.
  split; [reflexivity|]. split; [reflexivity|].
  change (plot_top_authors 1 three_papers) with (Some ([lit "X"], [3%Z])) in H.
  destruct H as [H _]. now rewrite <- H.
Defined.

(** X14. When no keyword of the corpus is empty, as the parser
    guarantees, the keyword frequencies [analyze_themes] puts in its prompt
    are the 20 most frequent keywords of the corpus, or all of them when
    there are fewer, in descending order of frequency; each goes with the
    number of times the corpus lists it, the number [build_keywords] counts
    too, and no keyword left out is more frequent than one listed. *)
Theorem theme_keywords_are_the_most_frequent (papers : list CnkiPaper) :
  (forall p k, In p papers -> In k (keywords p) -> truthy k = true) ->
  let top := analyze_themes_keywords (flat_map keywords papers) in
  length top = Nat.min 20 (length (keyword_freq papers))
  /\ StronglySorted (fun x y => (snd y <= snd x)%Z) top
  /\ (forall k c, In (k, c) top ->
        c = keyword_count k papers
        /\ c = dict_get str_eqb 0%Z (keyword_freq papers) k /\ (1 <= c)%Z)
  /\ (forall k c k', In (k, c) top -> In k' (keys (keyword_freq papers)) ->
        ~ In k' (map fst top) -> (keyword_count k' papers <= c)%Z).
Proof.
  intros Ht. cbn zeta. unfold analyze_themes_keywords, most_common, counter_update.
  change (0 <? 20)%Z with true. cbv iota.
  assert (Hfreq : fold_left (fun c x => dict_update str_eqb 0%Z (Z.add 1) c x)
                    (flat_map keywords papers) []
                  = keyword_freq papers).
  { rewrite keyword_freq_flat.
    assert (Hall : Forall (fun k => truthy k = true) (flat_map keywords papers)).
    { apply Forall_forall. intros k Hk. apply in_flat_map in Hk.
      destruct Hk as [p [Hp Hk]]. eauto. }
    generalize (@nil (pystr * Z)).
    induction Hall as [|k l Hk _ IH]; intros d; [reflexivity|].
    cbn [fold_left].
    replace (freq_step d k) with (dict_update str_eqb 0%Z (Z.add 1) d k)
      by (unfold freq_step; now rewrite Hk).
    apply IH. }
  rewrite Hfreq. set (d := keyword_freq papers).
  destruct (largest_first snd (Z.to_nat 20) d) as [Hlen [Hs [Hperm [Hle _]]]].
  set (top := firstn (Z.to_nat 20) (sorted_desc snd d)) in *.
  set (rest := skipn (Z.to_nat 20) (sorted_desc snd d)) in *.
  assert (Hd : forall k c, In (k, c) d ->
                 c = keyword_count k papers
                 /\ c = dict_get str_eqb 0%Z d k /\ (1 <= c)%Z).
  { intros k c Hin.
    assert (Hk : In k (keys d)) by (apply in_map_iff; now exists (k, c)).
    apply keyword_freq_keys in Hk. destruct Hk as [Htk [p [Hp Hkp]]].
    assert (Hc : dict_get str_eqb 0%Z d k = c).
    { apply (@dict_get_In _ _ str_eqb str_eqb_spec 0%Z); [|exact Hin].
      apply keyword_freq_NoDup. }
    unfold d in Hc. rewrite keyword_freq_get in Hc by exact Htk.
    split; [now symmetry|]. split; [unfold d; rewrite keyword_freq_get; auto|].
    subst c. unfold keyword_count, py_len.
    assert (Hne : In k (flat_map (fun p => filter (str_eqb k) (keywords p)) papers)).
    { apply in_flat_map. exists p. split; [exact Hp|].
      apply filter_In. split; [exact Hkp|apply str_eqb_refl]. }
    remember (flat_map (fun p => filter (str_eqb k) (keywords p)) papers) as l.
    destruct l; [destruct Hne|cbn [length]; lia]. }
  assert (Htop : forall x, In x top -> In x d).
  { intros x Hx. apply (Permutation_in _ (Permutation_sym Hperm)), in_or_app.
    now left. }
  split; [exact Hlen|]. split; [exact Hs|]. split.
  - intros k c Hin. apply Hd. now apply Htop.
  - intros k c k' Hin Hk' Hnot.
    apply in_map_iff in Hk'. destruct Hk' as [[k'' c'] [Hfst Hin']].
    cbn [fst] in Hfst. subst k''.
    destruct (Hd _ _ Hin') as [<- _].
    apply (Permutation_in _ Hperm) in Hin'. apply in_app_or in Hin'.
    destruct Hin' as [Hin'|Hin'].
    + destruct Hnot. apply in_map_iff. now exists (k', c').
    + exact (Hle _ _ Hin Hin').
Qed.

Lemma theme_keywords_are_the_most_frequent_witness :
  analyze_themes_keywords (flat_map keywords three_keyword_papers)
  = [(lit "a", 2%Z); (lit "b", 2%Z); (lit "c", 2%Z)]
  /\ length (analyze_themes_keywords (flat_map keywords three_keyword_papers))
     = Nat.min 20 (length (keyword_freq three_keyword_papers)).
Proof.
  split; [reflexivity|].
  refine (proj1 (@theme_keywords_are_the_most_frequent three_keyword_papers _)).
  intros p k [<-|[<-|[<-|[]]]]; cbn; intros H;
    repeat (destruct H as [<-|H]; [reflexivity|]); destruct H.
Defined.

(* ===================================================================== *)
(** * The nodes of the co-authorship and institution graphs *)
(* ===================================================================== *)

Section GraphNodes.
Import NX EdgeFacts NXFacts.

Lemma bump_edge_names_iff G u v n :
  nodes_are_endpoints G ->
  (In n (node_names (bump_edge G u v)) <-> n = u \/ n = v \/ In n (node_names G)).
Proof.
  intros HG. split; [apply bump_edge_names|].
  unfold bump_edge. destruct (has_edge G u v) eqn:E.
  - change (node_names (incr_weight G u v)) with (node_names G).
    apply has_edge_iff in E. destruct E as [e [He Hj]].
    apply joins_iff in Hj.
    intros [->|[->|H]]; [| |exact H]; apply HG; exists e; split; auto;
      unfold endpoint; tauto.
  - unfold add_edge. rewrite !has_edge_add_node, E. cbv iota. intros H.
    change (In n (node_names (add_node (add_node G u) v))).
    rewrite !node_names_add_node. tauto.
Qed.

Lemma fold_bump_endpoints (ps : list (pystr * pystr)) (G : graph) :
  nodes_are_endpoints G ->
  nodes_are_endpoints (fold_left (fun G xy => bump_edge G (fst xy) (snd xy)) ps G).
Proof.
  revert G; induction ps as [|xy ps IH]; intros G HG; cbn [fold_left]; auto.
  apply IH. now apply bump_edge_endpoints.
Qed.

(** The nodes a loop over pairs leaves: those there were, and the members
    of the pairs. *)
Lemma fold_bump_names (ps : list (pystr * pystr)) (G : graph) (n : pystr) :
  nodes_are_endpoints G ->
  (In n (node_names (fold_left (fun G xy => bump_edge G (fst xy) (snd xy)) ps G))
   <-> In n (node_names G)
       \/ exists xy, In xy ps /\ (n = fst xy \/ n = snd xy)).
Proof.
  revert G; induction ps as [|xy ps IH]; intros G HG; cbn [fold_left].
  - split; [auto|]. intros [H|[xy [[] _]]]. exact H.
  - rewrite IH by (now apply bump_edge_endpoints).
    rewrite bump_edge_names_iff by exact HG. split.
    + intros [[H|[H|H]]|[xy' [Hin H]]].
      * right. exists xy. cbn; auto.
      * right. exists xy. cbn; auto.
      * now left.
      * right. exists xy'. cbn; auto.
    + intros [H|[xy' [[<-|Hin] H]]].
      * left. auto.
      * left. tauto.
      * right. eauto.
Qed.

(** A name is in one of the pairs of a list when the list holds it and has
    at least two entries. *)
Lemma pairs_member {A} (l : list A) (n : A) :
  (exists xy, In xy (pairs l) /\ (n = fst xy \/ n = snd xy))
  <-> In n l /\ 2 <= length l.
Proof.
  split.
  - intros [[x y] [Hin H]]. cbn [fst snd] in H. split.
    + destruct (pairs_In _ _ _ Hin). destruct H as [->| ->]; assumption.
    + destruct l as [|a [|b l]]; cbn [length]; [destruct Hin|destruct Hin|lia].
  - intros [Hin Hlen]. induction l as [|a l IH]; [destruct Hin|].
    cbn [pairs]. destruct Hin as [->|Hin].
    + destruct l as [|b l]; [cbn in Hlen; lia|].
      exists (n, b). split; [apply in_or_app; left; cbn; auto|cbn; auto].
    + exists (a, n). split; [|cbn; auto].
      apply in_or_app. left. now apply in_map.
Qed.

Lemma institution_names (papers : list CnkiPaper) :
  node_names (build_institution papers) = node_names (institution_edges papers).
Proof.
  unfold build_institution. rewrite institution_attrs_fold.
  set (G0 := institution_edges papers).
  now destruct (fold_update_attrs
                  (fun n a => mkAttrs
                     (Some (py_len (filter (fun p => name_in (all_institutions p) n)
                                      papers)))
                     (NX.citations a) (freq a))
                  (node_names G0) G0) as [Hn _].
Qed.

Lemma coauthorship_names (top_n : Z) (papers : list CnkiPaper) :
  node_names (build_coauthorship top_n papers)
  = node_names (coauthorship_edges (top_names top_n (group_by_author papers)) papers).
Proof.
  unfold build_coauthorship. rewrite coauthorship_attrs_fold.
  set (ap := group_by_author papers).
  set (G0 := coauthorship_edges (top_names top_n ap) papers).
  now destruct (fold_update_attrs (author_attrs ap) (node_names G0) G0) as [Hn _].
Qed.

End GraphNodes.

(** X15. An institution is a node of the graph of [build_institution]
    exactly when some record lists it among at least two institutions.  Its
    [paper_count] is the number of records that list it, those with a
    single institution included, and is at least 1. *)
Theorem institution_nodes_and_counts (papers : list CnkiPaper) (n : pystr) :
  let G := build_institution papers in
  let listing := filter (fun p => name_in (all_institutions p) n) papers in
  (In n (NX.node_names G)
   <-> exists p, In p papers /\ In n (all_institutions p)
                 /\ 2 <= length (all_institutions p))
  /\ (In n (NX.node_names G) ->
      (1 <= py_len listing)%Z
      /\ exists a, NX.node_attrs G n = Some a
                   /\ NX.paper_count a = Some (py_len listing)).
Proof.
  cbn zeta.
  assert (Hnodes : In n (NX.node_names (build_institution papers))
                   <-> exists p, In p papers /\ In n (all_institutions p)
                                 /\ 2 <= length (all_institutions p)).
  { rewrite institution_names, institution_edges_flat.
    rewrite fold_bump_names by apply EdgeFacts.empty_endpoints.
    unfold institution_pairs. cbn [NX.node_names NX.nodes NX.empty map]. split.
    - intros [[]|[xy [Hin H]]]. apply in_flat_map in Hin.
      destruct Hin as [p [Hp Hin]]. exists p. split; [exact Hp|].
      apply pairs_member. eauto.
    - intros [p [Hp H]]. right. apply pairs_member in H.
      destruct H as [xy [Hin H]]. exists xy. split; [|exact H].
      apply in_flat_map. eauto. }
  split; [exact Hnodes|]. intros Hin. split.
  - apply Hnodes in Hin. destruct Hin as [p [Hp [Hn _]]].
    assert (Hl : In p (filter (fun p => name_in (all_institutions p) n) papers))
      by (apply filter_In; split; [exact Hp|now apply name_in_In]).
    unfold py_len. destruct (filter _ papers); [destruct Hl|cbn [length]; lia].
  - unfold build_institution in *. rewrite institution_attrs_fold in *.
    set (G0 := institution_edges papers) in *.
    destruct (NXFacts.fold_update_attrs
                (fun n a => NX.mkAttrs
                   (Some (py_len (filter (fun p => name_in (all_institutions p) n)
                                    papers)))
                   (NX.citations a) (NX.freq a))
                (NX.node_names G0) G0) as [Hn [_ Ha]]; [reflexivity|].
    rewrite Hn in Hin. rewrite Ha.
    destruct (NXFacts.node_attrs_In G0 n Hin) as [a0 Ha0]. rewrite Ha0.
    assert (E : existsb (str_eqb n) (NX.node_names G0) = true)
      by (apply (name_in_In (NX.node_names G0) n); exact Hin).
    rewrite E. cbn [option_map]. eexists. split; reflexivity.
Qed.

(** X16. An author is a node of the graph of [build_coauthorship] exactly
    when it is retained and some record names it in a list with at least
    two entries for retained authors. *)
Theorem coauthorship_nodes_have_a_retained_coauthor (top_n : Z)
    (papers : list CnkiPaper) (n : pystr) :
  let names := top_names top_n (group_by_author papers) in
  In n (NX.node_names (build_coauthorship top_n papers))
  <-> In n names
      /\ exists p, In p papers /\ In n (authors p)
                   /\ 2 <= length (filter (name_in names) (authors p)).
Proof.
  cbn zeta. set (names := top_names top_n (group_by_author papers)).
  rewrite coauthorship_names, coauthorship_edges_flat. fold names.
  rewrite fold_bump_names by apply EdgeFacts.empty_endpoints.
  unfold coauthor_pairs. cbn [NX.node_names NX.nodes NX.empty map]. split.
  - intros [[]|[xy [Hin H]]]. apply in_flat_map in Hin.
    destruct Hin as [p [Hp Hin]].
    destruct (proj1 (pairs_member _ n) (ex_intro _ xy (conj Hin H))) as [Hn Hlen].
    apply filter_In in Hn. destruct Hn as [Hn Hname].
    split; [now apply name_in_In|]. eauto.
  - intros [Hname [p [Hp [Hn Hlen]]]]. right.
    assert (H : In n (filter (name_in names) (authors p)) /\
                2 <= length (filter (name_in names) (authors p))).
    { split; [|exact Hlen]. apply filter_In. split; [exact Hn|].
      now apply name_in_In. }
    apply pairs_member in H. destruct H as [xy [Hin H]].
    exists xy. split; [|exact H]. apply in_flat_map. eauto.
Qed.

(* ===================================================================== *)
(** * Edge weights as numbers of joint records *)
(* ===================================================================== *)

(** How many times the list [l] names [a]. *)
Definition occurrences (a : pystr) (l : list pystr) : nat :=
  length (filter (str_eqb a) l).

Section JointRecords.
Import NX EdgeFacts NXFacts.

Lemma occurrences_cons (a x : pystr) (l : list pystr) :
  occurrences a (x :: l) = (if str_eqb a x then 1 else 0) + occurrences a l.
Proof. unfold occurrences. cbn [filter]. now destruct (str_eqb a x). Qed.

Lemma pairs_from (a b x : pystr) (rest : list pystr) :
  length (filter (same_ends a b) (map (pair x) rest))
  = length (filter (fun y => (str_eqb x a && str_eqb y b)
                             || (str_eqb x b && str_eqb y a)) rest).
Proof.
  induction rest as [|y rest IH]; [reflexivity|].
  cbn [map filter]. unfold same_ends at 1. cbn [fst snd].
  destruct (_ || _); cbn [length]; now rewrite IH.
Qed.

Lemma filter_const_false {A} (l : list A) : filter (fun _ => false) l = [].
Proof. induction l; cbn; auto. Qed.

(** Two different names are paired as often as the product of the numbers
    of times the list names them. *)
Lemma pair_count_product (a b : pystr) (l : list pystr) :
  a <> b ->
  length (filter (same_ends a b) (pairs l)) = occurrences a l * occurrences b l.
Proof.
  intros Hab. induction l as [|x l IH]; [reflexivity|].
  cbn [pairs]. rewrite filter_app, length_app, IH, pairs_from, !occurrences_cons.
  rewrite (str_eqb_sym a x), (str_eqb_sym b x).
  destruct (str_eqb_spec x a) as [Exa|Hxa], (str_eqb_spec x b) as [Exb|Hxb];
    cbn [andb orb]; try congruence.
  - rewrite (filter_ext _ (str_eqb b)) by (intros y; rewrite orb_false_r;
                                            apply str_eqb_sym).
    fold (occurrences b l). lia.
  - rewrite (filter_ext _ (str_eqb a)) by (intros y; apply str_eqb_sym).
    fold (occurrences a l). lia.
  - rewrite filter_const_false. cbn [length]. lia.
Qed.

(** A name is paired with itself once for every two of its occurrences. *)
Lemma pair_count_self (a : pystr) (l : list pystr) :
  2 * length (filter (same_ends a a) (pairs l))
  = occurrences a l * (occurrences a l - 1).
Proof.
  induction l as [|x l IH]; [reflexivity|].
  cbn [pairs]. rewrite filter_app, length_app, pairs_from, occurrences_cons.
  rewrite (str_eqb_sym a x).
  destruct (str_eqb_spec x a) as [Exa|Hxa]; cbn [andb orb].
  - rewrite (filter_ext _ (str_eqb a)) by (intros y; rewrite orb_diag;
                                            apply str_eqb_sym).
    fold (occurrences a l). nia.
  - rewrite filter_const_false. cbn [length]. lia.
Qed.

Lemma occurrences_NoDup (a : pystr) (l : list pystr) :
  NoDup l -> occurrences a l = if name_in l a then 1 else 0.
Proof.
  induction 1 as [|x l Hx Hnd IH]; [reflexivity|].
  rewrite occurrences_cons, IH. unfold name_in. cbn [existsb].
  fold (name_in l a).
  destruct (str_eqb_spec a x) as [->|Hax]; cbn [orb]; [|reflexivity].
  destruct (name_in l x) eqn:E; [|reflexivity].
  apply name_in_In in E. contradiction.
Qed.

Lemma occurrences_filter (names : list pystr) (a : pystr) (l : list pystr) :
  occurrences a (filter (name_in names) l)
  = if name_in names a then occurrences a l else 0.
Proof.
  unfold occurrences. rewrite filter_filter_and.
  destruct (name_in names a) eqn:E.
  - f_equal. apply filter_ext. intros x.
    destruct (str_eqb_spec a x) as [<-|]; [now rewrite E|apply andb_false_r].
  - rewrite (filter_ext _ (fun _ => false)); [now rewrite filter_const_false|].
    intros x. destruct (str_eqb_spec a x) as [<-|]; [now rewrite E|apply andb_false_r].
Qed.

(** Counting the pairs record by record. *)
Lemma pair_count_records (a b : pystr) (f : CnkiPaper -> list pystr)
    (c : CnkiPaper -> nat) (papers : list CnkiPaper) :
  (forall p, In p papers -> length (filter (same_ends a b) (pairs (f p))) = c p) ->
  pair_count a b (flat_map (fun p => pairs (f p)) papers)
  = Z.of_nat (list_sum (map c papers)).
Proof.
  unfold pair_count, py_len. intros H. f_equal.
  induction papers as [|p papers IH]; [reflexivity|].
  cbn [flat_map map list_sum fold_right]. fold (list_sum (map c papers)).
  rewrite filter_app, length_app.
  rewrite H by (cbn; auto). rewrite IH by (intros; apply H; cbn; auto).
  reflexivity.
Qed.

Lemma list_sum_indicator {A} (g : A -> bool) (l : list A) :
  list_sum (map (fun x => if g x then 1 else 0) l) = length (filter g l).
Proof.
  induction l as [|x l IH]; [reflexivity|].
  cbn [map list_sum fold_right filter].
  fold (list_sum (map (fun x => if g x then 1 else 0) l)).
  destruct (g x); cbn [length]; lia.
Qed.

Lemma list_sum_zeros {A} (l : list A) : list_sum (map (fun _ => 0) l) = 0.
Proof. induction l as [|x l IH]; [reflexivity|exact IH]. Qed.

Lemma list_sum_pos {A} (c : A -> nat) (l : list A) :
  0 < list_sum (map c l) <-> exists x, In x l /\ 0 < c x.
Proof.
  induction l as [|x l IH].
  - cbn. split; [lia|]. intros [x [[] _]].
  - cbn [map list_sum fold_right]. fold (list_sum (map c l)). split.
    + intros H. destruct (Nat.eq_dec (c x) 0) as [E|E].
      * destruct (proj1 IH) as [y [Hy Hc]]; [lia|]. exists y. cbn; auto.
      * exists x. cbn. split; [auto|lia].
    + intros [y [[<-|Hy] Hc]]; [lia|].
      assert (0 < list_sum (map c l)) by (apply IH; eauto). lia.
Qed.

End JointRecords.

(** X17. When no record lists an institution twice, the weight of the edge
    between two different institutions is the number of records that list
    both, and there is no edge when there is none.  When no record names an
    author twice, the same holds of two different retained authors in the
    co-authorship graph; an author that is not retained has no edge. *)
Theorem edge_weight_counts_joint_records (top_n : Z) (papers : list CnkiPaper)
    (a b : pystr) :
  a <> b ->
  let names := top_names top_n (group_by_author papers) in
  let joint := fun f : CnkiPaper -> list pystr =>
                 py_len (filter (fun p => name_in (f p) a && name_in (f p) b) papers) in
  ((forall p, In p papers -> NoDup (all_institutions p)) ->
   NX.weight (build_institution papers) a b = weight_of_count (joint all_institutions))
  /\ ((forall p, In p papers -> NoDup (authors p)) ->
      NX.weight (build_coauthorship top_n papers) a b
      = if name_in names a && name_in names b
        then weight_of_count (joint authors) else None).
Proof.
  intros Hab. cbn zeta.
  destruct (edge_weights_count_pairs top_n papers a b) as [Hco Hin].
  split; intros Hnd.
  - rewrite Hin. unfold institution_pairs.
    rewrite (pair_count_records a b all_institutions
               (fun p => if name_in (all_institutions p) a
                            && name_in (all_institutions p) b then 1 else 0)).
    + now rewrite list_sum_indicator.
    + intros p Hp. rewrite pair_count_product by exact Hab.
      rewrite !occurrences_NoDup by (now apply Hnd).
      now destruct (name_in _ a), (name_in _ b).
  - rewrite Hco. unfold coauthor_pairs.
    set (names := top_names top_n (group_by_author papers)).
    rewrite (pair_count_records a b
               (fun p => filter (name_in names) (authors p))
               (fun p => if name_in names a && name_in names b
                         then if name_in (authors p) a && name_in (authors p) b
                              then 1 else 0
                         else 0)).
    + destruct (name_in names a && name_in names b).
      * now rewrite list_sum_indicator.
      * cbv iota. now rewrite list_sum_zeros.
    + intros p Hp. rewrite pair_count_product by exact Hab.
      rewrite !occurrences_filter.
      rewrite !occurrences_NoDup by (now apply Hnd).
      now destruct (name_in names a), (name_in names b),
            (name_in (authors p) a), (name_in (authors p) b).
Qed.

Lemma edge_weight_counts_joint_records_witness :
  lit "X" <> lit "Y"
  /\ NX.weight (build_coauthorship 50 three_papers) (lit "X") (lit "Y") = Some 2%Z.
Proof.
  assert (Hne : lit "X" <> lit "Y") by discriminate.
  split; [exact Hne|].
  destruct (@edge_weight_counts_joint_records 50 three_papers (lit "X") (lit "Y") Hne)
    as [_ H].
  rewrite H; [reflexivity|].
  intros p [<-|[<-|[<-|[]]]]; cbn [authors paper_by set_citations set_authors];
    repeat constructor; cbn; intuition discriminate.
Defined.

(** X18. A graph has a loop from a name to itself exactly when some record
    names it twice: an institution listed twice in the institution graph, a
    retained author named twice in the co-authorship graph.  When no list
    of the corpus repeats a name, neither graph has a self-loop. *)
Theorem self_loops_come_from_repeated_names (top_n : Z) (papers : list CnkiPaper)
    (a : pystr) :
  let names := top_names top_n (group_by_author papers) in
  (NX.has_edge (build_institution papers) a a = true
   <-> exists p, In p papers /\ 2 <= occurrences a (all_institutions p))
  /\ (NX.has_edge (build_coauthorship top_n papers) a a = true
      <-> In a names /\ exists p, In p papers /\ 2 <= occurrences a (authors p))
  /\ ((forall p, In p papers -> NoDup (all_institutions p)) ->
      NX.has_edge (build_institution papers) a a = false)
  /\ ((forall p, In p papers -> NoDup (authors p)) ->
      NX.has_edge (build_coauthorship top_n papers) a a = false).
Proof.
  cbn zeta. set (names := top_names top_n (group_by_author papers)).
  destruct (edge_weights_count_pairs top_n papers a a) as [Hco Hin].
  fold names in Hco.
  assert (Hloop : forall (G : NX.graph) (f : CnkiPaper -> list pystr),
             NX.weight G a a
             = weight_of_count (pair_count a a (flat_map (fun p => pairs (f p)) papers)) ->
             (NX.has_edge G a a = true
              <-> exists p, In p papers /\ 2 <= occurrences a (f p))).
  { intros G f Hw. rewrite has_edge_weight, Hw.
    rewrite (pair_count_records a a f
               (fun p => length (filter (same_ends a a) (pairs (f p)))))
      by reflexivity.
    unfold weight_of_count.
    destruct (Z.eqb_spec (Z.of_nat (list_sum
                (map (fun p => length (filter (same_ends a a) (pairs (f p))))
                   papers))) 0) as [E|E].
    - split; [discriminate|]. intros [p [Hp H2]].
      assert (Hpos : 0 < list_sum
                (map (fun p => length (filter (same_ends a a) (pairs (f p))))
                   papers)).
      { apply list_sum_pos. exists p. split; [exact Hp|].
        pose proof (pair_count_self a (f p)). nia. }
      lia.
    - split; [intros _|reflexivity].
      destruct (proj1 (list_sum_pos
                  (fun p => length (filter (same_ends a a) (pairs (f p)))) papers))
        as [p [Hp Hc]]; [lia|].
      exists p. split; [exact Hp|].
      pose proof (pair_count_self a (f p)). nia. }
  assert (Hinst := Hloop _ all_institutions Hin).
  assert (Hauth := Hloop _ (fun p => filter (name_in names) (authors p)) Hco).
  assert (Hauth' : NX.has_edge (build_coauthorship top_n papers) a a = true
                   <-> In a names
                       /\ exists p, In p papers /\ 2 <= occurrences a (authors p)).
  { rewrite Hauth. split.
    - intros [p [Hp H2]]. rewrite occurrences_filter in H2.
      destruct (name_in names a) eqn:E; [|lia].
      split; [now apply name_in_In|eauto].
    - intros [Hn [p [Hp H2]]]. exists p. split; [exact Hp|].
      rewrite occurrences_filter. apply name_in_In in Hn. now rewrite Hn. }
  split; [exact Hinst|]. split; [exact Hauth'|]. split; intros Hnd.
  - apply not_true_is_false. intros H. apply Hinst in H.
    destruct H as [p [Hp H2]]. rewrite occurrences_NoDup in H2 by (now apply Hnd).
    destruct (name_in _ a); lia.
  - apply not_true_is_false. intros H. apply Hauth' in H.
    destruct H as [_ [p [Hp H2]]]. rewrite occurrences_NoDup in H2 by (now apply Hnd).
    destruct (name_in _ a); lia.
Qed.

(* ===================================================================== *)
(** * The nodes of the keyword graph *)
(* ===================================================================== *)

Section KeywordNodes.
Import NX EdgeFacts NXFacts.

Lemma weight_sym (G : graph) (a b : pystr) : weight G a b = weight G b a.
Proof.
  unfold weight. f_equal. apply find_same. intros [[x y] w]. cbn [joins].
  apply orb_comm.
Qed.

(** In a graph whose nodes are the ends of its edges, the nodes are the
    names that have a weighted edge. *)
Lemma node_iff_weight (G : graph) (n : pystr) :
  nodes_are_endpoints G ->
  (In n (node_names G) <-> exists m w, weight G n m = Some w).
Proof.
  intros HG. rewrite (HG n). split.
  - intros [[[u v] w0] [Hin Hend]]. cbn [endpoint fst snd] in Hend.
    assert (He : has_edge G u v = true).
    { apply has_edge_iff. exists (u, v, w0). split; [exact Hin|].
      apply joins_iff. cbn. auto. }
    rewrite has_edge_weight in He.
    destruct (weight G u v) as [w|] eqn:Hw; [|discriminate].
    destruct Hend as [<-|<-]; [now exists v, w|].
    exists u, w. now rewrite weight_sym.
  - intros [m [w Hw]].
    assert (He : has_edge G n m = true) by (now rewrite has_edge_weight, Hw).
    apply has_edge_iff in He. destruct He as [e [Hin Hj]].
    exists e. split; [exact Hin|].
    apply joins_iff in Hj. unfold endpoint. tauto.
Qed.

Lemma find_app_last {A} (f : A -> bool) (l : list A) (x : A) :
  f x = false -> find f (l ++ [x]) = find f l.
Proof.
  intros Hx. induction l as [|y l IH]; cbn; [now rewrite Hx|].
  now destruct (f y).
Qed.

Lemma node_attrs_add_node (G : graph) (m n : pystr) :
  n <> m -> node_attrs (add_node G m) n = node_attrs G n.
Proof.
  intros Hne. unfold add_node. destruct (has_node G m); [reflexivity|].
  unfold node_attrs; cbn [nodes]. f_equal. apply find_app_last.
  cbn [fst]. apply str_eqb_neq. congruence.
Qed.

Lemma node_attrs_add_edge (G : graph) (u v n : pystr) (w : Z) :
  n <> u -> n <> v -> node_attrs (add_edge G u v w) n = node_attrs G n.
Proof.
  intros Hu Hv. unfold add_edge.
  transitivity (node_attrs (add_node (add_node G u) v) n).
  - now destruct (has_edge _ u v).
  - now rewrite !node_attrs_add_node.
Qed.

Lemma node_names_add_edge (G : graph) (u v n : pystr) (w : Z) :
  In n (node_names (add_edge G u v w)) <-> n = v \/ n = u \/ In n (node_names G).
Proof.
  unfold add_edge.
  transitivity (In n (node_names (add_node (add_node G u) v))).
  - now destruct (has_edge _ u v).
  - now rewrite !node_names_add_node.
Qed.

(** Every node of the keyword graph carries the frequency of its keyword. *)
Definition carries_freq (freq : dict pystr Z) (G : graph) : Prop :=
  forall n, In n (node_names G) ->
    exists a, node_attrs G n = Some a
              /\ NX.freq a = Some (dict_get str_eqb 0%Z freq n).

Lemma keyword_step_carries_freq freq G item :
  carries_freq freq G -> carries_freq freq (keyword_step freq G item).
Proof.
  destruct item as [[k1 k2] w]. intros HG. unfold keyword_step.
  destruct (2 <=? w)%Z; [|exact HG].
  intros n. rewrite !node_names_update_attrs, !node_attrs_update_attrs.
  intros Hin.
  destruct (node_attrs_In (add_edge G k1 k2 w) n Hin) as [a1 Ha1].
  destruct (str_eqb_spec n k2) as [->|Hn2].
  - destruct (str_eqb_spec k2 k1) as [->|H21]; rewrite Ha1; cbn [option_map];
      eexists; split; reflexivity.
  - destruct (str_eqb_spec n k1) as [->|Hn1].
    + rewrite Ha1; cbn [option_map]. eexists; split; reflexivity.
    + rewrite node_attrs_add_edge by assumption.
      apply HG. apply node_names_add_edge in Hin. tauto.
Qed.

Lemma keyword_graph_carries_freq freq cooc :
  carries_freq freq (keyword_graph freq cooc).
Proof.
  rewrite keyword_graph_fold.
  apply (fold_left_inv (carries_freq freq)).
  - intros G item _. apply keyword_step_carries_freq.
  - intros n [].
Qed.

End KeywordNodes.

(** X19. A keyword is a node of the graph of [build_keywords] exactly when
    it has an edge.  Every node is a keyword that is not empty and that
    the corpus lists at least [min_freq] times, and its [freq] attribute is
    the number of times the corpus lists it. *)
Theorem keyword_nodes_and_frequencies (min_freq : Z) (papers : list CnkiPaper)
    (n : pystr) :
  let G := build_keywords min_freq papers in
  (In n (NX.node_names G) <-> exists m w, NX.weight G n m = Some w)
  /\ (In n (NX.node_names G) ->
      truthy n = true
      /\ (min_freq <= keyword_count n papers)%Z
      /\ exists a, NX.node_attrs G n = Some a
                   /\ NX.freq a = Some (keyword_count n papers)).
Proof.
  cbn zeta.
  assert (Hiff : In n (NX.node_names (build_keywords min_freq papers))
                 <-> exists m w, NX.weight (build_keywords min_freq papers) n m
                                 = Some w).
  { apply node_iff_weight. apply (nodes_only_through_edges 0 min_freq papers). }
  split; [exact Hiff|]. intros Hin.
  destruct (proj1 Hiff Hin) as [m [w Hw]]. rewrite keyword_weight in Hw.
  cbn zeta in Hw.
  destruct (name_in (valid_keywords min_freq (keyword_freq papers)) n) eqn:Hv;
    [|discriminate].
  apply valid_keywords_iff in Hv; [|apply keyword_freq_NoDup].
  destruct Hv as [Hkey Hmin].
  apply keyword_freq_keys in Hkey. destruct Hkey as [Ht _].
  rewrite keyword_freq_get in Hmin by exact Ht.
  split; [exact Ht|]. split; [exact Hmin|].
  destruct (keyword_graph_carries_freq (keyword_freq papers)
              (cooccurrence (valid_keywords min_freq (keyword_freq papers)) papers)
              n Hin) as [a [Ha Hf]].
  exists a. split; [exact Ha|]. now rewrite Hf, keyword_freq_get.
Qed.

(** X20. Raising [min_freq] only takes away from the keyword graph: with a
    larger threshold every edge that remains was there with the same
    weight, and every node that remains was a node. *)
Theorem raising_min_freq_only_removes (low high : Z) (papers : list CnkiPaper) :
  (low <= high)%Z ->
  (forall a b w,
     NX.weight (build_keywords high papers) a b = Some w ->
     NX.weight (build_keywords low papers) a b = Some w)
  /\ (forall n,
        In n (NX.node_names (build_keywords high papers)) ->
        In n (NX.node_names (build_keywords low papers))).
Proof.
  intros Hle.
  assert (Hvalid : forall a,
             name_in (valid_keywords high (keyword_freq papers)) a = true ->
             name_in (valid_keywords low (keyword_freq papers)) a = true).
  { intros a Ha.
    apply valid_keywords_iff in Ha; [|apply keyword_freq_NoDup].
    apply valid_keywords_iff; [apply keyword_freq_NoDup|].
    destruct Ha. split; [assumption|lia]. }
  assert (Hw : forall a b w,
             NX.weight (build_keywords high papers) a b = Some w ->
             NX.weight (build_keywords low papers) a b = Some w).
  { intros a b w. rewrite !keyword_weight. cbn zeta.
    destruct (name_in (valid_keywords high (keyword_freq papers)) a) eqn:Ea;
      [|discriminate].
    destruct (name_in (valid_keywords high (keyword_freq papers)) b) eqn:Eb;
      [|discriminate].
    now rewrite (Hvalid a Ea), (Hvalid b Eb). }
  split; [exact Hw|].
  intros n Hin.
  apply node_iff_weight in Hin;
    [|apply (nodes_only_through_edges 0 high papers)].
  destruct Hin as [m [w Hnm]].
  apply node_iff_weight; [apply (nodes_only_through_edges 0 low papers)|].
  exists m, w. now apply Hw.
Qed.

Lemma raising_min_freq_only_removes_witness :
  (1 <= 2)%Z
  /\ NX.weight (build_keywords 2 three_keyword_papers) (lit "a") (lit "b")
     = Some 2%Z
  /\ NX.weight (build_keywords 1 three_keyword_papers) (lit "a") (lit "b")
     = Some 2%Z.
Proof.
  split; [lia|]. split; [reflexivity|].
  destruct (@raising_min_freq_only_removes 1 2 three_keyword_papers) as [H _]; [lia|].
  apply H. reflexivity.
Defined.

(* ===================================================================== *)
(** * A record is decoded marker by marker *)
(* ===================================================================== *)

(** The second characters of the markers [_parse_record] decodes. *)
Definition known_markers : list char :=
  [ch "T"; ch "A"; ch "+"; ch "J"; ch "D"; ch "V"; ch "N"; ch "P"; ch "K";
   ch "X"; ch "R"; ch "@"; ch "L"; ch "U"; ch "W"; ch "Z"].

Lemma decode_fields_per_marker (tbl : digit_table) (f1 f2 : list (char * pystr)) :
  (forall m, In m known_markers -> values_of m f1 = values_of m f2) ->
  decode_fields tbl f1 = decode_fields tbl f2.
Proof.
  intros H. unfold decode_fields, last_of. rewrite !picks_on.
  assert (HT := H (ch "T")). assert (HA := H (ch "A")). assert (Hp := H (ch "+")).
  assert (HJ := H (ch "J")). assert (HD := H (ch "D")). assert (HV := H (ch "V")).
  assert (HN := H (ch "N")). assert (HP := H (ch "P")). assert (HK := H (ch "K")).
  assert (HX := H (ch "X")). assert (HR := H (ch "R")). assert (Ha := H (ch "@")).
  assert (HL := H (ch "L")). assert (HU := H (ch "U")). assert (HW := H (ch "W")).
  assert (HZ := H (ch "Z")).
  rewrite HT, HA, Hp, HJ, HD, HV, HN, HP, HK, HX, HR, Ha, HL, HU, HW, HZ
    by (unfold known_markers; cbn [In]; tauto).
  reflexivity.
Qed.

(** X21. The record [_parse_record] builds depends only on the values each
    decoded marker has, in their order: two blocks whose lines give every
    marker the same values decode to the same record.  So lines of
    different markers can be exchanged, and lines that are not fields or
    have another marker can be added or dropped. *)
Theorem decoding_looks_at_each_marker_alone (tbl : digit_table) (r1 r2 : pystr) :
  (forall m, In m known_markers ->
     values_of m (field_lines r1) = values_of m (field_lines r2)) ->
  _parse_record tbl r1 = _parse_record tbl r2.
Proof.
  intros H. rewrite !parse_record_decode. now apply decode_fields_per_marker.
Qed.

Lemma decoding_looks_at_each_marker_alone_witness :
  let r1 := lit "%T a title" ++ nl ++ lit "%A X" ++ nl ++ lit "%A Y" ++ nl
            ++ lit "%J j" in
  let r2 := lit "%0 Journal Article" ++ nl ++ lit "%J j" ++ nl ++ lit "%A X" ++ nl
            ++ lit "not a field" ++ nl ++ lit "%T a title" ++ nl ++ lit "%A Y" in
  r1 <> r2
  /\ _parse_record ascii_digits r1 = _parse_record ascii_digits r2.
Proof.
  cbn zeta. split; [discriminate|].
  apply decoding_looks_at_each_marker_alone.
  intros m Hm. unfold known_markers in Hm. cbn [In] in Hm.
  repeat (destruct Hm as [<-|Hm]; [vm_compute; reflexivity|]). destruct Hm.
Defined.

(* ===================================================================== *)
(** * The counters of the statistics *)
(* ===================================================================== *)

Lemma nodup_length_le {A} (dec : forall x y : A, {x = y} + {x <> y}) (l : list A) :
  length (nodup dec l) <= length l.
Proof.
  apply NoDup_incl_length; [apply NoDup_nodup|].
  intros x Hx. now apply nodup_In in Hx.
Qed.

Lemma filter_length_le {A} (f : A -> bool) (l : list A) :
  length (filter f l) <= length l.
Proof. induction l as [|x l IH]; cbn; [lia|]. destruct (f x); cbn; lia. Qed.

(** X22. The counters of the statistics of [quick_parse] are bounded by the
    corpus: there are no more journals and no more first institutions than
    records, and no more authors than author entries.  When no author name
    is empty, as the parser guarantees, the number of authors is the number
    of authors [build_coauthorship] groups the records by. *)
Theorem statistics_counters_are_bounded (papers : list CnkiPaper) :
  let stats := corpus_stats papers in
  (0 <= Stats.journals stats <= Stats.total stats)%Z
  /\ (0 <= Stats.institutions stats <= Stats.total stats)%Z
  /\ (0 <= Stats.authors stats <= py_len (flat_map authors papers))%Z
  /\ ((forall p a, In p papers -> In a (authors p) -> truthy a = true) ->
      Stats.authors stats = py_len (group_by_author papers)).
Proof.
  cbn zeta. unfold corpus_stats, str_set, py_len.
  cbn [Stats.journals Stats.institutions Stats.authors Stats.total].
  split; [|split; [|split]].
  - pose proof (nodup_length_le str_eq_dec
                  (map journal (filter (fun p => truthy (journal p)) papers))) as H.
    rewrite length_map in H.
    pose proof (filter_length_le (fun p => truthy (journal p)) papers). lia.
  - pose proof (nodup_length_le str_eq_dec
                  (map institution
                     (filter (fun p => truthy (institution p)) papers))) as H.
    rewrite length_map in H.
    pose proof (filter_length_le (fun p => truthy (institution p)) papers). lia.
  - pose proof (nodup_length_le str_eq_dec (flat_map authors papers)). lia.
  - intros Ht. f_equal.
    rewrite <- (length_map fst (group_by_author papers)).
    fold (keys (group_by_author papers)).
    assert (Hsame : forall a, In a (nodup str_eq_dec (flat_map authors papers))
                              <-> In a (keys (group_by_author papers))).
    { intros a. rewrite nodup_In, in_flat_map, group_by_author_keys. split.
      - intros [p [Hp Ha]]. split; [exact (Ht p a Hp Ha)|eauto].
      - intros [_ H]. exact H. }
    apply Nat.le_antisymm; apply NoDup_incl_length;
      try apply NoDup_nodup; try apply group_by_author_NoDup;
      intros a Ha; now apply Hsame.
Qed.

(* ===================================================================== *)
(** * Every pair of a list adds one to the weights *)
(* ===================================================================== *)

(** The sum of the weights of the edges. *)
Definition total_weight (G : NX.graph) : Z := sum_Z (map snd (NX.edges G)).

(** No two stored edges join the same two names. *)
Definition stored_once (G : NX.graph) : Prop :=
  forall u v, length (filter (NX.joins u v) (NX.edges G)) <= 1.

Section WeightConservation.
Import NX EdgeFacts NXFacts.

Lemma sum_Z_app (xs ys : list Z) : sum_Z (xs ++ ys) = (sum_Z xs + sum_Z ys)%Z.
Proof.
  induction xs as [|x xs IH]; [reflexivity|].
  cbn [app]. rewrite !sum_Z_cons, IH. lia.
Qed.

Lemma joins_ends (a b : pystr) (e e' : pystr * pystr * Z) :
  fst e = fst e' -> joins a b e = joins a b e'.
Proof. destruct e as [[x y] w], e' as [[x' y'] w']. cbn. now intros [= -> ->]. Qed.

Lemma set_weight_joined (a b u v : pystr) (f : Z -> Z) (es : list (pystr * pystr * Z)) :
  length (filter (joins a b) (set_weight u v f es))
  = length (filter (joins a b) es).
Proof.
  unfold set_weight. induction es as [|e es IH]; [reflexivity|].
  cbn [map filter].
  rewrite (@joins_ends a b (if joins u v e then (fst e, f (snd e)) else e) e)
    by (now destruct (joins u v e)).
  destruct (joins a b e); cbn [length]; now rewrite IH.
Qed.

Lemma set_weight_sum (u v : pystr) (es : list (pystr * pystr * Z)) :
  sum_Z (map snd (set_weight u v (fun w => (w + 1)%Z) es))
  = (sum_Z (map snd es) + Z.of_nat (length (filter (joins u v) es)))%Z.
Proof.
  unfold set_weight. induction es as [|e es IH]; [reflexivity|].
  cbn [map filter]. rewrite !sum_Z_cons, IH.
  destruct (joins u v e); cbn [snd length]; lia.
Qed.

Lemma has_edge_joined (G : graph) (u v : pystr) :
  has_edge G u v = true <-> 1 <= length (filter (joins u v) (edges G)).
Proof.
  unfold has_edge. induction (edges G) as [|e es IH]; cbn [existsb filter].
  - cbn. split; [discriminate|lia].
  - destruct (joins u v e); cbn [orb length]; [split; [lia|reflexivity]|exact IH].
Qed.

Lemma joins_both (a b u v : pystr) (e : pystr * pystr * Z) (w : Z) :
  joins a b (u, v, w) = true -> joins a b e = joins u v e.
Proof.
  intros H. apply same_ends_joins. apply same_ends_iff. apply joins_iff in H.
  cbn [fst snd] in *. intuition congruence.
Qed.

Lemma bump_edge_conserves (G : graph) (u v : pystr) :
  stored_once G ->
  stored_once (bump_edge G u v)
  /\ total_weight (bump_edge G u v) = (total_weight G + 1)%Z.
Proof.
  intros HG. unfold bump_edge, total_weight, stored_once.
  destruct (has_edge G u v) eqn:E.
  - cbn [incr_weight edges]. split.
    + intros a b. rewrite set_weight_joined. apply HG.
    + rewrite set_weight_sum. apply has_edge_joined in E.
      specialize (HG u v). lia.
  - unfold add_edge. rewrite !has_edge_add_node, E. cbn [edges].
    rewrite !edges_add_node. split.
    + intros a b. rewrite filter_app, length_app. cbn [filter].
      destruct (joins a b (u, v, 1%Z)) eqn:J; cbn [length]; [|specialize (HG a b); lia].
      assert (Hnone : length (filter (joins a b) (edges G)) = 0).
      { rewrite (filter_ext _ _ (fun e => @joins_both a b u v e 1%Z J)).
        destruct (Nat.eq_dec (length (filter (joins u v) (edges G))) 0) as [H0|H0];
          [exact H0|].
        assert (H1 : has_edge G u v = true) by (apply has_edge_joined; lia).
        congruence. }
      lia.
    + rewrite map_app, sum_Z_app. reflexivity.
Qed.

Lemma fold_bump_conserves (ps : list (pystr * pystr)) (G : graph) :
  stored_once G ->
  stored_once (fold_left (fun G xy => bump_edge G (fst xy) (snd xy)) ps G)
  /\ total_weight (fold_left (fun G xy => bump_edge G (fst xy) (snd xy)) ps G)
     = (total_weight G + py_len ps)%Z.
Proof.
  revert G; induction ps as [|xy ps IH]; intros G HG; cbn [fold_left].
  - split; [exact HG|]. unfold py_len. cbn [length]. lia.
  - destruct (bump_edge_conserves (fst xy) (snd xy) HG) as [H1 H2].
    destruct (IH _ H1) as [H3 H4]. split; [exact H3|].
    rewrite H4, H2. unfold py_len. cbn [length]. lia.
Qed.

Lemma pairs_length {A} (l : list A) :
  2 * length (pairs l) = length l * (length l - 1).
Proof.
  induction l as [|x l IH]; [reflexivity|].
  cbn [pairs length]. rewrite length_app, length_map. nia.
Qed.

End WeightConservation.

(** X23. In the institution graph and in the co-authorship graph every
    pair of names has at most one edge, and the weights of the edges add up
    to the number of pairs of entries the record lists (restricted to the
    retained authors in the second) hold: a list of [n] entries adds
    [n (n - 1) / 2] in all. *)
Theorem every_pair_adds_one_to_the_weights (top_n : Z) (papers : list CnkiPaper) :
  (stored_once (build_institution papers)
   /\ total_weight (build_institution papers) = py_len (institution_pairs papers))
  /\ (stored_once (build_coauthorship top_n papers)
      /\ total_weight (build_coauthorship top_n papers)
         = py_len (coauthor_pairs (top_names top_n (group_by_author papers)) papers))
  /\ forall l : list pystr, 2 * length (pairs l) = length l * (length l - 1).
Proof.
  assert (Hempty : stored_once NX.empty) by (intros u v; cbn; lia).
  split; [|split; [|apply pairs_length]].
  - unfold build_institution. rewrite institution_attrs_fold.
    set (G0 := institution_edges papers).
    destruct (NXFacts.fold_update_attrs
                (fun n a => NX.mkAttrs
                   (Some (py_len (filter (fun p => name_in (all_institutions p) n)
                                    papers)))
                   (NX.citations a) (NX.freq a))
                (NX.node_names G0) G0) as [_ [He _]]; [reflexivity|].
    unfold stored_once, total_weight. rewrite He. unfold G0.
    rewrite institution_edges_flat.
    destruct (fold_bump_conserves (institution_pairs papers) Hempty) as [H1 H2].
    split; [exact H1|]. unfold total_weight in H2. rewrite H2. reflexivity.
  - unfold build_coauthorship. rewrite coauthorship_attrs_fold.
    set (ap := group_by_author papers).
    set (G0 := coauthorship_edges (top_names top_n ap) papers).
    destruct (NXFacts.fold_update_attrs (author_attrs ap) (NX.node_names G0) G0)
      as [_ [He _]]; [reflexivity|].
    unfold stored_once, total_weight. rewrite He. unfold G0.
    rewrite coauthorship_edges_flat.
    destruct (fold_bump_conserves (coauthor_pairs (top_names top_n ap) papers) Hempty)
      as [H1 H2].
    split; [exact H1|]. unfold total_weight in H2. rewrite H2. reflexivity.
Qed.

(* ===================================================================== *)
(** * visualizer.py: what the three network figures draw *)
(* ===================================================================== *)





Section FigureFacts.
Import NX EdgeFacts NXFacts.








End FigureFacts.




(* ===================================================================== *)
(** * The counts of the statistics line *)
(* ===================================================================== *)

Section CountFacts.

Variable tbl : digit_table.

(** What may stand between a label and its number: at most one colon, then
    white space. *)
Definition separator (sep : pystr) : Prop :=
  exists colon ws,
    sep = colon ++ ws
    /\ (colon = [] \/ exists c, colon = [c] /\ is_colon c = true)
    /\ Forall (fun c => is_space c = true) ws.

(** [d] is a run of digits, not empty, that stops before [post]. *)
Definition digit_run (d post : pystr) : Prop :=
  d <> []
  /\ Forall (fun c => is_decimal tbl c = true) d
  /\ match post with [] => True | c :: _ => is_decimal tbl c = false end.

(** [t] starts with the label, a separator and the digits [d]. *)
Definition count_match (label t d : pystr) : Prop :=
  exists sep post, t = label ++ sep ++ d ++ post /\ separator sep /\ digit_run d post.

Lemma take_drop_while (f : char -> bool) (s : pystr) :
  take_while f s ++ drop_while f s = s.
Proof.
  induction s as [|c s IH]; cbn; auto.
  destruct (f c); cbn; [now rewrite IH|reflexivity].
Qed.

Lemma digits1_sound (s d : pystr) :
  digits1 tbl s = Some d -> exists post, s = d ++ post /\ digit_run d post.
Proof.
  intros H. destruct (digits1_decimal _ _ H) as [Hne Hall].
  unfold digits1 in H.
  destruct (take_while (is_decimal tbl) s) as [|c t] eqn:E; [discriminate|].
  injection H as <-. exists (drop_while (is_decimal tbl) s).
  split; [now rewrite <- E, take_drop_while|].
  split; [exact Hne|]. split; [exact Hall|].
  apply drop_while_head.
Qed.

Lemma digits1_complete (d post : pystr) :
  d <> [] -> Forall (fun c => is_decimal tbl c = true) d ->
  digits1 tbl (d ++ post) <> None.
Proof.
  intros Hne Hall. destruct d as [|c d]; [congruence|].
  inversion Hall as [|? ? Hc _]; subst.
  unfold digits1. cbn [app take_while]. rewrite Hc. discriminate.
Qed.

Lemma spaces_digits_sound (s d : pystr) :
  spaces_digits tbl s = Some d ->
  exists ws post,
    s = ws ++ d ++ post /\ Forall (fun c => is_space c = true) ws /\ digit_run d post.
Proof.
  revert d; induction s as [|c s IH]; intros d; cbn [spaces_digits]; [discriminate|].
  assert (Hd : digits1 tbl (c :: s) = Some d ->
               exists ws post, c :: s = ws ++ d ++ post
                               /\ Forall (fun c => is_space c = true) ws
                               /\ digit_run d post).
  { intros H. destruct (digits1_sound _ H) as [post [E Hr]].
    exists [], post. cbn [app]. auto. }
  destruct (is_space c) eqn:Hc; [|exact Hd].
  destruct (spaces_digits tbl s) as [d'|]; [|exact Hd].
  intros [= <-]. destruct (IH d' eq_refl) as [ws [post [E [Hws Hr]]]].
  exists (c :: ws), post. cbn [app]. rewrite <- E. auto.
Qed.

Lemma spaces_digits_complete (ws d post : pystr) :
  Forall (fun c => is_space c = true) ws ->
  d <> [] -> Forall (fun c => is_decimal tbl c = true) d ->
  spaces_digits tbl (ws ++ d ++ post) <> None.
Proof.
  intros Hws Hne Hall. induction Hws as [|c ws Hc _ IH]; cbn [app].
  - pose proof (digits1_complete post Hne Hall) as Hd.
    destruct d as [|c d]; [congruence|]. cbn [app] in *. cbn [spaces_digits].
    destruct (is_space c); [|exact Hd].
    destruct (spaces_digits tbl (d ++ post)); [discriminate|exact Hd].
  - cbn [spaces_digits]. rewrite Hc.
    destruct (spaces_digits tbl (ws ++ d ++ post)); [discriminate|].
    now destruct IH.
Qed.

Lemma colon_spaces_digits_sound (s d : pystr) :
  colon_spaces_digits tbl s = Some d ->
  exists sep post, s = sep ++ d ++ post /\ separator sep /\ digit_run d post.
Proof.
  assert (Hs : forall s, spaces_digits tbl s = Some d ->
               exists sep post, s = sep ++ d ++ post /\ separator sep
                                /\ digit_run d post).
  { intros s0 H. destruct (spaces_digits_sound _ H) as [ws [post [E [Hws Hr]]]].
    exists ws, post. split; [exact E|]. split; [|exact Hr].
    exists [], ws. auto. }
  unfold colon_spaces_digits. destruct s as [|c s]; [discriminate|].
  destruct (is_colon c) eqn:Hc; [|apply Hs].
  destruct (spaces_digits tbl s) as [d'|] eqn:E; [|apply Hs].
  intros [= <-]. destruct (spaces_digits_sound _ E) as [ws [post [E' [Hws Hr]]]].
  exists (c :: ws), post. split; [cbn [app]; now rewrite <- E'|].
  split; [|exact Hr]. exists [c], ws. split; [reflexivity|]. split; [|exact Hws].
  right. eauto.
Qed.

Lemma colon_spaces_digits_complete (sep d post : pystr) :
  separator sep -> d <> [] -> Forall (fun c => is_decimal tbl c = true) d ->
  colon_spaces_digits tbl (sep ++ d ++ post) <> None.
Proof.
  intros [colon [ws [-> [Hcolon Hws]]]] Hne Hall.
  pose proof (spaces_digits_complete post Hws Hne Hall) as Hsd.
  destruct Hcolon as [->|[c [-> Hc]]]; cbn [app].
  - unfold colon_spaces_digits.
    destruct (ws ++ d ++ post) as [|c s] eqn:E; [now destruct Hsd|].
    destruct (is_colon c); [|exact Hsd].
    destruct (spaces_digits tbl s); [discriminate|exact Hsd].
  - unfold colon_spaces_digits. rewrite Hc.
    destruct (spaces_digits tbl (ws ++ d ++ post)); [discriminate|].
    now destruct Hsd.
Qed.

Lemma startswith_app (label s : pystr) :
  startswith label s = true <-> exists rest, s = label ++ rest.
Proof.
  revert s; induction label as [|c label IH]; intros s; cbn [startswith app].
  - split; [intros _; now exists s|reflexivity].
  - destruct s as [|d s]; [split; [discriminate|intros [rest [=]]]|].
    rewrite andb_true_iff, N.eqb_eq, IH. split.
    + intros [-> [rest ->]]. now exists rest.
    + intros [rest [= -> ->]]. split; [reflexivity|now exists rest].
Qed.

Lemma skipn_label (label rest : pystr) : skipn (length label) (label ++ rest) = rest.
Proof. induction label as [|c label IH]; cbn; auto. Qed.

(** What [search_count] tries at one position. *)
Definition count_at (label s : pystr) : option pystr :=
  if startswith label s then colon_spaces_digits tbl (skipn (length label) s)
  else None.

Lemma count_at_sound (label s d : pystr) :
  count_at label s = Some d -> count_match label s d.
Proof.
  unfold count_at. destruct (startswith label s) eqn:E; [|discriminate].
  apply startswith_app in E. destruct E as [rest ->]. rewrite skipn_label.
  intros H. destruct (colon_spaces_digits_sound _ H) as [sep [post [-> [Hs Hr]]]].
  now exists sep, post.
Qed.

Lemma count_at_complete (label s d : pystr) :
  count_match label s d -> count_at label s <> None.
Proof.
  intros [sep [post [-> [Hs [Hne [Hall _]]]]]]. unfold count_at.
  assert (E : startswith label (label ++ sep ++ d ++ post) = true)
    by (apply startswith_app; eauto).
  rewrite E, skipn_label. now apply colon_spaces_digits_complete.
Qed.

Lemma search_count_step (label : pystr) (c : char) (s : pystr) :
  search_count tbl label (c :: s)
  = match count_at label (c :: s) with
    | Some d => Some d
    | None => search_count tbl label s
    end.
Proof. reflexivity. Qed.

End CountFacts.

(** X25. The group [search_count] captures is the number that follows the
    first occurrence of the label that a number follows: at that place the
    text reads label, at most one colon, white space, then the digits
    captured, which stop at the end of the text or before a character that
    is not a digit; and no earlier place reads so.  It captures nothing
    exactly when no place of the text reads so.  A record with one
    statistics line takes its citations and its downloads from these
    captures, and keeps 0 without one. *)
Theorem count_is_the_first_labelled_number (tbl : digit_table) :
  (forall label s,
     match search_count tbl label s with
     | Some d =>
         exists pre t,
           s = pre ++ t /\ count_match tbl label t d
           /\ forall pre' t' d',
                s = pre' ++ t' -> length pre' < length pre ->
                ~ count_match tbl label t' d'
     | None => forall pre t d, s = pre ++ t -> ~ count_match tbl label t d
     end)
  /\ (forall record v,
        values_of (ch "Z") (field_lines record) = [v] ->
        citations (_parse_record tbl record)
        = match search_count tbl label_cited v with
          | Some d => int_of_digits tbl d
          | None => 0%Z
          end
        /\ downloads (_parse_record tbl record)
           = match search_count tbl label_downloads v with
             | Some d => int_of_digits tbl d
             | None => 0%Z
             end).
Proof.
  split.
  - intros label s. induction s as [|c s IH].
    + cbn [search_count]. intros pre t d E [sep [post [Et [_ [Hne _]]]]].
      destruct pre; [|discriminate]. cbn [app] in E. subst t.
      destruct label; [|discriminate]. destruct sep; [|discriminate].
      destruct d; [congruence|discriminate].
    + rewrite search_count_step.
      destruct (count_at tbl label (c :: s)) as [d|] eqn:E.
      * exists [], (c :: s). split; [reflexivity|].
        split; [now apply count_at_sound|].
        intros pre' t' d' _ Hlen. cbn in Hlen. lia.
      * assert (Hhere : forall d, ~ count_match tbl label (c :: s) d).
        { intros d Hm. now apply count_at_complete in Hm. }
        destruct (search_count tbl label s) as [d|].
        -- destruct IH as [pre [t [-> [Hm Hfirst]]]].
           exists (c :: pre), t. split; [reflexivity|]. split; [exact Hm|].
           intros pre' t' d' Es Hlen. destruct pre' as [|c' pre'].
           ++ cbn [app] in Es. subst t'. apply Hhere.
           ++ injection Es as <- Es. apply (Hfirst pre' t' d' Es).
              cbn [length] in Hlen. lia.
        -- intros pre t d Es. destruct pre as [|c' pre].
           ++ cbn [app] in Es. subst t. apply Hhere.
           ++ injection Es as <- Es. now apply (IH pre t d).
  - intros record v Hv. rewrite parse_record_decode.
    unfold decode_fields, last_of; cbn [citations downloads].
    rewrite !picks_on, Hv. unfold count_of, picks. cbn [flat_map].
    split.
    + now destruct (search_count tbl label_cited v).
    + now destruct (search_count tbl label_downloads v).
Qed.

(* ===================================================================== *)
(** * Keyword edges as numbers of joint records *)
(* ===================================================================== *)

Section JointKeywords.

Lemma co_occur_same_ends (a b : pystr) (xy : pystr * pystr) :
  a <> b -> co_occur a b xy = same_ends a b xy.
Proof.
  intros Hab. destruct xy as [x y]. unfold co_occur, same_ends. cbn [fst snd].
  destruct (str_eqb_spec x y) as [->|E]; [|reflexivity].
  cbn [negb andb].
  destruct (str_eqb_spec y a), (str_eqb_spec y b); cbn; congruence.
Qed.

(** Two different keywords co-occur as many times as there are records
    that list both, when no record lists a keyword twice. *)
Lemma cooc_count_joint (a b : pystr) (papers : list CnkiPaper) :
  a <> b -> (forall p, In p papers -> NoDup (keywords p)) ->
  cooc_count a b papers
  = py_len (filter (fun p => name_in (keywords p) a && name_in (keywords p) b) papers).
Proof.
  intros Hab Hnd. unfold cooc_count.
  rewrite (flat_map_ext _ (fun p => filter (same_ends a b) (pairs (keywords p))))
    by (intros p; apply filter_ext; intros xy; now apply co_occur_same_ends).
  rewrite <- filter_length_flat_map.
  fold (pair_count a b (flat_map (fun p => pairs (keywords p)) papers)).
  rewrite (pair_count_records a b keywords
             (fun p => if name_in (keywords p) a && name_in (keywords p) b
                       then 1 else 0)).
  - now rewrite list_sum_indicator.
  - intros p Hp. rewrite pair_count_product by exact Hab.
    rewrite !occurrences_NoDup by (now apply Hnd).
    now destruct (name_in _ a), (name_in _ b).
Qed.

(** A keyword is counted once for every record that lists it, when no
    record lists a keyword twice. *)
Lemma keyword_count_records (a : pystr) (papers : list CnkiPaper) :
  (forall p, In p papers -> NoDup (keywords p)) ->
  keyword_count a papers = py_len (filter (fun p => name_in (keywords p) a) papers).
Proof.
  intros Hnd. unfold keyword_count, py_len. f_equal.
  induction papers as [|p papers IH]; [reflexivity|].
  cbn [flat_map filter]. rewrite length_app, IH by (intros; apply Hnd; cbn; auto).
  fold (occurrences a (keywords p)).
  rewrite occurrences_NoDup by (apply Hnd; cbn; auto).
  destruct (name_in (keywords p) a); cbn [length]; lia.
Qed.

End JointKeywords.

(** X26. When no record lists a keyword twice, the keyword graph reads in
    numbers of records: two different keywords that are not empty have an
    edge exactly when each is listed by at least [min_freq] records and at
    least two records list both, and the weight is the number of records
    that list both. *)
Theorem keyword_weight_counts_joint_records (min_freq : Z)
    (papers : list CnkiPaper) (a b : pystr) :
  a <> b -> truthy a = true -> truthy b = true ->
  (forall p, In p papers -> NoDup (keywords p)) ->
  let records_with := fun k => py_len (filter (fun p => name_in (keywords p) k) papers) in
  let joint := py_len (filter (fun p => name_in (keywords p) a
                                        && name_in (keywords p) b) papers) in
  NX.weight (build_keywords min_freq papers) a b
  = if (min_freq <=? records_with a)%Z && (min_freq <=? records_with b)%Z
       && (2 <=? joint)%Z
    then Some joint else None.
Proof.
  intros Hab Ha Hb Hnd. cbn zeta.
  rewrite keyword_weight. cbn zeta.
  rewrite (@cooc_count_joint a b papers Hab Hnd).
  rewrite <- (@keyword_count_records a papers Hnd), <- (@keyword_count_records b papers Hnd).
  set (joint := py_len (filter _ papers)).
  destruct (Z.leb_spec 2 joint) as [H2|H2]; [|now rewrite !andb_false_r].
  assert (Hex : exists p, In p papers /\ name_in (keywords p) a = true
                          /\ name_in (keywords p) b = true).
  { unfold joint, py_len in H2.
    destruct (filter (fun p => name_in (keywords p) a && name_in (keywords p) b)
                papers) as [|p l] eqn:E; [cbn in H2; lia|].
    assert (Hp : In p (filter (fun p => name_in (keywords p) a
                                        && name_in (keywords p) b) papers))
      by (rewrite E; cbn; auto).
    apply filter_In in Hp. destruct Hp as [Hp Hboth].
    apply andb_true_iff in Hboth. exists p. tauto. }
  destruct Hex as [p [Hp [Hpa Hpb]]].
  rewrite (valid_of_occurring min_freq papers a Ha)
    by (exists p; split; [exact Hp|now apply name_in_In]).
  rewrite (valid_of_occurring min_freq papers b Hb)
    by (exists p; split; [exact Hp|now apply name_in_In]).
  reflexivity.
Qed.

Lemma keyword_weight_counts_joint_records_witness :
  lit "a" <> lit "b"
  /\ NX.weight (build_keywords 2 three_keyword_papers) (lit "a") (lit "b") = Some 2%Z.
Proof.
  assert (Hne : lit "a" <> lit "b") by discriminate.
  split; [exact Hne|].
  rewrite (@keyword_weight_counts_joint_records 2 three_keyword_papers
             (lit "a") (lit "b") Hne eq_refl eq_refl); [reflexivity|].
  intros p [<-|[<-|[<-|[]]]]; cbn [keywords paper_about set_keywords];
    repeat constructor; cbn; intuition discriminate.
Defined.
